(** * The todo persistence layer: two storage backends behind one contract

    A shallow embedding of [src/storage/fileStorage.js] (class [FileStorage])
    and [src/storage/sqliteFileStorage.js] (class [SqliteFileStorage]),
    together with the parts of the JavaScript runtime they rely on: dynamic
    values, [Map], [Array.prototype.sort]/[slice], [JSON.stringify]/[parse],
    the [fs/promises] calls and the SQL statements sent to the engine.
    The levels, the name sanitiser and the file rotation of the logger
    [src/logger/logg.js] and the fallback of [generateUuid] follow.

    Conventions.
    - A JavaScript string is a Rocq [string]; its characters stand for the
      code units U+0000..U+00FF.
    - A JavaScript number is an integer [Z]; fractions, NaN and infinities
      are outside the model, and so is the rendering of the integers that
      a double does not hold exactly.
    - The medium is a map from paths to texts and a map from paths to
      tables; whether it keeps track of its directories is a parameter
      (class [Medium]).
    - The calls are [async], but every [await] is sequenced and the host
      serialises the calls, so an operation is a state transformer that
      either returns or throws, and keeps the state it reached when it
      throws. *)

From Stdlib Require Import ZArith Ascii String List Bool Lia.
From Stdlib Require Import Permutation Sorted OrderedTypeEx.
From stdpp Require Import gmap strings.

Open Scope string_scope.
Open Scope list_scope.
Open Scope nat_scope.
Import ListNotations.

(** ** JavaScript values *)

#[local] Set Warnings "-register-all".

Inductive value : Type :=
| VUndef
| VNull
| VBool (b : bool)
| VNum (n : Z)
| VStr (s : string)
| VArr (items : list value)
| VObj (fields : list (string * value)).

(** An object is the list of its own properties, in creation order. *)
Definition obj : Type := list (string * value).

(** Keyed lists serve both for objects and for [Map]: both iterate in
    insertion order, and writing an existing key keeps its position. *)
Section Keyed.
Context {A : Type}.

Fixpoint lookup_key (k : string) (l : list (string * A)) : option A :=
  match l with
  | [] => None
  | (k', a) :: r => if String.eqb k k' then Some a else lookup_key k r
  end.

Fixpoint set_key (k : string) (a : A) (l : list (string * A))
  : list (string * A) :=
  match l with
  | [] => [(k, a)]
  | (k', a') :: r =>
      if String.eqb k k' then (k', a) :: r else (k', a') :: set_key k a r
  end.

Fixpoint delete_key (k : string) (l : list (string * A))
  : list (string * A) :=
  match l with
  | [] => []
  | (k', a') :: r =>
      if String.eqb k k' then delete_key k r
      else (k', a') :: delete_key k r
  end.

Definition has_key (k : string) (l : list (string * A)) : bool :=
  match lookup_key k l with Some _ => true | None => false end.

Definition keys (l : list (string * A)) : list string := map fst l.
Definition values (l : list (string * A)) : list A := map snd l.
End Keyed.

(** [o.k] on an object; [undefined] for a missing property. *)
Definition prop (o : obj) (k : string) : value :=
  match lookup_key k o with Some v => v | None => VUndef end.

(** [v.k] for the property names this program reads ([title],
    [description], [done], [id]): primitives and arrays have none of
    them.  Reading a property of [null]/[undefined] throws and is guarded at
    each use. *)
Definition get_prop (v : value) (k : string) : value :=
  match v with
  | VObj o => prop o k
  | _ => VUndef
  end.

Definition typeof (v : value) : string :=
  match v with
  | VUndef => "undefined"
  | VNull => "object"
  | VBool _ => "boolean"
  | VNum _ => "number"
  | VStr _ => "string"
  | VArr _ => "object"
  | VObj _ => "object"
  end.

(** ToBoolean. *)
Definition truthy (v : value) : bool :=
  match v with
  | VUndef | VNull => false
  | VBool b => b
  | VNum n => negb (n =? 0)%Z
  | VStr s => negb (String.eqb s "")
  | VArr _ | VObj _ => true
  end.

(** [a || b]. *)
Definition js_or (a b : value) : value := if truthy a then a else b.

(** Decimal rendering of an integer, as [Number.prototype.toString] gives
    it for the integers that a double holds exactly. *)
Definition digit_char (d : nat) : ascii := ascii_of_nat (48 + d).

Fixpoint pos_digits (fuel : nat) (n : N) (acc : list ascii) : list ascii :=
  match fuel with
  | O => acc
  | S fuel' =>
      let d := digit_char (N.to_nat (n mod 10)) in
      if (n <? 10)%N then d :: acc
      else pos_digits fuel' (n / 10) (d :: acc)
  end.

Definition Z_digits (z : Z) : list ascii :=
  let n := Z.abs_N z in
  let ds := pos_digits (S (N.to_nat (N.log2 n))) n [] in
  if (z <? 0)%Z then "-"%char :: ds else ds.

Definition join_with (sep : list ascii) (parts : list (list ascii))
  : list ascii :=
  match parts with
  | [] => []
  | p :: ps => p ++ concat (map (fun q => sep ++ q) ps)
  end.

(** [String(v)]. *)
Fixpoint js_String_chars (v : value) : list ascii :=
  match v with
  | VUndef => list_ascii_of_string "undefined"
  | VNull => list_ascii_of_string "null"
  | VBool true => list_ascii_of_string "true"
  | VBool false => list_ascii_of_string "false"
  | VNum n => Z_digits n
  | VStr s => list_ascii_of_string s
  | VArr items =>
      join_with [","%char]
        (map (fun x => match x with
                       | VUndef | VNull => []
                       | _ => js_String_chars x
                       end) items)
  | VObj _ => list_ascii_of_string "[object Object]"
  end.

Definition js_String (v : value) : string :=
  string_of_list_ascii (js_String_chars v).

(** [String.prototype.trim] drops white space and line terminators at both
    ends; within U+0000..U+00FF these are TAB, LF, VT, FF, CR, SP and NBSP. *)
Definition is_js_space (c : ascii) : bool :=
  let n := nat_of_ascii c in
  existsb (Nat.eqb n) [9; 10; 11; 12; 13; 32; 160]%nat.

Fixpoint trim_start (cs : list ascii) : list ascii :=
  match cs with
  | c :: r => if is_js_space c then trim_start r else cs
  | [] => []
  end.

Definition trim (s : string) : string :=
  string_of_list_ascii
    (rev (trim_start (rev (trim_start (list_ascii_of_string s))))).

(** [Array.prototype.slice(start, end)] with integer arguments: negative
    indices count from the end, both are clamped to the length. *)
Definition rel_index (len i : Z) : Z :=
  if (i <? 0)%Z then Z.max (len + i) 0 else Z.min i len.

Definition js_slice {A} (l : list A) (start stop : Z) : list A :=
  let len := Z.of_nat (length l) in
  let k := rel_index len start in
  let e := rel_index len stop in
  firstn (Z.to_nat (e - k)) (skipn (Z.to_nat k) l).

(** ** JSON text

    [JSON.stringify(v, null, gap)] and [JSON.parse] on the values above.
    [gap = 0] is the compact form.  The number grammar is restricted to
    integers and [\uXXXX] escapes to code units below 256, in line with the
    conventions on values. *)
Module JSON.

Definition hex_char (d : nat) : ascii :=
  if d <? 10 then ascii_of_nat (48 + d) else ascii_of_nat (87 + d).

Definition quote_char (c : ascii) : list ascii :=
  let n := nat_of_ascii c in
  if n =? 34 then ["\"; "034"]%char
  else if n =? 92 then ["\"; "\"]%char
  else if n =? 8 then ["\"; "b"]%char
  else if n =? 9 then ["\"; "t"]%char
  else if n =? 10 then ["\"; "n"]%char
  else if n =? 12 then ["\"; "f"]%char
  else if n =? 13 then ["\"; "r"]%char
  else if n <? 32 then
    ["\"; "u"; "0"; "0"; hex_char (n / 16); hex_char (n mod 16)]%char
  else [c].

Definition quote (s : string) : list ascii :=
  "034"%char :: flat_map quote_char (list_ascii_of_string s) ++ ["034"%char].

(** Line break and indentation between items; nothing when compact. *)
Definition nl (gap ind : nat) : list ascii :=
  if gap =? 0 then [] else "010"%char :: repeat " "%char ind.

Definition bracket (gap ind : nat) (l r : ascii) (parts : list (list ascii))
  : list ascii :=
  match parts with
  | [] => [l; r]
  | _ =>
      l :: nl gap (ind + gap)
        ++ join_with (","%char :: nl gap (ind + gap)) parts
        ++ nl gap ind ++ [r]
  end.

Definition member (gap : nat) (k : string) (v : list ascii) : list ascii :=
  quote k ++ ":"%char :: (if gap =? 0 then v else " "%char :: v).

Fixpoint keep_some {A} (l : list (option A)) : list A :=
  match l with
  | [] => []
  | Some a :: r => a :: keep_some r
  | None :: r => keep_some r
  end.

(** SerializeJSONProperty: [None] is [undefined] (the property is left
    out of an object and written [null] in an array). *)
Fixpoint serialize (gap ind : nat) (v : value) : option (list ascii) :=
  match v with
  | VUndef => None
  | VNull => Some (list_ascii_of_string "null")
  | VBool true => Some (list_ascii_of_string "true")
  | VBool false => Some (list_ascii_of_string "false")
  | VNum n => Some (Z_digits n)
  | VStr s => Some (quote s)
  | VArr items =>
      Some (bracket gap ind "["%char "]"%char
              (map (fun x =>
                      match serialize gap (ind + gap) x with
                      | Some t => t
                      | None => list_ascii_of_string "null"
                      end) items))
  | VObj fields =>
      Some (bracket gap ind "{"%char "}"%char
              (keep_some
                 (map (fun kv =>
                         match serialize gap (ind + gap) (snd kv) with
                         | Some t => Some (member gap (fst kv) t)
                         | None => None
                         end) fields)))
  end.

(** [JSON.stringify(v, null, gap)].  Every call site passes an array, for
    which a string is always produced. *)
Definition stringify (gap : nat) (v : value) : string :=
  match serialize gap 0 v with
  | Some t => string_of_list_ascii t
  | None => "undefined"
  end.

(** *** Parsing *)

Definition is_ws (c : ascii) : bool :=
  existsb (Nat.eqb (nat_of_ascii c)) [32; 9; 10; 13]%nat.

Fixpoint skip_ws (cs : list ascii) : list ascii :=
  match cs with
  | c :: r => if is_ws c then skip_ws r else cs
  | [] => []
  end.

Definition hex_val (c : ascii) : option nat :=
  let n := nat_of_ascii c in
  if (48 <=? n) && (n <=? 57) then Some (n - 48)
  else if (97 <=? n) && (n <=? 102) then Some (n - 87)
  else if (65 <=? n) && (n <=? 70) then Some (n - 55)
  else None.

Definition unescape (c : ascii) : option ascii :=
  let n := nat_of_ascii c in
  if n =? 34 then Some "034"%char
  else if n =? 92 then Some "\"%char
  else if n =? 47 then Some "/"%char
  else if n =? 98 then Some "008"%char
  else if n =? 116 then Some "009"%char
  else if n =? 110 then Some "010"%char
  else if n =? 102 then Some "012"%char
  else if n =? 114 then Some "013"%char
  else None.

Definition cons_fst {A B} (a : A) (r : option (list A * B))
  : option (list A * B) :=
  match r with
  | Some (l, b) => Some (a :: l, b)
  | None => None
  end.

(** The characters of a string literal after its opening quote. *)
Fixpoint parse_chars (cs : list ascii) : option (list ascii * list ascii) :=
  match cs with
  | [] => None
  | c :: r =>
      if nat_of_ascii c =? 34 then Some ([], r)
      else if nat_of_ascii c =? 92 then
        match r with
        | [] => None
        | e :: r1 =>
            match unescape e with
            | Some ch => cons_fst ch (parse_chars r1)
            | None =>
                if nat_of_ascii e =? 117 then
                  match r1 with
                  | h1 :: h2 :: h3 :: h4 :: r2 =>
                      match hex_val h1, hex_val h2, hex_val h3, hex_val h4
                      with
                      | Some 0, Some 0, Some a, Some b =>
                          cons_fst (ascii_of_nat (16 * a + b))
                                   (parse_chars r2)
                      | _, _, _, _ => None
                      end
                  | _ => None
                  end
                else None
            end
        end
      else if nat_of_ascii c <? 32 then None
      else cons_fst c (parse_chars r)
  end.

Definition is_digit (c : ascii) : bool :=
  (48 <=? nat_of_ascii c) && (nat_of_ascii c <=? 57).

Fixpoint parse_digits (acc : N) (cs : list ascii) : N * list ascii :=
  match cs with
  | c :: r =>
      if is_digit c
      then parse_digits (10 * acc + N.of_nat (nat_of_ascii c - 48)) r
      else (acc, cs)
  | [] => (acc, [])
  end.

(** An integer literal: no leading zero, no fraction, no exponent. *)
Definition parse_int (cs : list ascii) : option (N * list ascii) :=
  match cs with
  | c :: r =>
      if is_digit c then
        let '(n, r') := parse_digits 0 cs in
        let junk :=
          match r' with
          | d :: _ => existsb (Nat.eqb (nat_of_ascii d)) [46; 101; 69]%nat
          | [] => false
          end in
        let lead0 :=
          (nat_of_ascii c =? 48) &&
          match r with d :: _ => is_digit d | [] => false end in
        if junk || lead0 then None else Some (n, r')
      else None
  | [] => None
  end.

Fixpoint strip_prefix (p cs : list ascii) : option (list ascii) :=
  match p, cs with
  | [], _ => Some cs
  | a :: p', c :: r => if Ascii.eqb a c then strip_prefix p' r else None
  | _ :: _, [] => None
  end.

Section Items.
Variable parse_item : list ascii -> option (value * list ascii).

(** Array elements after the first, up to the closing bracket. *)
Fixpoint parse_elements (n : nat) (cs : list ascii)
  : option (list value * list ascii) :=
  match n with
  | O => None
  | S n' =>
      match parse_item cs with
      | Some (v, r) =>
          match skip_ws r with
          | c :: r' =>
              if nat_of_ascii c =? 44 then cons_fst v (parse_elements n' r')
              else if nat_of_ascii c =? 93 then Some ([v], r')
              else None
          | [] => None
          end
      | None => None
      end
  end.

(** Object members, up to the closing brace. *)
Fixpoint parse_members (n : nat) (cs : list ascii)
  : option (list (string * value) * list ascii) :=
  match n with
  | O => None
  | S n' =>
      match skip_ws cs with
      | q :: r0 =>
          if nat_of_ascii q =? 34 then
            match parse_chars r0 with
            | Some (k, r1) =>
                match skip_ws r1 with
                | c :: r2 =>
                    if nat_of_ascii c =? 58 then
                      match parse_item r2 with
                      | Some (v, r3) =>
                          let kv := (string_of_list_ascii k, v) in
                          match skip_ws r3 with
                          | d :: r4 =>
                              if nat_of_ascii d =? 44
                              then cons_fst kv (parse_members n' r4)
                              else if nat_of_ascii d =? 125
                              then Some ([kv], r4)
                              else None
                          | [] => None
                          end
                      | None => None
                      end
                    else None
                | [] => None
                end
            | None => None
            end
          else None
      | [] => None
      end
  end.
End Items.

(** Later duplicates of a key overwrite the value in place. *)
Definition make_object (kvs : list (string * value)) : obj :=
  fold_left (fun o kv => set_key (fst kv) (snd kv) o) kvs [].

Fixpoint parse_value (fuel : nat) (cs : list ascii)
  : option (value * list ascii) :=
  match fuel with
  | O => None
  | S fuel' =>
      match skip_ws cs with
      | [] => None
      | c :: r =>
          let n := nat_of_ascii c in
          if n =? 34 then
            match parse_chars r with
            | Some (s, r') => Some (VStr (string_of_list_ascii s), r')
            | None => None
            end
          else if n =? 91 then
            match skip_ws r with
            | d :: r' =>
                if nat_of_ascii d =? 93 then Some (VArr [], r')
                else
                  match parse_elements (parse_value fuel') (length r) r with
                  | Some (vs, r'') => Some (VArr vs, r'')
                  | None => None
                  end
            | [] => None
            end
          else if n =? 123 then
            match skip_ws r with
            | d :: r' =>
                if nat_of_ascii d =? 125 then Some (VObj [], r')
                else
                  match parse_members (parse_value fuel') (length r) r with
                  | Some (kvs, r'') => Some (VObj (make_object kvs), r'')
                  | None => None
                  end
            | [] => None
            end
          else if n =? 45 then
            match parse_int r with
            | Some (m, r') => Some (VNum (- Z.of_N m), r')
            | None => None
            end
          else if is_digit c then
            match parse_int (c :: r) with
            | Some (m, r') => Some (VNum (Z.of_N m), r')
            | None => None
            end
          else
            match strip_prefix (list_ascii_of_string "null") (c :: r) with
            | Some r' => Some (VNull, r')
            | None =>
            match strip_prefix (list_ascii_of_string "true") (c :: r) with
            | Some r' => Some (VBool true, r')
            | None =>
            match strip_prefix (list_ascii_of_string "false") (c :: r) with
            | Some r' => Some (VBool false, r')
            | None => None
            end end end
      end
  end.

(** [JSON.parse(text)]; [None] is a SyntaxError. *)
Definition parse (text : string) : option value :=
  let cs := list_ascii_of_string text in
  match parse_value (S (length cs)) cs with
  | Some (v, r) =>
      match skip_ws r with
      | [] => Some v
      | _ :: _ => None
      end
  | None => None
  end.

End JSON.

(** ** Stable sorting by a string key

    [Array.prototype.sort] is stable, and so is the engine's [ORDER BY] over
    the insertion order of the rows; both compare the ISO-8601 stamps that
    [toISOString] produces, on which [localeCompare] and the BINARY collation
    agree with the code-unit order [String.compare]. *)
Section StableSort.
Context {A : Type}.
Variable key : A -> string.

(** [x] goes after every element whose key is not greater. *)
Fixpoint insert_last (x : A) (l : list A) : list A :=
  match l with
  | [] => [x]
  | y :: r =>
      if String.ltb (key x) (key y) then x :: y :: r
      else y :: insert_last x r
  end.

Definition sort_by (l : list A) : list A :=
  fold_left (fun acc x => insert_last x acc) l [].

Definition key_le (x y : A) : Prop := String.leb (key x) (key y) = true.
End StableSort.

(** ** Errors, results, the operation monad *)

Inductive error : Type :=
| Error (message : string)       (* [new Error(message)] thrown by the code *)
| TypeError (message : string)   (* thrown by the runtime *)
| SystemError (code : string).   (* a rejected medium call, [err.code] *)

Inductive result (A : Type) : Type :=
| Ok (a : A)
| Throw (e : error).
Arguments Ok {A} a.
Arguments Throw {A} e.

Definition is_ok {A} (r : result A) : bool :=
  match r with Ok _ => true | Throw _ => false end.

(** A computation runs on a state and leaves a state behind, also when it
    throws. *)
Definition M (S A : Type) : Type := S -> result A * S.

Definition ret {S A} (a : A) : M S A := fun s => (Ok a, s).
Definition throw {S A} (e : error) : M S A := fun s => (Throw e, s).
Definition bind {S A B} (m : M S A) (k : A -> M S B) : M S B :=
  fun s =>
    match m s with
    | (Ok a, s') => k a s'
    | (Throw e, s') => (Throw e, s')
    end.
(** [try { m } catch (err) { h err }]. *)
Definition try_catch {S A} (m : M S A) (h : error -> M S A) : M S A :=
  fun s =>
    match m s with
    | (Ok a, s') => (Ok a, s')
    | (Throw e, s') => h e s'
    end.
Definition gets {S A} (f : S -> A) : M S A := fun s => (Ok (f s), s).
Definition modify {S} (f : S -> S) : M S unit := fun s => (Ok tt, f s).
Definition lift {S A} (r : result A) : M S A := fun s => (r, s).

Notation "x <- m ;; k" := (bind m (fun x => k))
  (at level 100, m at next level, right associativity).
Notation "m ;; k" := (bind m (fun _ => k))
  (at level 100, right associativity).

(** ** The world outside the process *)

(** A path is a directory and a base name ([path.dirname], [path.basename],
    [path.join]). *)
Definition path : Type := string * string.
Definition dirname (p : path) : string := fst p.
Definition basename (p : path) : string := snd p.
Definition path_join (dir name : string) : path := (dir, name).

(** A row of the [todos] table. *)
Record row : Type := {
  r_id : string;
  r_title : string;
  r_description : string;
  r_done : Z;
  r_created_at : string;
  r_updated_at : string;
}.

Record World : Type := {
  files : gmap path string;        (* regular files and their utf8 text *)
  dirs : gset string;              (* the directories made so far *)
  databases : gmap path (list row);(* database files: the rows of [todos] *)
  io : nat;                        (* [fs] calls issued so far *)
  ticks : nat;                     (* clock readings taken so far *)
  ids : nat;                       (* identifiers drawn so far *)
}.

(** What the environment decides: the clock, the random identifiers, the
    random part of temporary names, and which call into the medium is
    rejected. *)
Record Env : Type := {
  clock : nat -> string;           (* [new Date().toISOString()] *)
  uuid : nat -> string;            (* [crypto.randomUUID()] *)
  tmp_tag : nat -> string;         (* [Date.now()-random] of a temp name *)
  fault : nat -> option string;    (* the error code of a rejected call *)
}.

Definition set_files (f : gmap path string) (w : World) : World :=
  {| files := f; dirs := dirs w; databases := databases w; io := io w;
     ticks := ticks w; ids := ids w |}.
Definition set_dirs (d : gset string) (w : World) : World :=
  {| files := files w; dirs := d; databases := databases w; io := io w;
     ticks := ticks w; ids := ids w |}.
Definition set_databases (d : gmap path (list row)) (w : World) : World :=
  {| files := files w; dirs := dirs w; databases := d; io := io w;
     ticks := ticks w; ids := ids w |}.
Definition next_io (w : World) : World :=
  {| files := files w; dirs := dirs w; databases := databases w;
     io := S (io w); ticks := ticks w; ids := ids w |}.
Definition next_tick (w : World) : World :=
  {| files := files w; dirs := dirs w; databases := databases w; io := io w;
     ticks := S (ticks w); ids := ids w |}.
Definition next_id (w : World) : World :=
  {| files := files w; dirs := dirs w; databases := databases w; io := io w;
     ticks := ticks w; ids := S (ids w) |}.

(** A medium either keeps track of its directories, so that a file cannot
    be created in a directory that was never made, or it is prepared: every
    directory that the program names is there already.  The properties are
    about a prepared medium unless they name the medium. *)
Class Medium : Type := { tracks_dirs : bool }.

#[global] Instance prepared : Medium := {| tracks_dirs := false |}.


Definition has_dir {medium : Medium} (w : World) (dir : string) : bool :=
  if tracks_dirs then bool_decide (dir ∈ dirs w) else true.

Definition make_dir {medium : Medium} (dir : string) (w : World) : World :=
  if tracks_dirs then set_dirs ({[ dir ]} ∪ dirs w) w else w.

Section Runtime.
Variable env : Env.
Context {medium : Medium}.
Context {I : Type}.               (* the state of the backend instance *)

Definition self : M (I * World) I := gets fst.
Definition update (f : I -> I) : M (I * World) unit :=
  modify (fun s => (f (fst s), snd s)).

(** [new Date().toISOString()]. *)
Definition now : M (I * World) string :=
  fun s => (Ok (clock env (ticks (snd s))), (fst s, next_tick (snd s))).

Definition generateUuid : M (I * World) string :=
  fun s => (Ok (uuid env (ids (snd s))), (fst s, next_id (snd s))).

(** One call into the medium ([fs/promises] or the database engine): it is
    rejected when the environment says so, and then has no effect. *)
Definition fs_call {A} (f : World -> result A * World) : M (I * World) A :=
  fun s =>
    let w := next_io (snd s) in
    match fault env (io (snd s)) with
    | Some code => (Throw (SystemError code), (fst s, w))
    | None => let (r, w') := f w in (r, (fst s, w'))
    end.

(** [fs.mkdir(dir, { recursive: true })]: a directory that is there
    already is not an error. *)
Definition fs_mkdir (dir : string) : M (I * World) unit :=
  fs_call (fun w => (Ok tt, make_dir dir w)).

Definition fs_readFile (p : path) : M (I * World) string :=
  fs_call (fun w =>
    match files w !! p with
    | Some text => (Ok text, w)
    | None => (Throw (SystemError "ENOENT"), w)
    end).

Definition fs_writeFile (p : path) (text : string) : M (I * World) unit :=
  fs_call (fun w =>
    if has_dir w (dirname p)
    then (Ok tt, set_files (<[p := text]> (files w)) w)
    else (Throw (SystemError "ENOENT"), w)).

Definition fs_rename (from to : path) : M (I * World) unit :=
  fs_call (fun w =>
    match files w !! from with
    | Some text =>
        if has_dir w (dirname to)
        then (Ok tt, set_files (<[to := text]> (delete from (files w))) w)
        else (Throw (SystemError "ENOENT"), w)
    | None => (Throw (SystemError "ENOENT"), w)
    end).

(** [fs.rm(p, { force: true })]: a missing file is not an error. *)
Definition fs_rm (p : path) : M (I * World) unit :=
  fs_call (fun w => (Ok tt, set_files (delete p (files w)) w)).

(** The name of a temporary file:
    [<basename>.tmp-<Date.now()>-<random hex>]. *)
Definition tmp_name (base : string) : M (I * World) string :=
  gets (fun s => base +:+ ".tmp-" +:+ tmp_tag env (io (snd s))).
End Runtime.

(** [{ ...v }] of a stored record.  The stored values are objects; the
    spread of a primitive has no property of its own. *)
Definition spread (v : value) : obj :=
  match v with
  | VObj o => o
  | _ => []
  end.

(** [{ ...o, k1: v1, ..., kn: vn }]. *)
Definition assign (o : obj) (kvs : list (string * value)) : obj :=
  fold_left (fun o kv => set_key (fst kv) (snd kv) o) kvs o.

Definition createdAt (v : value) : string :=
  match get_prop v "createdAt" with
  | VStr s => s
  | _ => ""
  end.

Definition has_createdAt (v : value) : bool :=
  match get_prop v "createdAt" with
  | VStr _ => true
  | _ => false
  end.

(** [items.sort((a, b) => a.createdAt.localeCompare(b.createdAt))].  The
    comparator is only called on two or more items.  It throws when the
    [createdAt] of its first argument is not a string; which items an
    engine passes first is not fixed, so the model rejects every array that
    holds such an item, and the properties of the order are stated of
    arrays that hold none. *)
Definition sort_by_createdAt (items : list value) : result (list value) :=
  if length items <=? 1 then Ok items
  else if forallb has_createdAt items then Ok (sort_by createdAt items)
  else Throw (TypeError "a.createdAt.localeCompare is not a function").

(** The options of [getAllTodos({ limit = null, offset = 0 } = {})]. *)
Record ListOptions : Type := {
  limit : option Z;
  offset : option Z;
}.
Definition no_options : ListOptions := {| limit := None; offset := None |}.
Definition offset_or_0 (opts : ListOptions) : Z :=
  match offset opts with Some o => o | None => 0%Z end.

Definition title_required : error :=
  Error "title is required and must be a non-empty string".

(** [!todoData || typeof todoData.title !== "string" ||
     todoData.title.trim() === ""]. *)
Definition title_missing (todoData : value) : bool :=
  negb (truthy todoData)
  || match get_prop todoData "title" with
     | VStr title => String.eqb (trim title) ""
     | _ => true
     end.

(** The record literal built by [addTodo] in both backends. *)
Definition new_todo (id now : string) (todoData : value) : obj :=
  [ ("id", VStr id);
    ("title", get_prop todoData "title");
    ("description",
      match get_prop todoData "description" with
      | VStr d => VStr d
      | _ => VStr ""
      end);
    ("done", VBool (truthy (get_prop todoData "done")));
    ("createdAt", VStr now);
    ("updatedAt", VStr now) ].

(** The record literal built by [updateTodo] in both backends:
    [{ ...existing, title, description, done, updatedAt: now }]. *)
Definition merge_patch (existing patch : value) (now : string) : obj :=
  assign (spread existing)
    [ ("title",
        match get_prop patch "title" with
        | VStr t => VStr t
        | _ => get_prop existing "title"
        end);
      ("description",
        match get_prop patch "description" with
        | VUndef => get_prop existing "description"
        | d => VStr (js_String d)
        end);
      ("done",
        match get_prop patch "done" with
        | VBool b => VBool b
        | _ => get_prop existing "done"
        end);
      ("updatedAt", VStr now) ].

(** [patch = {}] as a default parameter: only [undefined] is replaced. *)
Definition patch_or_empty (patch : value) : value :=
  match patch with
  | VUndef => VObj []
  | _ => patch
  end.

Definition null_patch : error :=
  TypeError "Cannot read properties of null (reading 'title')".

(** ** The File Backend: [class FileStorage] *)
Module FileStorage.

Record t : Type := {
  filepath : path;
  pretty : bool;
  mode : string;
  _map : list (string * value);
  _inited : bool;
  _dirty : bool;
}.

Record Options : Type := {
  opt_filepath : option path;
  opt_pretty : option value;
  opt_mode : option string;
}.

Definition set_map (m : list (string * value)) (me : t) : t :=
  {| filepath := filepath me; pretty := pretty me; mode := mode me;
     _map := m; _inited := _inited me; _dirty := _dirty me |}.
Definition set_inited (b : bool) (me : t) : t :=
  {| filepath := filepath me; pretty := pretty me; mode := mode me;
     _map := _map me; _inited := b; _dirty := _dirty me |}.
Definition set_dirty (b : bool) (me : t) : t :=
  {| filepath := filepath me; pretty := pretty me; mode := mode me;
     _map := _map me; _inited := _inited me; _dirty := b |}.

(** [constructor(options = {})]. *)
Definition new (options : Options) : result t :=
  let filepath :=
    match opt_filepath options with
    | Some p => p
    | None => path_join "db" "todo.json"
    end in
  let pretty :=
    match opt_pretty options with Some v => v | None => VBool true end in
  let mode :=
    match opt_mode options with Some m => m | None => "onClose" end in
  if negb (existsb (String.eqb mode) ["onClose"; "immediate"])
  then Throw (Error "mode must be 'onClose' or 'immediate'")
  else Ok {| filepath := filepath; pretty := truthy pretty; mode := mode;
             _map := []; _inited := false; _dirty := false |}.

(** The loop of [init] over the parsed array. *)
Definition load (parsed : list value) : list (string * value) :=
  fold_left
    (fun map item =>
       match get_prop item "id" with
       | VStr id => if truthy item then set_key id item map else map
       | _ => map
       end)
    parsed [].

Definition _clone (todo : value) : value := VObj (spread todo).

Section Methods.
Variable env : Env.
Context {medium : Medium}.

Definition start_empty : M (t * World) unit :=
  update (set_map []);;
  update (set_dirty true).

Definition init : M (t * World) unit :=
  me <- self;;
  if _inited me then ret tt else
  update (set_inited true);;
  fs_mkdir env (dirname (filepath me));;
  content <-
    try_catch
      (text <- fs_readFile env (filepath me);; ret (Some text))
      (fun err =>
         match err with
         | SystemError code =>
             if String.eqb code "ENOENT"
             then start_empty;; ret None
             else throw err
         | _ => throw err
         end);;
  match content with
  | None => ret tt
  | Some content =>
      if String.eqb content "" || (String.length (trim content) =? 0)
      then start_empty
      else
        match JSON.parse content with
        | Some (VArr parsed) =>
            update (set_map (load parsed));;
            update (set_dirty false)
        | Some _ => start_empty
        | None => start_empty
        end
  end.

Definition _writeToDisk : M (t * World) unit :=
  me <- self;;
  let dir := dirname (filepath me) in
  tmpName <- tmp_name env (basename (filepath me));;
  let tmpPath := path_join dir tmpName in
  arr <- lift (sort_by_createdAt (values (_map me)));;
  let json :=
    if pretty me
    then JSON.stringify 2 (VArr arr) +:+ String "010"%char ""
    else JSON.stringify 0 (VArr arr) in
  try_catch
    (fs_writeFile env tmpPath json;;
     fs_rename env tmpPath (filepath me);;
     update (set_dirty false))
    (fun err =>
       try_catch (fs_rm env tmpPath) (fun _ => ret tt);;
       throw err).

Definition close : M (t * World) unit :=
  me <- self;;
  if negb (_inited me) then ret tt else
  (if String.eqb (mode me) "onClose" && _dirty me
   then _writeToDisk else ret tt);;
  update (set_inited false).


(** [if (!this._map)] never holds: the constructor and [init] always
    leave a [Map]. *)
Definition _ensureInit : M (t * World) unit :=
  me <- self;;
  if negb (_inited me)
  then update (set_inited true);; update (set_dirty true)
  else ret tt.

Definition write_if_immediate : M (t * World) unit :=
  me <- self;;
  if String.eqb (mode me) "immediate" then _writeToDisk else ret tt.

Definition addTodo (todoData : value) : M (t * World) value :=
  _ensureInit;;
  if title_missing todoData then throw title_required else
  now <- now env;;
  id <- generateUuid env;;
  let todo := VObj (new_todo id now todoData) in
  update (fun me => set_map (set_key id todo (_map me)) me);;
  update (set_dirty true);;
  write_if_immediate;;
  ret (_clone todo).

Definition getAllTodos (opts : ListOptions) : M (t * World) (list value) :=
  _ensureInit;;
  me <- self;;
  items <- lift (sort_by_createdAt (values (_map me)));;
  match limit opts with
  | None => ret (map _clone items)
  | Some limit =>
      let offset := offset_or_0 opts in
      ret (map _clone (js_slice items offset (offset + limit)))
  end.

Definition getTodoById (id : string) : M (t * World) value :=
  _ensureInit;;
  me <- self;;
  match lookup_key id (_map me) with
  | None => ret VNull
  | Some todo => ret (_clone todo)
  end.

Definition updateTodo (id : string) (patch : value)
  : M (t * World) value :=
  let patch := patch_or_empty patch in
  _ensureInit;;
  me <- self;;
  match lookup_key id (_map me) with
  | None => ret VNull
  | Some existing =>
      now <- now env;;
      match patch with
      | VNull => throw null_patch
      | _ =>
          let updated := VObj (merge_patch existing patch now) in
          update (fun me => set_map (set_key id updated (_map me)) me);;
          update (set_dirty true);;
          write_if_immediate;;
          ret (_clone updated)
      end
  end.

Definition deleteTodo (id : string) : M (t * World) bool :=
  _ensureInit;;
  me <- self;;
  if negb (has_key id (_map me)) then ret false else
  update (fun me => set_map (delete_key id (_map me)) me);;
  update (set_dirty true);;
  write_if_immediate;;
  ret true.
End Methods.
End FileStorage.

(** ** The SQL statements, as the engine executes them

    The table is the list of its rows in rowid order, which is the order of
    insertion; [id] is the primary key.  The table is the one that the
    embedded script declares: the statements below are what the engine does
    on that table, with no trigger and no other constraint. *)
Module Sql.

Definition LF : string := String "010"%char "".

(** The script that [init] runs when it finds none at [schemaPath]. *)
Definition embedded_schema : string :=
  LF +:+
  "PRAGMA foreign_keys = ON;" +:+ LF +:+
  "CREATE TABLE IF NOT EXISTS schema_migrations (" +:+ LF +:+
  "  id INTEGER PRIMARY KEY AUTOINCREMENT," +:+ LF +:+
  "  name TEXT NOT NULL UNIQUE," +:+ LF +:+
  "  run_at TEXT NOT NULL DEFAULT (datetime('now'))" +:+ LF +:+
  ");" +:+ LF +:+
  LF +:+
  "CREATE TABLE IF NOT EXISTS todos (" +:+ LF +:+
  "  id TEXT PRIMARY KEY," +:+ LF +:+
  "  title TEXT NOT NULL," +:+ LF +:+
  "  description TEXT DEFAULT ''," +:+ LF +:+
  "  done INTEGER NOT NULL DEFAULT 0 CHECK (done IN (0,1))," +:+ LF +:+
  "  created_at TEXT NOT NULL DEFAULT (datetime('now'))," +:+ LF +:+
  "  updated_at TEXT NOT NULL DEFAULT (datetime('now'))" +:+ LF +:+
  ");" +:+ LF +:+
  LF +:+
  "CREATE INDEX IF NOT EXISTS idx_todos_created_at ON todos (created_at);"
  +:+ LF +:+
  "CREATE INDEX IF NOT EXISTS idx_todos_done ON todos (done);" +:+ LF +:+
  "      ".

Definition constraint : error := SystemError "SQLITE_CONSTRAINT".

(** [INSERT INTO todos (...) VALUES (?, ?, ?, ?, ?, ?)]. *)
Definition insert (r : row) (tbl : list row) : result (list row) :=
  if existsb (fun x => String.eqb (r_id x) (r_id r)) tbl
  then Throw constraint
  else Ok (tbl ++ [r]).

(** The integers that the engine stores: 64 bits, signed. *)
Definition int64 (n : Z) : bool := (- 2 ^ 63 <=? n)%Z && (n <? 2 ^ 63)%Z.

Definition mismatch : error := SystemError "SQLITE_MISMATCH".

(** [LIMIT ? OFFSET ?].  A number outside the 64-bit integers is bound as a
    REAL, which the engine does not take for a bound: the statement fails
    with a datatype mismatch.  Otherwise a negative limit is no limit and a
    negative offset is zero. *)
Definition limit_offset (limit offset : Z) (rows : list row)
  : result (list row) :=
  if int64 limit && int64 offset then
    let rest := skipn (Z.to_nat (Z.max 0 offset)) rows in
    Ok (if (limit <? 0)%Z then rest else firstn (Z.to_nat limit) rest)
  else Throw mismatch.

(** [SELECT ... FROM todos ORDER BY created_at ASC]. *)
Definition select_all (tbl : list row) : list row :=
  sort_by r_created_at tbl.

(** [SELECT ... FROM todos WHERE id = ?]. *)
Definition select_by_id (id : string) (tbl : list row) : option row :=
  find (fun x => String.eqb (r_id x) id) tbl.

(** [UPDATE todos SET title = ?, description = ?, done = ?,
    updated_at = ? WHERE id = ?]. *)
Definition update (title description : string) (done : Z)
    (updated_at id : string) (tbl : list row) : list row :=
  map (fun x =>
         if String.eqb (r_id x) id
         then {| r_id := r_id x; r_title := title;
                 r_description := description; r_done := done;
                 r_created_at := r_created_at x;
                 r_updated_at := updated_at |}
         else x) tbl.

(** [DELETE FROM todos WHERE id = ?], with the number of rows removed. *)
Definition delete (id : string) (tbl : list row) : list row * nat :=
  let kept := List.filter (fun x => negb (String.eqb (r_id x) id)) tbl in
  (kept, length tbl - length kept).

(** A JavaScript value bound to a TEXT parameter; only strings are ever
    bound by this program. *)
Definition text (v : value) : string :=
  match v with
  | VStr s => s
  | _ => js_String v
  end.
End Sql.

(** ** The Relational Backend: [class SqliteFileStorage] *)
Module SqliteFileStorage.

Record t : Type := {
  filepath : path;
  schemaPath : path;
  busyTimeout : Z;
  db : bool;                     (* [this.db] holds a connection *)
  _inited : bool;
}.

Record Options : Type := {
  opt_filepath : option path;
  opt_schemaPath : option path;
  opt_busyTimeout : option Z;
}.

Definition set_db (b : bool) (me : t) : t :=
  {| filepath := filepath me; schemaPath := schemaPath me;
     busyTimeout := busyTimeout me; db := b; _inited := _inited me |}.
Definition set_inited (b : bool) (me : t) : t :=
  {| filepath := filepath me; schemaPath := schemaPath me;
     busyTimeout := busyTimeout me; db := db me; _inited := b |}.

(** [constructor(options = {})]; [cwd] is [process.cwd()]. *)
Definition new (cwd : string) (options : Options) : t :=
  {| filepath :=
       match opt_filepath options with
       | Some p => p
       | None => path_join "db" "todo.db"
       end;
     schemaPath :=
       match opt_schemaPath options with
       | Some p => p
       | None => path_join (cwd +:+ "/db") "schema.sql"
       end;
     busyTimeout :=
       match opt_busyTimeout options with
       | Some n => if (n =? 0)%Z then 5000%Z else n
       | None => 5000%Z
       end;
     db := false;
     _inited := false |}.

Definition not_initialized : error :=
  Error "SqliteFileStorage not initialized. Call init() first.".

Definition _rowToTodo (r : row) : value :=
  VObj [ ("id", VStr (r_id r));
         ("title", VStr (r_title r));
         ("description", js_or (VStr (r_description r)) (VStr ""));
         ("done", VBool ((r_done r =? 1)%Z));
         ("createdAt", VStr (r_created_at r));
         ("updatedAt", VStr (r_updated_at r)) ].

(** The rows of [todos] in the database file of this instance. *)
Definition rows (me : t) (w : World) : list row :=
  match databases w !! filepath me with
  | Some rows => rows
  | None => []
  end.

(** The parameters bound by [addTodo]:
    [[todo.id, todo.title, todo.description, todo.done ? 1 : 0,
      todo.createdAt, todo.updatedAt]]. *)
Definition insert_params (todo : obj) : row :=
  {| r_id := Sql.text (prop todo "id");
     r_title := Sql.text (prop todo "title");
     r_description := Sql.text (prop todo "description");
     r_done := if truthy (prop todo "done") then 1%Z else 0%Z;
     r_created_at := Sql.text (prop todo "createdAt");
     r_updated_at := Sql.text (prop todo "updatedAt") |}.

Section Methods.
Variable env : Env.

Definition table : M (t * World) (list row) :=
  gets (fun s => rows (fst s) (snd s)).

Definition store (rows : list row) : M (t * World) unit :=
  modify (fun s =>
            (fst s,
             set_databases
               (<[filepath (fst s) := rows]> (databases (snd s)))
               (snd s))).

(** [new sqlite3.Database(filepath)] creates the file when missing and
    keeps the rows of one that is there; the connection is kept when it
    could be opened. *)
Definition open : M (t * World) unit :=
  me <- self;;
  fs_call env (fun w =>
    (Ok tt,
     set_databases (<[filepath me := rows me w]> (databases w)) w));;
  update (set_db true).

(** [this._exec(sql)] of a pragma or of a bootstrap script: the engine may
    reject it; the pragmas and the [CREATE ... IF NOT EXISTS] statements
    of the embedded script keep the rows.  What a script found at
    [schemaPath] declares beyond that table is outside the model. *)
Definition _exec (sql : string) : M (t * World) unit :=
  fs_call env (fun w => (Ok tt, w)).

Definition init : M (t * World) unit :=
  me <- self;;
  if _inited me then ret tt else
  fs_mkdir env (dirname (filepath me));;
  open;;
  _exec "PRAGMA foreign_keys = ON;";;
  _exec "PRAGMA journal_mode = WAL;";;
  _exec ("PRAGMA busy_timeout = " +:+ js_String (VNum (busyTimeout me))
           +:+ ";");;
  schemaSql <-
    try_catch (fs_readFile env (schemaPath me))
              (fun _ => ret Sql.embedded_schema);;
  _exec schemaSql;;
  update (set_inited true).

Definition close : M (t * World) unit :=
  me <- self;;
  if negb (db me) then ret tt else
  update (set_db false);;
  update (set_inited false).

Definition _ensureInit : M (t * World) unit :=
  me <- self;;
  if negb (_inited me) then throw not_initialized else ret tt.

Definition addTodo (todoData : value) : M (t * World) value :=
  _ensureInit;;
  if title_missing todoData then throw title_required else
  now <- now env;;
  id <- generateUuid env;;
  let todo := new_todo id now todoData in
  rows <- table;;
  rows' <- lift (Sql.insert (insert_params todo) rows);;
  store rows';;
  ret (VObj todo).

Definition getAllTodos (opts : ListOptions) : M (t * World) (list value) :=
  _ensureInit;;
  rows <- table;;
  let sorted := Sql.select_all rows in
  rows <-
    match limit opts with
    | Some limit => lift (Sql.limit_offset limit (offset_or_0 opts) sorted)
    | None => ret sorted
    end;;
  ret (map _rowToTodo rows).

Definition getTodoById (id : string) : M (t * World) value :=
  _ensureInit;;
  rows <- table;;
  match Sql.select_by_id id rows with
  | None => ret VNull
  | Some row => ret (_rowToTodo row)
  end.

Definition updateTodo (id : string) (patch : value)
  : M (t * World) value :=
  let patch := patch_or_empty patch in
  _ensureInit;;
  existing <- getTodoById id;;
  if negb (truthy existing) then ret VNull else
  now <- now env;;
  match patch with
  | VNull => throw null_patch
  | _ =>
      let updated := merge_patch existing patch now in
      rows <- table;;
      store (Sql.update
               (Sql.text (prop updated "title"))
               (Sql.text (prop updated "description"))
               (if truthy (prop updated "done") then 1%Z else 0%Z)
               (Sql.text (prop updated "updatedAt"))
               id rows);;
      ret (VObj updated)
  end.

Definition deleteTodo (id : string) : M (t * World) bool :=
  _ensureInit;;
  rows <- table;;
  let (rows', changes) := Sql.delete id rows in
  store rows';;
  ret (0 <? changes).
End Methods.
End SqliteFileStorage.

(** ** Vocabulary of the properties *)

(** No call into [fs] is rejected. *)
Definition reliable (env : Env) : Prop := forall n, fault env n = None.

(** Every stored record carries a string [createdAt], as the records built
    by [addTodo] do. *)
Definition well_typed (m : list (string * value)) : Prop :=
  forallb has_createdAt (values m) = true.

(** The stamps that [toISOString] gives: [YYYY-MM-DDTHH:mm:ss.sssZ].  Two
    such strings carry the same punctuation at the same places and differ
    first at a digit, so that [localeCompare], whatever the locale, and the
    BINARY collation of the engine order them as their code units do.  On
    other strings the order of [localeCompare] is not the one of the
    model. *)
Fixpoint shaped (pattern s : list ascii) : bool :=
  match pattern, s with
  | [], [] => true
  | p :: ps, c :: cs =>
      (if Ascii.eqb p "0" then JSON.is_digit c else Ascii.eqb p c)
      && shaped ps cs
  | _, _ => false
  end.

Definition is_iso (s : string) : bool :=
  shaped (list_ascii_of_string "0000-00-00T00:00:00.000Z")
         (list_ascii_of_string s).

Definition has_iso_stamp (v : value) : bool :=
  match get_prop v "createdAt" with
  | VStr s => is_iso s
  | _ => false
  end.

(** Every stored record carries a [createdAt] of that shape, as the
    records built by [addTodo] do. *)
Definition iso_stamped (m : list (string * value)) : Prop :=
  forallb has_iso_stamp (values m) = true.

(** The temporary path and the text that [_writeToDisk] uses in a world. *)
Definition tmp_path (env : Env) (me : FileStorage.t) (w : World) : path :=
  path_join (dirname (FileStorage.filepath me))
            (basename (FileStorage.filepath me) +:+ ".tmp-"
               +:+ tmp_tag env (io w)).

Definition json_text (pretty : bool) (arr : list value) : string :=
  if pretty
  then JSON.stringify 2 (VArr arr) +:+ String "010"%char ""
  else JSON.stringify 0 (VArr arr).

(** The instance after the lazy-initialisation guard. *)
Definition ensured (me : FileStorage.t) : FileStorage.t :=
  if FileStorage._inited me then me
  else FileStorage.set_dirty true (FileStorage.set_inited true me).

(** The world after a write that went through: the text sits at the
    target, the temporary file is gone, two calls were issued. *)
Definition written (env : Env) (me : FileStorage.t) (w : World) : World :=
  let text :=
    json_text (FileStorage.pretty me)
      (sort_by createdAt (values (FileStorage._map me))) in
  let tmp := tmp_path env me w in
  set_files
    (<[FileStorage.filepath me := text]>
       (delete tmp (<[tmp := text]> (files w))))
    (next_io (next_io w)).

(** The world after the write that a mutation triggers in immediate mode,
    and the instance it leaves. *)
Definition persisted (env : Env) (me : FileStorage.t) (w : World) : World :=
  if String.eqb (FileStorage.mode me) "immediate" then written env me w else w.

Definition settled (me : FileStorage.t) : FileStorage.t :=
  if String.eqb (FileStorage.mode me) "immediate"
  then FileStorage.set_dirty false me else me.

(** The next write to disk is rejected with [code]: either its
    [writeFile] or, after it, its [rename]. *)
Definition write_rejected (env : Env) (w : World) (code : string) : Prop :=
  fault env (io w) = Some code \/
  (fault env (io w) = None /\ fault env (S (io w)) = Some code).

(** In immediate mode the write of a mutation needs a reliable medium and
    a well-typed store; in deferred mode nothing is written. *)
Definition can_persist (env : Env) (me : FileStorage.t) : Prop :=
  FileStorage.mode me = "immediate" ->
  reliable env /\ well_typed (FileStorage._map me).

(** ** A sample run-time environment *)

Fixpoint tally (n : nat) : string :=
  match n with
  | O => ""
  | S n' => String "i"%char (tally n')
  end.

Definition sample_env : Env :=
  {| clock := fun n => "2024-05-01T10:00:0" +:+ js_String (VNum (Z.of_nat n));
     uuid := fun n => "todo-0" +:+ tally n;
     tmp_tag := fun n => "1714557600000-" +:+ js_String (VNum (Z.of_nat n));
     fault := fun _ => None |}.

Definition empty_world : World :=
  {| files := ∅; dirs := ∅; databases := ∅; io := 0; ticks := 0;
     ids := 0 |}.

(** A fresh File Backend in the given mode, on the default path. *)
Definition sample_file (mode : string) : FileStorage.t :=
  {| FileStorage.filepath := path_join "db" "todo.json";
     FileStorage.pretty := true;
     FileStorage.mode := mode;
     FileStorage._map := [];
     FileStorage._inited := false;
     FileStorage._dirty := false |}.

(** A Relational Backend on the default path, fresh or after [init]. *)
Definition sample_sqlite (inited : bool) : SqliteFileStorage.t :=
  {| SqliteFileStorage.filepath := path_join "db" "todo.db";
     SqliteFileStorage.schemaPath := path_join "/app/db" "schema.sql";
     SqliteFileStorage.busyTimeout := 5000%Z;
     SqliteFileStorage.db := inited;
     SqliteFileStorage._inited := inited |}.

(** What an update must keep and what it must refresh: identity and
    creation stamp kept, update stamp set to [now], and each of [title],
    [description], [done] kept when the patch does not carry it. *)
Definition update_frame (existing patch : value) (now : string)
    (updated : obj) : Prop :=
  prop updated "id" = get_prop existing "id" /\
  prop updated "createdAt" = get_prop existing "createdAt" /\
  prop updated "updatedAt" = VStr now /\
  (forall k, In k ["title"; "description"; "done"] ->
             get_prop patch k = VUndef ->
             prop updated k = get_prop existing k) /\
  (forall k, ~ In k ["title"; "description"; "done"; "updatedAt"] ->
             prop updated k = get_prop existing k).

Definition sample_record : value :=
  VObj (new_todo "todo-0" "2024-05-01T10:00:00"
          (VObj [("title", VStr "Buy milk")])).

Definition sample_row : row :=
  {| r_id := "todo-0"; r_title := "Buy milk"; r_description := "";
     r_done := 0%Z; r_created_at := "2024-05-01T10:00:00";
     r_updated_at := "2024-05-01T10:00:00" |}.

(** An initialised File Backend holding [sample_record]. *)
Definition sample_store (mode : string) : FileStorage.t :=
  FileStorage.set_map [("todo-0", sample_record)]
    (FileStorage.set_inited true (sample_file mode)).

(** A world whose database holds [sample_row]. *)
Definition sample_world : World :=
  set_databases {[ path_join "db" "todo.db" := [sample_row] ]} empty_world.

(** Three records of one morning, filed out of their order in time, and
    the rows that stand for them. *)
Definition iso_record (id stamp title : string) : value :=
  VObj (new_todo id stamp (VObj [("title", VStr title)])).

Definition morning : list (string * value) :=
  [ ("todo-0ii", iso_record "todo-0ii" "2024-05-01T12:00:00.000Z" "Call");
    ("todo-0", iso_record "todo-0" "2024-05-01T10:00:00.000Z" "Buy milk");
    ("todo-0i", iso_record "todo-0i" "2024-05-01T11:00:00.000Z" "Walk") ].

Definition iso_row (id stamp title : string) : row :=
  {| r_id := id; r_title := title; r_description := ""; r_done := 0%Z;
     r_created_at := stamp; r_updated_at := stamp |}.

Definition morning_rows : list row :=
  [ iso_row "todo-0i" "2024-05-01T11:00:00.000Z" "Walk";
    iso_row "todo-0ii" "2024-05-01T12:00:00.000Z" "Call";
    iso_row "todo-0" "2024-05-01T10:00:00.000Z" "Buy milk" ].

(** An initialised File Backend that holds them and has not written them
    yet. *)
Definition morning_store (mode : string) : FileStorage.t :=
  FileStorage.set_dirty true
    (FileStorage.set_map morning
       (FileStorage.set_inited true (sample_file mode))).

(** A world in which three stamps and three identifiers were drawn, and
    the same world with the rows in its database. *)
Definition later_world : World :=
  next_id (next_id (next_id
    (next_tick (next_tick (next_tick empty_world))))).

Definition morning_world : World :=
  set_databases {[ path_join "db" "todo.db" := morning_rows ]} later_world.

(** A file whose records carry no creation stamp. *)
Definition unstamped : list value :=
  [ VObj [("id", VStr "a"); ("title", VStr "Buy milk")];
    VObj [("id", VStr "b"); ("title", VStr "Walk")] ].

Definition unstamped_world : World :=
  set_files
    {[ path_join "db" "todo.json" := JSON.stringify 0 (VArr unstamped) ]}
    empty_world.

(** ** Sequences of calls to the contract *)

Inductive call : Type :=
| Init
| Close
| AddTodo (todoData : value)
| GetAllTodos (opts : ListOptions)
| GetTodoById (id : string)
| UpdateTodo (id : string) (patch : value)
| DeleteTodo (id : string).

(** What a caller observes of one call: the value returned or the error
    thrown ([undefined] for [init] and [close]). *)
Definition file_call (env : Env) (c : call)
  : M (FileStorage.t * World) value :=
  match c with
  | Init => FileStorage.init env;; ret VUndef
  | Close => FileStorage.close env;; ret VUndef
  | AddTodo todoData => FileStorage.addTodo env todoData
  | GetAllTodos opts =>
      items <- FileStorage.getAllTodos opts;; ret (VArr items)
  | GetTodoById id => FileStorage.getTodoById id
  | UpdateTodo id patch => FileStorage.updateTodo env id patch
  | DeleteTodo id => removed <- FileStorage.deleteTodo env id;;
                     ret (VBool removed)
  end.

Definition sqlite_call (env : Env) (c : call)
  : M (SqliteFileStorage.t * World) value :=
  match c with
  | Init => SqliteFileStorage.init env;; ret VUndef
  | Close => SqliteFileStorage.close;; ret VUndef
  | AddTodo todoData => SqliteFileStorage.addTodo env todoData
  | GetAllTodos opts =>
      items <- SqliteFileStorage.getAllTodos opts;; ret (VArr items)
  | GetTodoById id => SqliteFileStorage.getTodoById id
  | UpdateTodo id patch => SqliteFileStorage.updateTodo env id patch
  | DeleteTodo id => removed <- SqliteFileStorage.deleteTodo id;;
                     ret (VBool removed)
  end.

(** The observations of a sequence of calls, and the state it leaves. *)
Fixpoint run_calls {S : Type} (step : call -> M S value) (cs : list call)
    (s : S) : list (result value) * S :=
  match cs with
  | [] => ([], s)
  | c :: rest =>
      let (o, s') := step c s in
      let (os, s'') := run_calls step rest s' in
      (o :: os, s'')
  end.

Definition observe {S : Type} (step : call -> M S value) (cs : list call)
    (s : S) : list (result value) :=
  fst (run_calls step cs s).

(** A sequence that uses the contract as the facade documents it: the
    data operations come between an [init] and the next [close], and the
    limit and offset of a listing are not negative and fit a 64-bit
    integer. *)
Definition in_range (n : Z) : bool := (0 <=? n)%Z && (n <? 2 ^ 63)%Z.

Definition page_ok (opts : ListOptions) : bool :=
  match limit opts with
  | Some L => in_range L && in_range (offset_or_0 opts)
  | None => true
  end.

(** Whether a call respects that use in a backend that is opened or not,
    and whether the backend is opened after it. *)
Definition call_ok (opened : bool) (c : call) : bool :=
  match c with
  | Init | Close => true
  | GetAllTodos opts => opened && page_ok opts
  | _ => opened
  end.

Definition opened_after (c : call) (opened : bool) : bool :=
  match c with
  | Init => true
  | Close => false
  | _ => opened
  end.

Fixpoint disciplined (opened : bool) (cs : list call) : bool :=
  match cs with
  | [] => true
  | c :: rest => call_ok opened c && disciplined (opened_after c opened) rest
  end.

(** A disk that rejects its first call with [ENOSPC]. *)
Definition full_disk_env : Env :=
  {| clock := clock sample_env; uuid := uuid sample_env;
     tmp_tag := tmp_tag sample_env;
     fault := fun n => if n =? 0 then Some "ENOSPC" else None |}.

(** A creation followed by an update that carries an empty title. *)
Definition blank_title_calls : list call :=
  [ Init;
    AddTodo (VObj [("title", VStr "Buy milk")]);
    UpdateTodo "todo-0" (VObj [("title", VStr "")]);
    GetAllTodos no_options ].

Definition blanked_record : value :=
  VObj [ ("id", VStr "todo-0"); ("title", VStr "");
         ("description", VStr ""); ("done", VBool false);
         ("createdAt", VStr "2024-05-01T10:00:00");
         ("updatedAt", VStr "2024-05-01T10:00:01") ].

(** ** Records that survive the JSON text

    A flat record is an object with distinct property names whose values
    are strings and booleans, as the records built by [addTodo] and
    [updateTodo] are. *)
Definition scalar (v : value) : bool :=
  match v with
  | VStr _ | VBool _ => true
  | _ => false
  end.

Definition flat_record (v : value) : Prop :=
  match v with
  | VObj o => List.NoDup (keys o) /\ forallb scalar (values o) = true
  | _ => False
  end.

(** The text of a scalar, of a flat record, and of what follows the first
    part inside brackets. *)
Definition scalar_text (v : value) : list ascii :=
  match v with
  | VStr s => JSON.quote s
  | VBool true => list_ascii_of_string "true"
  | VBool false => list_ascii_of_string "false"
  | _ => []
  end.

Definition record_text (gap ind : nat) (o : obj) : list ascii :=
  JSON.bracket gap ind "{"%char "}"%char
    (map (fun kv => JSON.member gap (fst kv) (scalar_text (snd kv))) o).

Definition item_text (gap ind : nat) (v : value) : list ascii :=
  match v with
  | VObj o => record_text gap ind o
  | _ => []
  end.

Fixpoint tail_text (sep close : list ascii) (parts : list (list ascii))
  : list ascii :=
  match parts with
  | [] => close
  | p :: ps => sep ++ p ++ tail_text sep close ps
  end.

(** ** The state of a session

    What holds of a File Backend that started from an empty medium and was
    used through its operations: every entry of the map is a flat record
    filed under its own generated id, and the file holds the records
    whenever memory and disk are supposed to agree. *)
Definition id_of (v : value) : string :=
  match get_prop v "id" with
  | VStr id => id
  | _ => ""
  end.

Definition entry_ok (kv : string * value) : Prop :=
  flat_record (snd kv) /\
  get_prop (snd kv) "id" = VStr (fst kv) /\
  has_createdAt (snd kv) = true.

Definition store_ok (m : list (string * value)) : Prop :=
  List.NoDup (keys m) /\ List.Forall entry_ok m.

(** The creation stamp of an entry, and the entries in listing order. *)
Definition entry_stamp (kv : string * value) : string := createdAt (snd kv).

Definition listed (m : list (string * value)) : list (string * value) :=
  sort_by entry_stamp m.

(** The file holds the records of the map (in either layout), or there is
    no file and no record. *)
Definition on_disk (me : FileStorage.t) (w : World) : Prop :=
  (exists pretty,
     files w !! FileStorage.filepath me
     = Some (json_text pretty
               (sort_by createdAt (values (FileStorage._map me))))) \/
  (FileStorage._map me = [] /\ files w !! FileStorage.filepath me = None).

Definition file_inv (env : Env) (s : FileStorage.t * World) : Prop :=
  store_ok (FileStorage._map (fst s)) /\
  (forall k, In k (keys (FileStorage._map (fst s))) ->
             exists j, j < ids (snd s) /\ k = uuid env j) /\
  (FileStorage.mode (fst s) = "onClose" \/
   FileStorage.mode (fst s) = "immediate") /\
  (FileStorage.mode (fst s) = "immediate" \/
   FileStorage._dirty (fst s) = false \/
   FileStorage._inited (fst s) = false -> on_disk (fst s) (snd s)).

(** The records that [addTodo] builds for a list of inputs, from given
    readings of the clock and of the identifier source. *)
Fixpoint added_records (env : Env) (tick id : nat) (inputs : list value)
  : list value :=
  match inputs with
  | [] => []
  | todoData :: rest =>
      VObj (new_todo (uuid env id) (clock env tick) todoData)
        :: added_records env (S tick) (S id) rest
  end.

(** The entry under which a record is filed. *)
Definition entry_of (v : value) : string * value := (id_of v, v).

(** The entry that a row of the table stands for, and the relation between
    the two backends in a session: same clock and identifier counters, both
    open or both closed, and the same records in the same listing order. *)
Definition entry_of_row (r : row) : string * value :=
  (r_id r, SqliteFileStorage._rowToTodo r).

(** The row that [updateTodo] leaves in place of [r] for the merged record
    [updated], and the replacement of one entry of the map. *)
Definition updated_row (updated : obj) (r : row) : row :=
  {| r_id := r_id r;
     r_title := Sql.text (prop updated "title");
     r_description := Sql.text (prop updated "description");
     r_done := if truthy (prop updated "done") then 1%Z else 0%Z;
     r_created_at := r_created_at r;
     r_updated_at := Sql.text (prop updated "updatedAt") |}.

Definition replace_entry (id : string) (v : value) (kv : string * value)
  : string * value :=
  if String.eqb id (fst kv) then (fst kv, v) else kv.

Definition sim (env : Env) (fs : FileStorage.t * World)
    (ss : SqliteFileStorage.t * World) : Prop :=
  file_inv env fs /\
  ticks (snd fs) = ticks (snd ss) /\
  ids (snd fs) = ids (snd ss) /\
  FileStorage._inited (fst fs) = SqliteFileStorage._inited (fst ss) /\
  SqliteFileStorage.db (fst ss) = SqliteFileStorage._inited (fst ss) /\
  listed (FileStorage._map (fst fs))
  = map entry_of_row
      (Sql.select_all (SqliteFileStorage.rows (fst ss) (snd ss))).

(** The same initial state for the two backends: they are related as in a
    session; the records of the File Backend carry the stamps of
    [toISOString], on which [localeCompare] and the BINARY collation of the
    engine agree; and [init] of the Relational Backend finds no script at
    [schemaPath], so that the table is the one of the embedded script. *)
Definition same_state (env : Env) (fs : FileStorage.t * World)
    (ss : SqliteFileStorage.t * World) : Prop :=
  sim env fs ss /\
  iso_stamped (FileStorage._map (fst fs)) /\
  files (snd ss) !! SqliteFileStorage.schemaPath (fst ss) = None.

(** One call gives the same observation on both backends, leaves them
    related, and opens or closes both alike. *)
Definition agree (env : Env) (c : call) (fs : FileStorage.t * World)
    (ss : SqliteFileStorage.t * World) : Prop :=
  fst (file_call env c fs) = fst (sqlite_call env c ss) /\
  sim env (snd (file_call env c fs)) (snd (sqlite_call env c ss)) /\
  FileStorage._inited (fst (snd (file_call env c fs)))
  = opened_after c (FileStorage._inited (fst fs)).

(** A listing with a negative limit, after two creations. *)
Definition negative_limit_calls : list call :=
  [ Init;
    AddTodo (VObj [("title", VStr "Buy milk")]);
    AddTodo (VObj [("title", VStr "Walk")]);
    GetAllTodos {| limit := Some (-1)%Z; offset := None |} ].

(** A listing with a limit beyond the 64-bit integers, after two
    creations. *)
Definition huge_limit_calls : list call :=
  [ Init;
    AddTodo (VObj [("title", VStr "Buy milk")]);
    AddTodo (VObj [("title", VStr "Walk")]);
    GetAllTodos {| limit := Some (10 ^ 19)%Z; offset := None |} ].

(** An environment whose clock reads the afternoon of the same day. *)
Definition millis (n : nat) : string :=
  string_of_list_ascii
    [ digit_char (n / 100 mod 10); digit_char (n / 10 mod 10);
      digit_char (n mod 10) ].

Definition afternoon_env : Env :=
  {| clock := fun n => "2024-05-01T13:00:00." +:+ millis n +:+ "Z";
     uuid := uuid sample_env;
     tmp_tag := tmp_tag sample_env;
     fault := fun _ => None |}.

(** A session that starts on an open store and reopens it. *)
Definition morning_session : list call :=
  [ AddTodo (VObj [("title", VStr "Read"); ("description", VStr "ch. 3")]);
    GetAllTodos {| limit := Some 2%Z; offset := Some 1%Z |};
    UpdateTodo "todo-0i" (VObj [("done", VBool true)]);
    Close;
    Init;
    DeleteTodo "todo-0";
    GetAllTodos no_options;
    GetTodoById "todo-0ii";
    UpdateTodo "todo-0" (VObj [("title", VStr "late")]);
    Close ].

(** A session that reopens the store between its operations. *)
Definition sample_session : list call :=
  [ Init;
    AddTodo (VObj [("title", VStr "Buy milk")]);
    AddTodo (VObj [("title", VStr "Walk"); ("done", VBool true)]);
    UpdateTodo "todo-0" (VObj [("description", VStr "two litres")]);
    Close;
    Init;
    DeleteTodo "todo-0i";
    GetAllTodos {| limit := Some 5%Z; offset := None |};
    GetTodoById "todo-0i";
    Close ].

(** ** Vocabulary of the further properties *)

(** Whether an item of the parsed file is kept by [init] under [id]. *)
Definition has_id (id : string) (item : value) : bool :=
  truthy item &&
  match get_prop item "id" with
  | VStr i => String.eqb i id
  | _ => false
  end.

(** A text that no JSON parser reads: nothing but white space, or a first
    character with which no JSON value starts. *)
Definition starts_json (c : ascii) : bool :=
  JSON.is_digit c
  || existsb (Ascii.eqb c) ["034"; "["; "{"; "-"; "t"; "f"; "n"]%char.

Definition not_json (content : string) : bool :=
  match JSON.skip_ws (list_ascii_of_string content) with
  | [] => true
  | c :: _ => negb (starts_json c)
  end.

(** A medium that rejects the first call with [EACCES]. *)
Definition locked_env : Env :=
  {| clock := clock sample_env; uuid := uuid sample_env;
     tmp_tag := tmp_tag sample_env;
     fault := fun n => if n =? 0 then Some "EACCES" else None |}.

(** A file whose array carries an id twice and an item without a usable
    id. *)
Definition duplicates : list value :=
  [ VObj [("id", VStr "a"); ("title", VStr "old")];
    VObj [("id", VNum 7)];
    VObj [("id", VStr "a"); ("title", VStr "new")] ].

Definition duplicates_world : World :=
  set_files
    {[ path_join "db" "todo.json" := JSON.stringify 0 (VArr duplicates) ]}
    empty_world.

(** An initialised File Backend whose record is not yet on disk. *)
Definition dirty_store (mode : string) : FileStorage.t :=
  FileStorage.set_dirty true (sample_store mode).

(** Memory and disk agree: the dirty flag is clear and the file holds the
    text of the records in listing order. *)
Definition in_sync (s : FileStorage.t * World) : Prop :=
  FileStorage._dirty (fst s) = false /\
  files (snd s) !! FileStorage.filepath (fst s)
  = Some (json_text (FileStorage.pretty (fst s))
            (sort_by createdAt (values (FileStorage._map (fst s))))).

(** What [updateTodo] makes of the three fields a patch may carry: a
    [title] only when it is a string, a [done] only when it is a boolean,
    and any [description] other than [undefined], as a string. *)
Definition coerced (existing patch updated : value) : Prop :=
  get_prop updated "title"
  = match get_prop patch "title" with
    | VStr t => VStr t
    | _ => get_prop existing "title"
    end /\
  get_prop updated "description"
  = match get_prop patch "description" with
    | VUndef => get_prop existing "description"
    | d => VStr (js_String d)
    end /\
  get_prop updated "done"
  = match get_prop patch "done" with
    | VBool b => VBool b
    | _ => get_prop existing "done"
    end.

(** The values of which [js_String] is the text that [String] gives:
    [undefined], [null], the booleans, the strings, and the integers that a
    double holds exactly, which are printed digit by digit. *)
Definition renders (d : value) : bool :=
  match d with
  | VUndef | VNull | VBool _ | VStr _ => true
  | VNum n => (Z.abs n <? 2 ^ 53)%Z
  | VArr _ | VObj _ => false
  end.

(** A patch as a form might send it: a number for [done], [null] for the
    description, no title. *)
Definition loose_patch : value :=
  VObj [("done", VNum 1); ("description", VNull); ("id", VStr "other")].

(** A source of identifiers that repeats itself. *)
Definition stuck_env : Env :=
  {| clock := clock sample_env; uuid := fun _ => "todo-0";
     tmp_tag := tmp_tag sample_env; fault := fun _ => None |}.

(** Every entry of the map is filed under the [id] of its record, and no
    key occurs twice. *)
Definition keyed_by_id (m : list (string * value)) : Prop :=
  List.NoDup (keys m) /\
  List.Forall (fun kv => get_prop (snd kv) "id" = VStr (fst kv)) m.

(** A session that starts before [init], on a disk that fails at once. *)
Definition rough_session : list call :=
  [ AddTodo (VObj [("title", VStr "Buy milk")]);
    Init;
    UpdateTodo "todo-0" (VObj [("id", VStr "other")]);
    AddTodo (VObj [("title", VStr "Walk"); ("id", VStr "todo-0")]);
    Close ].

(** The table of an instance in a state. *)
Definition table_of (s : SqliteFileStorage.t * World) : list row :=
  SqliteFileStorage.rows (fst s) (snd s).

(** The patch that the list view sends when its mark-complete button is
    clicked: [{ ...todo, done: !todo.done }]. *)
Definition toggle_patch (todo : value) : value :=
  VObj (assign (spread todo)
          [("done", VBool (negb (truthy (get_prop todo "done"))))]).

(** ** The logger: [src/logger/logg.js] *)
Module Logger.

(** Severity levels (higher is more verbose). *)
Definition LEVELS : list (string * Z) :=
  [ ("silent", 0%Z); ("error", 1%Z); ("warn", 2%Z); ("info", 3%Z);
    ("debug", 4%Z); ("trace", 5%Z) ].

(** [String.prototype.toLowerCase] on the code units U+0000..U+00FF: the
    letters A-Z and the capital letters of Latin-1 (U+00C0..U+00DE but the
    multiplication sign) move up by 32. *)
Definition lower_char (c : ascii) : ascii :=
  let n := nat_of_ascii c in
  if ((65 <=? n) && (n <=? 90))
     || ((192 <=? n) && (n <=? 222) && negb (n =? 215))
  then ascii_of_nat (n + 32)
  else c.

Definition toLowerCase (s : string) : string :=
  string_of_list_ascii (map lower_char (list_ascii_of_string s)).

(** [normalizeLevel(level)]: [LEVELS.hasOwnProperty] looks at the six own
    keys only. *)
Definition normalizeLevel (level : value) : string :=
  let lower := toLowerCase (js_String (js_or level (VStr ""))) in
  if has_key lower LEVELS then lower else "info".

(** [LEVELS[name]] for a normalised name. *)
Definition rank (name : string) : Z :=
  match lookup_key name LEVELS with
  | Some n => n
  | None => 0%Z
  end.

(** [isEnabled(level)] under a configuration. *)
Definition isEnabled (config : obj) (level : value) : bool :=
  let target := rank (normalizeLevel level) in
  let current := rank (normalizeLevel (prop config "level")) in
  (target <=? current)%Z && negb (current =? rank "silent")%Z.

(** [setLevel(level)]. *)
Definition setLevel (level : value) (config : obj) : obj :=
  set_key "level" (VStr (normalizeLevel level)) config.

(** The own enumerable properties that a spread copies: those of an
    object, the indices of an array, none of a primitive. *)
Fixpoint indexed (i : nat) (items : list value) : obj :=
  match items with
  | [] => []
  | v :: rest =>
      (string_of_list_ascii (Z_digits (Z.of_nat i)), v) :: indexed (S i) rest
  end.

Definition own_props (v : value) : obj :=
  match v with
  | VObj o => o
  | VArr items => indexed 0 items
  | _ => []
  end.

(** [setConfig(partial)]. *)
Definition setConfig (partial : value) (config : obj) : obj :=
  if negb (truthy partial) || negb (String.eqb (typeof partial) "object")
  then config
  else
    let config := assign config (own_props partial) in
    if truthy (get_prop partial "level")
    then set_key "level" (VStr (normalizeLevel (get_prop partial "level")))
           config
    else config.

End Logger.

(** A configuration at level [warn] that logs to the console only. *)
Definition sample_config : obj :=
  [ ("level", VStr "warn"); ("logToFile", VBool false);
    ("alsoConsole", VBool true) ].

(** The number that a list of decimal digits stands for, least significant
    digit first. *)
Fixpoint lsd_value (ds : list ascii) : N :=
  match ds with
  | [] => 0%N
  | d :: r => (N.of_nat (nat_of_ascii d - 48) + 10 * lsd_value r)%N
  end.

Module AppName.

(** [/[\/\\]/]: a path separator. *)
Definition is_separator (c : ascii) : bool :=
  (nat_of_ascii c =? 47) || (nat_of_ascii c =? 92).

(** [/[A-Za-z0-9_-]/]. *)
Definition is_name_char (c : ascii) : bool :=
  let n := nat_of_ascii c in
  ((65 <=? n) && (n <=? 90)) || ((97 <=? n) && (n <=? 122))
  || ((48 <=? n) && (n <=? 57)) || (n =? 95) || (n =? 45).

(** [n.replace(/^\.+/, )]: the leading dots go. *)
Fixpoint drop_dots (cs : list ascii) : list ascii :=
  match cs with
  | c :: r => if nat_of_ascii c =? 46 then drop_dots r else cs
  | [] => []
  end.

(** [DEFAULTS.appNameSafe || "app"]: the defaults have no such
    property. *)
Definition fallback : string := "app".

(** [sanitizeAppName(name)]. *)
Definition sanitizeAppName (name : value) : string :=
  match name with
  | VStr name =>
      let n := trim name in
      if String.eqb n "" then fallback else
      let n :=
        List.filter (fun c => negb (is_separator c)) (list_ascii_of_string n)
      in
      let n := drop_dots n in
      let n := List.filter is_name_char n in
      match n with
      | [] => fallback
      | _ => string_of_list_ascii n
      end
  | _ => fallback
  end.

End AppName.

(** ** The fallback of [generateUuid]

    The branch taken when [crypto.randomUUID] is missing.  [rand k] is the
    [k]-th value of [(Math.random() * 16) | 0]; as [Math.random()] is in
    [[0, 1)] it is an integer from 0 to 15. *)
Module Uuid.

Definition template : string := "xxxxxxxx-xxxx-4xxx-yxxx-xxxxxxxxxxxx".

(** [v.toString(16)] of an integer from 0 to 15. *)
Definition hex (v : Z) : ascii := JSON.hex_char (Z.to_nat v).

(** The [replace(/[xy]/g, ...)]: one draw for every [x] and [y], from left
    to right. *)
Fixpoint fill (rand : nat -> Z) (k : nat) (cs : list ascii) : list ascii :=
  match cs with
  | [] => []
  | c :: rest =>
      if Ascii.eqb c "x" then hex (rand k) :: fill rand (S k) rest
      else if Ascii.eqb c "y"
      then hex (Z.lor (Z.land (rand k) 3) 8) :: fill rand (S k) rest
      else c :: fill rand k rest
  end.

Definition fallback (rand : nat -> Z) (k : nat) : string :=
  string_of_list_ascii (fill rand k (list_ascii_of_string template)).

(** A hexadecimal digit in lower case. *)
Definition is_hex (c : ascii) : bool :=
  let n := nat_of_ascii c in
  ((48 <=? n) && (n <=? 57)) || ((97 <=? n) && (n <=? 102)).

(** The position in the template of the place that takes draw [j], counted
    from 0: the hyphens and the digit 4 take none. *)
Definition slot (j : nat) : nat :=
  j + (if j <? 8 then 0 else if j <? 12 then 1 else if j <? 15 then 3
       else if j <? 19 then 4 else 5).

(** What becomes of draw [j]: the sixteenth is cut down to 8..11. *)
Definition digit_of (j : nat) (r : Z) : ascii :=
  hex (if j =? 15 then Z.lor (Z.land r 3) 8 else r).

End Uuid.

(** ** Logging to a file: rotation and append

    [console] collects what [console.error] is given; the text of such a
    line is kept as its parts.  The fields of [config] that file logging
    reads stand at the types the defaults give them: [logToFile] a boolean,
    [logDir] and [fileName] strings, [maxSizeBytes] and [maxBackups]
    integers.  [EOL] is [os.EOL]. *)
Module LogFile.

Inductive event : Type :=
| RotationError (src dst : path) (err : error).

(** The size of a file: the bytes of its utf8 text, one for a code unit
    below U+0080 and two for the others. *)
Definition char_bytes (c : ascii) : Z :=
  if nat_of_ascii c <? 128 then 1%Z else 2%Z.

Definition byte_length (text : string) : Z :=
  fold_right (fun c n => Z.add (char_bytes c) n) 0%Z
    (list_ascii_of_string text).

(** [`${filePath}.${i}`]. *)
Definition backup (filePath : path) (i : nat) : path :=
  path_join (dirname filePath)
    (basename filePath +:+ "."
       +:+ string_of_list_ascii (Z_digits (Z.of_nat i))).

Section Sync.
Variable env : Env.
Variables maxSizeBytes maxBackups : Z.
Variables (logToFile : bool) (logDir fileName EOL : string).

Definition console_error (e : event) : M (list event * World) unit :=
  update (fun console => console ++ [e]).

(** [fs.existsSync]: never throws, [false] when the call fails. *)
Definition existsSync (p : path) : M (list event * World) bool :=
  try_catch
    (fs_call env (fun w =>
       (Ok match files w !! p with Some _ => true | None => false end, w)))
    (fun _ => ret false).

(** [fs.statSync(p).size]. *)
Definition statSync_size (p : path) : M (list event * World) Z :=
  fs_call env (fun w =>
    match files w !! p with
    | Some text => (Ok (byte_length text), w)
    | None => (Throw (SystemError "ENOENT"), w)
    end).

(** [fs.appendFileSync(p, text)] creates the file when it is missing. *)
Definition appendFileSync (p : path) (text : string)
  : M (list event * World) unit :=
  fs_call env (fun w =>
    let old := match files w !! p with Some t => t | None => "" end in
    (Ok tt, set_files (<[p := old +:+ text]> (files w)) w)).

(** [ensureDirExists(dirPath)]. *)
Definition ensureDirExists (dirPath : string) : M (list event * World) unit :=
  try_catch (fs_mkdir env dirPath) (fun _ => ret tt).

(** The loop of the rotation, from index [i] down to 1; [false] when a
    rename failed and the rotation is given up. *)
Fixpoint shift (filePath : path) (i : nat) : M (list event * World) bool :=
  match i with
  | O => ret true
  | S i' =>
      let src := backup filePath i in
      let dst := backup filePath (S i) in
      found <- existsSync src;;
      if found then
        moved <-
          try_catch (fs_rename env src dst;; ret true)
            (fun err => console_error (RotationError src dst err);;
                        ret false);;
        if moved then shift filePath i' else ret false
      else shift filePath i'
  end.

(** [rotateIfNeeded(filePath)]. *)
Definition rotateIfNeeded (filePath : path) : M (list event * World) unit :=
  try_catch
    (found <- existsSync filePath;;
     if negb found then ret tt else
     size <- statSync_size filePath;;
     if (size <? maxSizeBytes)%Z then ret tt else
     shifted <- shift filePath (Z.to_nat (maxBackups - 1));;
     if negb shifted then ret tt else
     let firstBackup := backup filePath 1 in
     try_catch (fs_rename env filePath firstBackup)
       (fun err => console_error (RotationError filePath firstBackup err)))
    (fun _ => ret tt).

(** [writeToFile(line)]. *)
Definition writeToFile (line : string) : M (list event * World) unit :=
  if negb logToFile then ret tt else
  let filePath := path_join logDir fileName in
  try_catch
    (ensureDirExists logDir;;
     rotateIfNeeded filePath;;
     appendFileSync filePath (line +:+ EOL))
    (fun _ => ret tt).

End Sync.
End LogFile.

(** A log of ten bytes with two backups, under a limit of eight bytes. *)
Definition log_path : path := path_join "logs" "app.log".

Definition log_world : World :=
  set_files
    {[ log_path := "0123456789";
       LogFile.backup log_path 1 := "older";
       LogFile.backup log_path 2 := "oldest" ]}
    empty_world.

(** The names of the rotation chain: the log itself, then its backups. *)
Definition link (filePath : path) (j : nat) : path :=
  match j with
  | O => filePath
  | S _ => LogFile.backup filePath j
  end.

(** A medium that rejects its fourth call with [EPERM]. *)
Definition fourth_call_env : Env :=
  {| clock := clock sample_env; uuid := uuid sample_env;
     tmp_tag := tmp_tag sample_env;
     fault := fun n => if n =? 3 then Some "EPERM" else None |}.


(** Whether a record carries the creation stamp [t]. *)
Definition stamped (t : string) (v : value) : bool :=
  String.eqb (createdAt v) t.

(** A store of two records created at the same instant; the one that
    sorts second by id was inserted first. *)
Definition twin_store : FileStorage.t :=
  FileStorage.set_map
    [ ("b", VObj (new_todo "b" "2024-05-01T10:00:00"
                    (VObj [("title", VStr "first in")])));
      ("a", VObj (new_todo "a" "2024-05-01T10:00:00"
                    (VObj [("title", VStr "second in")]))) ]
    (FileStorage.set_inited true (sample_file "onClose")).

(* ===================================================================== *)
(** * Properties *)
(* ===================================================================== *)
(** ** Keyed lists *)
Section KeyedFacts.
Context {A : Type}.
Implicit Types (l : list (string * A)) (k : string).

Lemma lookup_set_key_eq k a l : lookup_key k (set_key k a l) = Some a.
Proof.
  induction l as [|[k' a'] r IH]; simpl.
  - now rewrite String.eqb_refl.
  - destruct (String.eqb k k') eqn:E; simpl; rewrite E; auto.
Qed.

Lemma lookup_set_key_ne k k' a l :
  k <> k' -> lookup_key k' (set_key k a l) = lookup_key k' l.
Proof.
  intros Hne. induction l as [|[k0 a0] r IH]; simpl.
  - destruct (String.eqb_spec k' k); congruence.
  - destruct (String.eqb_spec k k0); simpl.
    + subst. destruct (String.eqb_spec k' k0); congruence.
    + now rewrite IH.
Qed.

Lemma lookup_delete_key_eq k l : lookup_key k (delete_key k l) = None.
Proof.
  induction l as [|[k' a'] r IH]; simpl; auto.
  destruct (String.eqb k k') eqn:E; simpl; auto. now rewrite E.
Qed.

Lemma lookup_delete_key_ne k k' l :
  k <> k' -> lookup_key k' (delete_key k l) = lookup_key k' l.
Proof.
  intros Hne. induction l as [|[k0 a0] r IH]; simpl; auto.
  destruct (String.eqb_spec k k0); simpl.
  - subst. destruct (String.eqb_spec k' k0); congruence.
  - now rewrite IH.
Qed.

Lemma delete_key_absent k l : lookup_key k l = None -> delete_key k l = l.
Proof.
  induction l as [|[k' a'] r IH]; simpl; auto.
  destruct (String.eqb k k'); [discriminate|]. intros H. now rewrite IH.
Qed.

Lemma has_key_lookup k l :
  has_key k l = true <-> exists a, lookup_key k l = Some a.
Proof.
  unfold has_key. destruct (lookup_key k l); split; eauto; try discriminate.
  intros [a H]; discriminate.
Qed.
End KeyedFacts.

(** ** The order on time stamps *)

Lemma leb_refl (s : string) : String.leb s s = true.
Proof.
  unfold String.leb. destruct (String.compare s s) eqn:E; auto.
  pose proof (String.compare_antisym s s) as H. rewrite E in H. discriminate.
Qed.

Lemma ltb_leb (s t : string) : String.ltb s t = negb (String.leb t s).
Proof.
  unfold String.ltb, String.leb. rewrite (String.compare_antisym s t).
  destruct (String.compare t s); reflexivity.
Qed.

Lemma leb_trans (s t u : string) :
  String.leb s t = true -> String.leb t u = true -> String.leb s u = true.
Proof.
  unfold String.leb. intros Hst Htu.
  destruct (String.compare s t) eqn:E1; try discriminate;
    destruct (String.compare t u) eqn:E2; try discriminate.
  - apply String.compare_eq_iff in E1, E2. subst.
    destruct (String.compare u u) eqn:E; auto.
    assert (H := leb_refl u). unfold String.leb in H. now rewrite E in H.
  - apply String.compare_eq_iff in E1. subst. now rewrite E2.
  - apply String.compare_eq_iff in E2. subst. now rewrite E1.
  - apply String_as_OT.cmp_lt in E1, E2.
    assert (H := String_as_OT.lt_trans _ _ _ E1 E2).
    apply String_as_OT.cmp_lt in H. unfold String_as_OT.cmp in H.
    now rewrite H.
Qed.

(** ** Stable sorting *)
Section StableSortFacts.
Context {A : Type}.
Variable key : A -> string.

Lemma insert_last_perm (x : A) (l : list A) :
  Permutation (insert_last key x l) (x :: l).
Proof.
  induction l as [|y r IH]; simpl; auto.
  destruct (String.ltb (key x) (key y)); auto.
  rewrite IH. apply perm_swap.
Qed.

Lemma fold_insert_perm (l acc : list A) :
  Permutation (fold_left (fun a x => insert_last key x a) l acc) (acc ++ l).
Proof.
  revert acc. induction l as [|x r IH]; intros acc; simpl.
  - now rewrite app_nil_r.
  - rewrite IH, insert_last_perm.
    change (x :: acc ++ r) with ((x :: acc) ++ r).
    rewrite (Permutation_middle acc r x). reflexivity.
Qed.

Lemma sort_by_perm (l : list A) : Permutation (sort_by key l) l.
Proof. unfold sort_by. now rewrite fold_insert_perm. Qed.


Lemma insert_last_sorted (x : A) (l : list A) :
  StronglySorted (key_le key) l ->
  StronglySorted (key_le key) (insert_last key x l).
Proof.
  induction 1 as [|y r Hr IH Hy]; simpl.
  - constructor; constructor.
  - destruct (String.ltb (key x) (key y)) eqn:E.
    + assert (Hxy : key_le key x y).
      { unfold key_le, String.leb. unfold String.ltb in E.
        destruct (String.compare (key x) (key y)); auto; discriminate. }
      constructor; [constructor; auto|].
      constructor; auto.
      eapply List.Forall_impl; [|exact Hy].
      intros z Hz. unfold key_le in *. eapply leb_trans; eauto.
    + constructor; auto.
      rewrite ltb_leb in E. apply negb_false_iff in E.
      eapply Permutation_Forall.
      * symmetry. apply insert_last_perm.
      * constructor; auto.
  Qed.

Lemma fold_insert_sorted (l acc : list A) :
  StronglySorted (key_le key) acc ->
  StronglySorted (key_le key)
    (fold_left (fun a x => insert_last key x a) l acc).
Proof.
  revert acc. induction l as [|x r IH]; intros acc H; simpl; auto.
  apply IH, insert_last_sorted, H.
Qed.

Lemma sort_by_sorted (l : list A) :
  StronglySorted (key_le key) (sort_by key l).
Proof. apply fold_insert_sorted. constructor. Qed.

Lemma sort_by_snoc (l : list A) (x : A) :
  sort_by key (l ++ [x]) = insert_last key x (sort_by key l).
Proof. unfold sort_by. now rewrite fold_left_app. Qed.

Lemma insert_last_above (x : A) (l : list A) :
  Forall (fun y => key_le key y x) l -> insert_last key x l = l ++ [x].
Proof.
  induction 1 as [|y r Hy Hr IH]; simpl; auto.
  rewrite ltb_leb. unfold key_le in Hy. rewrite Hy. simpl. now rewrite IH.
Qed.

Lemma fold_insert_sorted_id (l acc : list A) :
  StronglySorted (key_le key) (acc ++ l) ->
  fold_left (fun a x => insert_last key x a) l acc = acc ++ l.
Proof.
  revert acc. induction l as [|x r IH]; intros acc H; simpl.
  - now rewrite app_nil_r.
  - assert (Hacc : Forall (fun y => key_le key y x) acc).
    { clear IH. induction acc as [|a acc IHa]; constructor.
      - inversion H as [|? ? _ Hall]; subst.
        rewrite Forall_app in Hall. destruct Hall as [_ Hall].
        now inversion Hall.
      - apply IHa. now inversion H. }
    rewrite (insert_last_above x acc Hacc).
    rewrite IH; rewrite <- app_assoc; auto.
Qed.

Lemma sort_by_sorted_id (l : list A) :
  StronglySorted (key_le key) l -> sort_by key l = l.
Proof. intros H. unfold sort_by. now rewrite fold_insert_sorted_id. Qed.

Lemma ltb_leb_trans (s t u : string) :
  String.ltb s t = true -> String.leb t u = true -> String.ltb s u = true.
Proof.
  rewrite !ltb_leb, !negb_true_iff. intros Hts Htu.
  destruct (String.leb u s) eqn:E; auto.
  now rewrite (leb_trans _ _ _ Htu E) in Hts.
Qed.

Lemma insert_last_below (x : A) (l : list A) :
  Forall (fun y => String.ltb (key x) (key y) = true) l ->
  insert_last key x l = x :: l.
Proof. destruct 1 as [|y r Hy _]; simpl; auto. now rewrite Hy. Qed.

Lemma insert_last_drop (p : A -> bool) (x : A) (l : list A) :
  p x = false -> List.filter p (insert_last key x l) = List.filter p l.
Proof.
  intros Hx. induction l as [|y r IH]; simpl.
  - now rewrite Hx.
  - destruct (String.ltb (key x) (key y)); simpl.
    + now rewrite Hx.
    + now rewrite IH.
Qed.

Lemma insert_last_filter (p : A -> bool) (x : A) (l : list A) :
  StronglySorted (key_le key) l -> p x = true ->
  List.filter p (insert_last key x l) = insert_last key x (List.filter p l).
Proof.
  intros Hl Hx. induction Hl as [|y r Hr IH Hy]; cbn [insert_last].
  - simpl. now rewrite Hx.
  - destruct (String.ltb (key x) (key y)) eqn:E.
    + cbn [List.filter]. rewrite Hx. symmetry.
      change (if p y then y :: List.filter p r else List.filter p r)
        with (List.filter p (y :: r)).
      apply insert_last_below.
      apply List.Forall_forall. intros z Hz.
      apply List.filter_In in Hz. destruct Hz as [Hz _].
      destruct Hz as [<-|Hz]; auto.
      eapply ltb_leb_trans; eauto.
      rewrite List.Forall_forall in Hy. now apply Hy.
    + cbn [List.filter]. destruct (p y); cbn [insert_last]; rewrite ?E, IH; auto.
Qed.

Lemma fold_insert_filter (p : A -> bool) (l acc : list A) :
  StronglySorted (key_le key) acc ->
  fold_left (fun a x => insert_last key x a) (List.filter p l) (List.filter p acc) =
  List.filter p (fold_left (fun a x => insert_last key x a) l acc).
Proof.
  revert acc. induction l as [|x r IH]; intros acc Hacc; simpl; auto.
  destruct (p x) eqn:Hx; simpl.
  - rewrite <- insert_last_filter by auto.
    apply IH, insert_last_sorted, Hacc.
  - rewrite <- (IH (insert_last key x acc)) by
      (apply insert_last_sorted, Hacc).
    now rewrite insert_last_drop.
Qed.

Lemma sort_by_filter (p : A -> bool) (l : list A) :
  sort_by key (List.filter p l) = List.filter p (sort_by key l).
Proof. apply (fold_insert_filter p l []). constructor. Qed.
End StableSortFacts.

Lemma insert_last_map {A B} (ka : A -> string) (kb : B -> string)
    (f : A -> B) (x : A) (l : list A) :
  kb (f x) = ka x -> (forall y, In y l -> kb (f y) = ka y) ->
  insert_last kb (f x) (map f l) = map f (insert_last ka x l).
Proof.
  intros Hx. induction l as [|y r IH]; intros Hl; simpl; auto.
  rewrite Hx, (Hl y) by (now left).
  destruct (String.ltb (ka x) (ka y)); simpl; auto.
  rewrite IH; auto. intros z Hz. apply Hl. now right.
Qed.

Lemma fold_insert_map {A B} (ka : A -> string) (kb : B -> string)
    (f : A -> B) (l acc : list A) :
  (forall y, In y (acc ++ l) -> kb (f y) = ka y) ->
  fold_left (fun a x => insert_last kb x a) (map f l) (map f acc) =
  map f (fold_left (fun a x => insert_last ka x a) l acc).
Proof.
  revert acc. induction l as [|x r IH]; intros acc H; simpl; auto.
  rewrite (insert_last_map ka kb).
  - apply IH. intros y Hy. apply H.
    apply in_app_or in Hy. destruct Hy as [Hy|Hy].
    + apply (Permutation_in _ (insert_last_perm ka x acc)) in Hy.
      destruct Hy as [<-|Hy]; apply in_or_app; [right; now left | now left].
    + apply in_or_app. right. now right.
  - apply H, in_or_app. right. now left.
  - intros y Hy. apply H, in_or_app. now left.
Qed.

Lemma sort_by_map {A B} (ka : A -> string) (kb : B -> string)
    (f : A -> B) (l : list A) :
  (forall y, In y l -> kb (f y) = ka y) ->
  sort_by kb (map f l) = map f (sort_by ka l).
Proof. intros H. apply (fold_insert_map ka kb f l []). exact H. Qed.

(** ** Running the primitives *)

Ltac run :=
  unfold bind, self, gets, update, modify, ret, throw, lift, try_catch,
    now, generateUuid, tmp_name, fs_mkdir, fs_readFile, fs_writeFile,
    fs_rename, fs_rm, fs_call, has_dir, make_dir; simpl.

Lemma append_nonempty_ne (s t : string) : t <> "" -> s +:+ t <> s.
Proof.
  intros Ht. induction s as [|c s IH]; simpl; auto.
  intros H. injection H as H. auto.
Qed.

Lemma tmp_path_fresh (env : Env) (me : FileStorage.t) (w : World) :
  tmp_path env me w <> FileStorage.filepath me.
Proof.
  unfold tmp_path, path_join, dirname, basename.
  destruct (FileStorage.filepath me) as [d b]; simpl. intros H.
  injection H as H. revert H. apply append_nonempty_ne. discriminate.
Qed.

Lemma sort_by_createdAt_ok (items arr : list value) :
  sort_by_createdAt items = Ok arr ->
  Permutation arr items /\ StronglySorted (key_le createdAt) arr.
Proof.
  unfold sort_by_createdAt. destruct (length items <=? 1) eqn:E.
  - intros [= <-]. split; auto.
    destruct items as [|a [|b r]]; try discriminate; repeat constructor.
  - destruct (forallb has_createdAt items); [|discriminate].
    intros [= <-]. split; [apply sort_by_perm | apply sort_by_sorted].
Qed.

Lemma sort_by_short {A} (key : A -> string) (l : list A) :
  length l <= 1 -> sort_by key l = l.
Proof. destruct l as [|a [|b r]]; simpl; auto; lia. Qed.

Lemma sort_well_typed (m : list (string * value)) :
  well_typed m ->
  sort_by_createdAt (values m) = Ok (sort_by createdAt (values m)).
Proof.
  unfold well_typed, sort_by_createdAt. intros ->.
  destruct (length (values m) <=? 1) eqn:E; auto.
  apply Nat.leb_le in E. now rewrite sort_by_short.
Qed.

Lemma iso_well_typed (m : list (string * value)) :
  iso_stamped m -> well_typed m.
Proof.
  unfold iso_stamped, well_typed. rewrite !forallb_forall.
  intros H v Hv. specialize (H v Hv).
  unfold has_iso_stamp in H. unfold has_createdAt.
  now destruct (get_prop v "createdAt").
Qed.

(** ** The write path of the File Backend *)



(** ** Running the File Backend *)

Lemma ensureInit_run (me : FileStorage.t) (w : World) :
  FileStorage._ensureInit (me, w) = (Ok tt, (ensured me, w)).
Proof.
  unfold FileStorage._ensureInit, ensured. run.
  destruct (FileStorage._inited me); reflexivity.
Qed.

Lemma ensured_map (me : FileStorage.t) :
  FileStorage._map (ensured me) = FileStorage._map me.
Proof. unfold ensured. now destruct (FileStorage._inited me). Qed.

Lemma ensured_mode (me : FileStorage.t) :
  FileStorage.mode (ensured me) = FileStorage.mode me.
Proof. unfold ensured. now destruct (FileStorage._inited me). Qed.

Lemma ensured_inited (me : FileStorage.t) :
  FileStorage._inited (ensured me) = true.
Proof. unfold ensured. now destruct (FileStorage._inited me) eqn:E. Qed.

Lemma values_set_key_in {A} (k : string) (a x : A) (m : list (string * A)) :
  In x (values (set_key k a m)) -> x = a \/ In x (values m).
Proof.
  unfold values. induction m as [|[k' a'] r IH]; simpl.
  - intros [<-|[]]. now left.
  - destruct (String.eqb k k'); simpl.
    + intros [<-|H]; auto.
    + intros [<-|H]; auto. destruct (IH H); auto.
Qed.

Lemma values_delete_key_in {A} (k : string) (x : A) (m : list (string * A)) :
  In x (values (delete_key k m)) -> In x (values m).
Proof.
  unfold values. induction m as [|[k' a'] r IH]; simpl; auto.
  destruct (String.eqb k k'); simpl; auto. intros [<-|H]; auto.
Qed.

Lemma lookup_key_in {A} (k : string) (a : A) (m : list (string * A)) :
  lookup_key k m = Some a -> In a (values m).
Proof.
  unfold values. induction m as [|[k' a'] r IH]; simpl; [discriminate|].
  destruct (String.eqb k k'); auto. intros [= <-]. now left.
Qed.

Lemma well_typed_set_key (k : string) (v : value) (m : list (string * value)) :
  well_typed m -> has_createdAt v = true -> well_typed (set_key k v m).
Proof.
  unfold well_typed. rewrite !forallb_forall. intros Hm Hv x Hx.
  apply values_set_key_in in Hx. destruct Hx as [->|Hx]; auto.
Qed.

Lemma well_typed_delete_key (k : string) (m : list (string * value)) :
  well_typed m -> well_typed (delete_key k m).
Proof.
  unfold well_typed. rewrite !forallb_forall. intros Hm x Hx.
  apply values_delete_key_in in Hx. auto.
Qed.

Lemma well_typed_lookup (k : string) (v : value) (m : list (string * value)) :
  well_typed m -> lookup_key k m = Some v -> has_createdAt v = true.
Proof.
  unfold well_typed. rewrite forallb_forall. intros Hm Hk.
  apply Hm. eapply lookup_key_in; eauto.
Qed.

Lemma writeToDisk_ok (env : Env) (me : FileStorage.t) (w : World) :
  reliable env -> well_typed (FileStorage._map me) ->
  FileStorage._writeToDisk env (me, w) =
  (Ok tt, (FileStorage.set_dirty false me, written env me w)).
Proof.
  intros Hr Hm. unfold FileStorage._writeToDisk. run.
  rewrite (sort_well_typed _ Hm), !Hr. simpl.
  rewrite lookup_insert_eq. reflexivity.
Qed.

Lemma write_if_immediate_ok (env : Env) (me : FileStorage.t) (w : World) :
  can_persist env me ->
  FileStorage.write_if_immediate env (me, w) =
  (Ok tt, (settled me, persisted env me w)).
Proof.
  intros Hp. unfold FileStorage.write_if_immediate, settled, persisted. run.
  destruct (String.eqb_spec (FileStorage.mode me) "immediate") as [E|E]; auto.
  destruct (Hp E) as [Hr Hm]. now apply writeToDisk_ok.
Qed.



Lemma title_missing_spec (todoData : value) :
  title_missing todoData = false <->
  exists t, get_prop todoData "title" = VStr t /\ trim t <> "".
Proof.
  unfold title_missing. split.
  - intros H. apply orb_false_iff in H. destruct H as [_ H].
    destruct (get_prop todoData "title"); try discriminate.
    exists s. split; auto. now apply String.eqb_neq.
  - intros [t [Ht Hne]]. rewrite Ht.
    apply String.eqb_neq in Hne. rewrite Hne, orb_false_r.
    destruct todoData; simpl in Ht; try discriminate. reflexivity.
Qed.

Lemma file_addTodo_invalid {medium : Medium} (env : Env) (todoData : value)
    (me : FileStorage.t) (w : World) :
  title_missing todoData = true ->
  FileStorage.addTodo env todoData (me, w) =
  (Throw title_required, (ensured me, w)).
Proof.
  intros H. unfold FileStorage.addTodo, bind.
  rewrite ensureInit_run, H. reflexivity.
Qed.

(** The instance and the world just before the write of [addTodo]. *)
Lemma file_addTodo_valid {medium : Medium} (env : Env) (todoData : value)
    (me : FileStorage.t) (w : World) :
  title_missing todoData = false ->
  let id := uuid env (ids w) in
  let todo := VObj (new_todo id (clock env (ticks w)) todoData) in
  let me1 :=
    FileStorage.set_dirty true
      (FileStorage.set_map (set_key id todo (FileStorage._map me))
         (ensured me)) in
  FileStorage.addTodo env todoData (me, w) =
  match FileStorage.write_if_immediate env (me1, next_id (next_tick w)) with
  | (Ok _, s) => (Ok todo, s)
  | (Throw e, s) => (Throw e, s)
  end.
Proof.
  intros H id todo me1. unfold FileStorage.addTodo, bind at 1.
  rewrite ensureInit_run, H. run. rewrite ensured_map.
  fold id. fold todo. fold me1.
  destruct (FileStorage.write_if_immediate env _) as [[|] ?]; reflexivity.
Qed.

Lemma select_by_id_fresh (id : string) (tbl : list row) :
  Sql.select_by_id id tbl = None ->
  existsb (fun x => String.eqb (r_id x) id) tbl = false.
Proof.
  unfold Sql.select_by_id. induction tbl as [|r t IH]; simpl; auto.
  destruct (String.eqb (r_id r) id); [discriminate | auto].
Qed.

Lemma select_by_id_snoc (id : string) (tbl : list row) (r : row) :
  Sql.select_by_id id tbl = None -> r_id r = id ->
  Sql.select_by_id id (tbl ++ [r]) = Some r.
Proof.
  unfold Sql.select_by_id. intros H <-.
  induction tbl as [|x t IH]; simpl in *.
  - now rewrite String.eqb_refl.
  - destruct (String.eqb (r_id x) (r_id r)); [discriminate | auto].
Qed.

Lemma rows_store (me : SqliteFileStorage.t) (w : World) (tbl : list row)
    (d : gmap path (list row)) :
  SqliteFileStorage.rows me
    (set_databases (<[SqliteFileStorage.filepath me := tbl]> d) w)
  = tbl.
Proof.
  unfold SqliteFileStorage.rows. simpl. now rewrite lookup_insert_eq.
Qed.

Lemma sqlite_ensureInit_run (me : SqliteFileStorage.t) (w : World) :
  SqliteFileStorage._inited me = true ->
  SqliteFileStorage._ensureInit (me, w) = (Ok tt, (me, w)).
Proof. intros H. unfold SqliteFileStorage._ensureInit. run. now rewrite H. Qed.

Lemma string_list_ascii (s : string) :
  string_of_list_ascii (list_ascii_of_string s) = s.
Proof. apply string_of_list_ascii_of_string. Qed.

(** ** Creation *)



(** ** Update *)

Lemma prop_set_key (o : obj) (k k' : string) (v : value) :
  prop (set_key k v o) k' = if String.eqb k k' then v else prop o k'.
Proof.
  unfold prop. destruct (String.eqb_spec k k') as [<-|Hne].
  - now rewrite lookup_set_key_eq.
  - now rewrite lookup_set_key_ne.
Qed.

Lemma prop_spread (v : value) (k : string) : prop (spread v) k = get_prop v k.
Proof. destruct v; reflexivity. Qed.

(** What [{ ...existing, title, description, done, updatedAt }] holds. *)
Lemma merge_patch_prop (existing patch : value) (now k : string) :
  prop (merge_patch existing patch now) k =
  if String.eqb k "updatedAt" then VStr now
  else if String.eqb k "done" then
    match get_prop patch "done" with
    | VBool b => VBool b
    | _ => get_prop existing "done"
    end
  else if String.eqb k "description" then
    match get_prop patch "description" with
    | VUndef => get_prop existing "description"
    | d => VStr (js_String d)
    end
  else if String.eqb k "title" then
    match get_prop patch "title" with
    | VStr t => VStr t
    | _ => get_prop existing "title"
    end
  else get_prop existing k.
Proof.
  unfold merge_patch, assign. cbn [fold_left fst snd].
  rewrite !prop_set_key, prop_spread.
  rewrite !(String.eqb_sym k). reflexivity.
Qed.

Lemma merge_patch_frame (existing patch : value) (now : string) :
  update_frame existing patch now (merge_patch existing patch now).
Proof.
  unfold update_frame.
  repeat split; try (rewrite merge_patch_prop; reflexivity).
  - intros k Hk Hu. rewrite merge_patch_prop.
    simpl in Hk. destruct Hk as [<-|[<-|[<-|[]]]]; simpl; now rewrite Hu.
  - intros k Hk. rewrite merge_patch_prop.
    destruct (String.eqb_spec k "updatedAt") as [->|_];
      [exfalso; apply Hk; simpl; tauto|].
    destruct (String.eqb_spec k "done") as [->|_];
      [exfalso; apply Hk; simpl; tauto|].
    destruct (String.eqb_spec k "description") as [->|_];
      [exfalso; apply Hk; simpl; tauto|].
    destruct (String.eqb_spec k "title") as [->|_];
      [exfalso; apply Hk; simpl; tauto|].
    reflexivity.
Qed.

Lemma file_updateTodo_found (env : Env) (id : string) (patch : value)
    (me : FileStorage.t) (w : World) (existing : value) :
  lookup_key id (FileStorage._map me) = Some existing ->
  patch <> VNull ->
  let updated :=
    VObj (merge_patch existing (patch_or_empty patch) (clock env (ticks w))) in
  let me1 :=
    FileStorage.set_dirty true
      (FileStorage.set_map (set_key id updated (FileStorage._map me))
         (ensured me)) in
  FileStorage.updateTodo env id patch (me, w) =
  match FileStorage.write_if_immediate env (me1, next_tick w) with
  | (Ok _, s) => (Ok updated, s)
  | (Throw e, s) => (Throw e, s)
  end.
Proof.
  intros Hl Hp updated me1. unfold FileStorage.updateTodo, bind at 1.
  rewrite ensureInit_run. run. rewrite ensured_map, Hl.
  subst updated me1.
  destruct patch; try congruence; simpl; rewrite ?ensured_map;
    match goal with
    | |- context [FileStorage.write_if_immediate env ?s] =>
        destruct (FileStorage.write_if_immediate env s) as [[|] ?]
    end; reflexivity.
Qed.

Lemma file_updateTodo_absent {medium : Medium} (env : Env) (id : string)
    (patch : value) (me : FileStorage.t) (w : World) :
  lookup_key id (FileStorage._map me) = None ->
  FileStorage.updateTodo env id patch (me, w) = (Ok VNull, (ensured me, w)).
Proof.
  intros Hl. unfold FileStorage.updateTodo, bind at 1.
  rewrite ensureInit_run. run. now rewrite ensured_map, Hl.
Qed.

Lemma select_by_id_id (id : string) (tbl : list row) (r : row) :
  Sql.select_by_id id tbl = Some r -> r_id r = id.
Proof.
  unfold Sql.select_by_id. intros H. apply find_some in H.
  now apply String.eqb_eq.
Qed.

Lemma select_by_id_update (id : string) (tbl : list row) (r : row)
    (title description updated_at : string) (done : Z) :
  Sql.select_by_id id tbl = Some r ->
  Sql.select_by_id id
    (Sql.update title description done updated_at id tbl)
  = Some {| r_id := r_id r; r_title := title; r_description := description;
            r_done := done; r_created_at := r_created_at r;
            r_updated_at := updated_at |}.
Proof.
  unfold Sql.select_by_id, Sql.update.
  induction tbl as [|x t IH]; simpl; [discriminate|].
  destruct (String.eqb (r_id x) id) eqn:E; simpl; rewrite E.
  - now intros [= ->].
  - auto.
Qed.

Lemma sqlite_getTodoById_run (id : string) (me : SqliteFileStorage.t)
    (w : World) :
  SqliteFileStorage._inited me = true ->
  SqliteFileStorage.getTodoById id (me, w) =
  (Ok match Sql.select_by_id id (SqliteFileStorage.rows me w) with
      | Some r => SqliteFileStorage._rowToTodo r
      | None => VNull
      end, (me, w)).
Proof.
  intros Hi. unfold SqliteFileStorage.getTodoById, bind at 1.
  rewrite sqlite_ensureInit_run by auto. run.
  now destruct (Sql.select_by_id _ _).
Qed.

Lemma js_String_idem (v : value) : js_String (VStr (js_String v)) = js_String v.
Proof. unfold js_String at 1. simpl. apply string_list_ascii. Qed.

Lemma text_rowToTodo_stable (s : string) :
  js_or (VStr s) (VStr "") = VStr s.
Proof.
  unfold js_or. simpl. destruct (String.eqb_spec s ""); simpl; now subst.
Qed.

Lemma patch_or_empty_prop (patch : value) (k : string) :
  get_prop (patch_or_empty patch) k = get_prop patch k.
Proof. now destruct patch. Qed.

(** C4.  On both backends, updating an existing record with a patch returns
    a record with the identity and the creation stamp of the prior one, the
    update stamp set to the current time, and every one of [title],
    [description], [done] that the patch does not carry kept as it was;
    that record replaces the prior one in the store. *)
Theorem updateTodo_frame (env : Env) (id : string) (patch : value)
    (w : World) :
  patch <> VNull ->
  let now := clock env (ticks w) in
  (forall me existing,
     lookup_key id (FileStorage._map me) = Some existing ->
     can_persist env me ->
     let updated := merge_patch existing (patch_or_empty patch) now in
     update_frame existing patch now updated /\
     exists me' w',
       FileStorage.updateTodo env id patch (me, w)
       = (Ok (VObj updated), (me', w')) /\
       lookup_key id (FileStorage._map me') = Some (VObj updated)) /\
  (forall me r,
     SqliteFileStorage._inited me = true ->
     Sql.select_by_id id (SqliteFileStorage.rows me w) = Some r ->
     let existing := SqliteFileStorage._rowToTodo r in
     let updated := merge_patch existing (patch_or_empty patch) now in
     update_frame existing patch now updated /\
     exists w' r',
       SqliteFileStorage.updateTodo env id patch (me, w)
       = (Ok (VObj updated), (me, w')) /\
       Sql.select_by_id id (SqliteFileStorage.rows me w') = Some r' /\
       SqliteFileStorage._rowToTodo r' = VObj updated).
Proof.
  intros Hp now.
  assert (Hframe : forall existing,
             update_frame existing patch now
               (merge_patch existing (patch_or_empty patch) now)).
  { intros existing.
    destruct (merge_patch_frame existing (patch_or_empty patch) now)
      as (H1 & H2 & H3 & H4 & H5).
    repeat split; auto.
    intros k Hk Hu. apply H4; auto. now rewrite patch_or_empty_prop. }
  split.
  - intros me existing Hl Hc updated. split; [apply Hframe|].
    rewrite (file_updateTodo_found env id patch me w existing Hl Hp).
    fold now. fold updated.
    rewrite write_if_immediate_ok.
    + do 2 eexists. split; [reflexivity|].
      unfold settled. destruct (String.eqb _ _); simpl;
        apply lookup_set_key_eq.
    + intros Himm. simpl in Himm. rewrite ensured_mode in Himm.
      destruct (Hc Himm) as [Hr Hw]. split; auto. simpl.
      apply well_typed_set_key; auto.
      unfold has_createdAt. cbn [get_prop]. unfold updated.
      destruct (Hframe existing) as (_ & -> & _).
      apply (well_typed_lookup _ _ _ Hw Hl).
  - intros me r Hi Hsel existing updated. split; [apply Hframe|].
    unfold SqliteFileStorage.updateTodo, bind at 1.
    rewrite sqlite_ensureInit_run by auto.
    unfold bind at 1. rewrite sqlite_getTodoById_run by auto.
    rewrite Hsel. fold existing. cbn [truthy existing
      SqliteFileStorage._rowToTodo negb].
    run. fold now.
    assert (Hrun : forall p, p <> VNull -> patch_or_empty patch = p ->
      exists w' r',
        match p with
        | VNull => (Throw null_patch, (me, next_tick w))
        | _ =>
           (Ok (VObj (merge_patch existing p now)),
            (me, set_databases
               (<[SqliteFileStorage.filepath me :=
                   Sql.update
                     (Sql.text (prop (merge_patch existing p now) "title"))
                     (Sql.text (prop (merge_patch existing p now)
                                  "description"))
                     (if truthy (prop (merge_patch existing p now) "done")
                      then 1%Z else 0%Z)
                     (Sql.text (prop (merge_patch existing p now)
                                  "updatedAt"))
                     id (SqliteFileStorage.rows me (next_tick w))]>
                  (databases (next_tick w))) (next_tick w)))
        end = (Ok (VObj updated), (me, w')) /\
        Sql.select_by_id id (SqliteFileStorage.rows me w') = Some r' /\
        SqliteFileStorage._rowToTodo r' = VObj updated).
    { intros p Hpn Hpe. do 2 eexists. split.
      - subst updated. rewrite Hpe. destruct p; try congruence; reflexivity.
      - rewrite rows_store.
        change (SqliteFileStorage.rows me (next_tick w))
          with (SqliteFileStorage.rows me w).
        split; [apply select_by_id_update, Hsel|].
        subst updated. rewrite Hpe.
        unfold SqliteFileStorage._rowToTodo. cbn [r_id r_title r_description
          r_done r_created_at r_updated_at].
        rewrite !merge_patch_prop. cbn [String.eqb Ascii.eqb Bool.eqb].
        unfold merge_patch, assign, existing, SqliteFileStorage._rowToTodo.
        cbn [fold_left fst snd spread set_key String.eqb Ascii.eqb Bool.eqb
             get_prop prop lookup_key].
        rewrite !text_rowToTodo_stable.
        repeat f_equal.
        + now destruct (get_prop p "title").
        + now destruct (get_prop p "description").
        + destruct (get_prop p "done") as [| |b| | | |]; cbn [truthy];
            try (destruct ((r_done r =? 1)%Z); reflexivity).
          now destruct b. }
    destruct (Hrun (patch_or_empty patch)) as (w' & r' & H1 & H2 & H3);
      auto.
    { destruct patch; simpl; congruence. }
    exists w', r'. repeat split; auto.
    rewrite <- H1. destruct (patch_or_empty patch); reflexivity.
Qed.

Lemma updateTodo_frame_witness :
  exists w' r',
    SqliteFileStorage.updateTodo sample_env "todo-0"
      (VObj [("done", VBool true)]) (sample_sqlite true, sample_world)
    = (Ok (VObj (merge_patch (SqliteFileStorage._rowToTodo sample_row)
                   (VObj [("done", VBool true)]) "2024-05-01T10:00:00")),
       (sample_sqlite true, w'))
    /\ Sql.select_by_id "todo-0"
         (SqliteFileStorage.rows (sample_sqlite true) w') = Some r'.
Proof.
  assert (Hp : VObj [("done", VBool true)] <> VNull) by discriminate.
  destruct (updateTodo_frame sample_env "todo-0"
              (VObj [("done", VBool true)]) sample_world Hp) as [_ Hs].
  destruct (Hs (sample_sqlite true) sample_row eq_refl eq_refl)
    as (_ & w' & r' & Hrun & Hsel & _).
  exists w', r'. split; [exact Hrun | exact Hsel].
Defined.

(** ** Absent identifiers and deletion *)

Lemma file_getTodoById_run (id : string) (me : FileStorage.t) (w : World) :
  FileStorage.getTodoById id (me, w) =
  (Ok match lookup_key id (FileStorage._map me) with
      | Some todo => FileStorage._clone todo
      | None => VNull
      end, (ensured me, w)).
Proof.
  unfold FileStorage.getTodoById, bind at 1. rewrite ensureInit_run. run.
  rewrite ensured_map. now destruct (lookup_key _ _).
Qed.

Lemma file_deleteTodo_absent {medium : Medium} (env : Env) (id : string)
    (me : FileStorage.t) (w : World) :
  lookup_key id (FileStorage._map me) = None ->
  FileStorage.deleteTodo env id (me, w) = (Ok false, (ensured me, w)).
Proof.
  intros Hl. unfold FileStorage.deleteTodo, bind at 1.
  rewrite ensureInit_run. run. unfold has_key.
  now rewrite ensured_map, Hl.
Qed.

Lemma file_deleteTodo_found (env : Env) (id : string)
    (me : FileStorage.t) (w : World) :
  lookup_key id (FileStorage._map me) <> None ->
  let me1 :=
    FileStorage.set_dirty true
      (FileStorage.set_map (delete_key id (FileStorage._map me))
         (ensured me)) in
  FileStorage.deleteTodo env id (me, w) =
  match FileStorage.write_if_immediate env (me1, w) with
  | (Ok _, s) => (Ok true, s)
  | (Throw e, s) => (Throw e, s)
  end.
Proof.
  intros Hl me1. unfold FileStorage.deleteTodo, bind at 1.
  rewrite ensureInit_run. run. unfold has_key. rewrite !ensured_map.
  destruct (lookup_key id (FileStorage._map me)); [|congruence]. simpl.
  subst me1. rewrite ?ensured_map.
  match goal with
  | |- context [FileStorage.write_if_immediate env ?s] =>
      destruct (FileStorage.write_if_immediate env s) as [[|] ?]
  end; reflexivity.
Qed.

Lemma delete_absent (id : string) (tbl : list row) :
  Sql.select_by_id id tbl = None -> Sql.delete id tbl = (tbl, 0).
Proof.
  unfold Sql.delete, Sql.select_by_id. intros H.
  assert (Hk : List.filter (fun x => negb (String.eqb (r_id x) id)) tbl = tbl).
  { induction tbl as [|x t IH]; simpl in *; auto.
    destruct (String.eqb (r_id x) id); [discriminate|]. simpl.
    now rewrite IH. }
  rewrite Hk. now rewrite Nat.sub_diag.
Qed.

Lemma delete_found (id : string) (tbl : list row) (r : row) :
  Sql.select_by_id id tbl = Some r ->
  (0 <? snd (Sql.delete id tbl)) = true.
Proof.
  unfold Sql.delete, Sql.select_by_id. simpl. intros H.
  apply Nat.ltb_lt.
  induction tbl as [|x t IH]; simpl in *; [discriminate|].
  pose proof (List.filter_length_le
                (fun x => negb (String.eqb (r_id x) id)) t) as Hle.
  destruct (String.eqb (r_id x) id); simpl.
  - lia.
  - specialize (IH H). lia.
Qed.

Lemma select_after_delete (id : string) (tbl : list row) :
  Sql.select_by_id id (fst (Sql.delete id tbl)) = None.
Proof.
  unfold Sql.delete, Sql.select_by_id. simpl.
  induction tbl as [|x t IH]; simpl; auto.
  destruct (String.eqb (r_id x) id) eqn:E; simpl; auto. now rewrite E.
Qed.

Lemma sqlite_deleteTodo_run (id : string) (me : SqliteFileStorage.t)
    (w : World) :
  SqliteFileStorage._inited me = true ->
  SqliteFileStorage.deleteTodo id (me, w) =
  (Ok (0 <? snd (Sql.delete id (SqliteFileStorage.rows me w))),
   (me, set_databases
          (<[SqliteFileStorage.filepath me :=
               fst (Sql.delete id (SqliteFileStorage.rows me w))]>
             (databases w)) w)).
Proof.
  intros Hi. unfold SqliteFileStorage.deleteTodo, bind at 1.
  rewrite sqlite_ensureInit_run by auto. run.
  now destruct (Sql.delete id (SqliteFileStorage.rows me w)).
Qed.

Lemma sqlite_updateTodo_absent (env : Env) (id : string) (patch : value)
    (me : SqliteFileStorage.t) (w : World) :
  SqliteFileStorage._inited me = true ->
  Sql.select_by_id id (SqliteFileStorage.rows me w) = None ->
  SqliteFileStorage.updateTodo env id patch (me, w) = (Ok VNull, (me, w)).
Proof.
  intros Hi Hsel. unfold SqliteFileStorage.updateTodo, bind at 1.
  rewrite sqlite_ensureInit_run by auto.
  unfold bind at 1. rewrite sqlite_getTodoById_run by auto.
  now rewrite Hsel.
Qed.

(** C7.  For an id that is not in the store, [getTodoById] and [updateTodo]
    return [null] and [deleteTodo] returns [false], none of them throws, and
    the records of the store are unchanged.  For an id that is in the store
    [deleteTodo] returns [true], and [getTodoById] on that id then returns
    [null].  (The relational backend is initialised; in immediate mode the
    write of the deletion is not rejected.) *)
Theorem absent_id_sentinels (env : Env) (id : string) (patch : value)
    (w : World) :
  (forall me,
     lookup_key id (FileStorage._map me) = None ->
     FileStorage.getTodoById id (me, w) = (Ok VNull, (ensured me, w)) /\
     FileStorage.updateTodo env id patch (me, w)
     = (Ok VNull, (ensured me, w)) /\
     FileStorage.deleteTodo env id (me, w) = (Ok false, (ensured me, w)) /\
     FileStorage._map (ensured me) = FileStorage._map me) /\
  (forall me,
     SqliteFileStorage._inited me = true ->
     Sql.select_by_id id (SqliteFileStorage.rows me w) = None ->
     SqliteFileStorage.getTodoById id (me, w) = (Ok VNull, (me, w)) /\
     SqliteFileStorage.updateTodo env id patch (me, w)
     = (Ok VNull, (me, w)) /\
     exists w',
       SqliteFileStorage.deleteTodo id (me, w) = (Ok false, (me, w')) /\
       SqliteFileStorage.rows me w' = SqliteFileStorage.rows me w) /\
  (forall me,
     lookup_key id (FileStorage._map me) <> None -> can_persist env me ->
     exists me' w',
       FileStorage.deleteTodo env id (me, w) = (Ok true, (me', w')) /\
       fst (FileStorage.getTodoById id (me', w')) = Ok VNull) /\
  (forall me,
     SqliteFileStorage._inited me = true ->
     Sql.select_by_id id (SqliteFileStorage.rows me w) <> None ->
     exists w',
       SqliteFileStorage.deleteTodo id (me, w) = (Ok true, (me, w')) /\
       fst (SqliteFileStorage.getTodoById id (me, w')) = Ok VNull).
Proof.
  repeat split.
  - rewrite file_getTodoById_run. now rewrite H.
  - now apply file_updateTodo_absent.
  - now apply file_deleteTodo_absent.
  - apply ensured_map.
  - rewrite sqlite_getTodoById_run by auto. now rewrite H0.
  - now apply sqlite_updateTodo_absent.
  - eexists. rewrite sqlite_deleteTodo_run by auto.
    rewrite (delete_absent _ _ H0). simpl. split; [reflexivity|].
    apply rows_store.
  - intros me Hl Hc. rewrite (file_deleteTodo_found env id me w Hl).
    rewrite write_if_immediate_ok.
    + do 2 eexists. split; [reflexivity|].
      rewrite file_getTodoById_run. simpl.
      unfold settled. destruct (String.eqb _ _); simpl;
        now rewrite lookup_delete_key_eq.
    + intros Himm. simpl in Himm. rewrite ensured_mode in Himm.
      destruct (Hc Himm) as [Hr Hw]. split; auto. simpl.
      now apply well_typed_delete_key.
  - intros me Hi Hsel. eexists. rewrite sqlite_deleteTodo_run by auto.
    destruct (Sql.select_by_id id (SqliteFileStorage.rows me w)) as [r|] eqn:E;
      [|congruence].
    rewrite (delete_found _ _ _ E). split; [reflexivity|].
    rewrite sqlite_getTodoById_run by auto. rewrite rows_store.
    now rewrite select_after_delete.
Qed.

Lemma absent_id_sentinels_witness :
  exists w',
    SqliteFileStorage.deleteTodo "todo-0" (sample_sqlite true, sample_world)
    = (Ok true, (sample_sqlite true, w')) /\
    fst (SqliteFileStorage.getTodoById "todo-0" (sample_sqlite true, w'))
    = Ok VNull.
Proof.
  destruct (absent_id_sentinels sample_env "todo-0" VUndef sample_world)
    as (_ & _ & _ & Hs).
  apply (Hs (sample_sqlite true) eq_refl). discriminate.
Defined.

(** ** Listing *)

Lemma js_slice_page {A} (l : list A) (O L : Z) :
  (0 <= O)%Z -> (0 <= L)%Z ->
  js_slice l O (O + L) = firstn (Z.to_nat L) (skipn (Z.to_nat O) l).
Proof.
  intros HO HL. unfold js_slice, rel_index.
  destruct (Z.ltb_spec O 0); [lia|].
  destruct (Z.ltb_spec (O + L) 0); [lia|].
  set (len := Z.of_nat (length l)).
  destruct (Z.le_gt_cases len O) as [Hbig|Hsmall].
  - rewrite (skipn_all2 l) by (unfold len in *; lia).
    rewrite (skipn_all2 l) by (unfold len in *; lia).
    now rewrite !firstn_nil.
  - rewrite (Z.min_l O len) by lia.
    destruct (Z.le_gt_cases (O + L) len) as [Hin|Hout].
    + rewrite Z.min_l by lia. f_equal. lia.
    + rewrite Z.min_r by lia.
      rewrite !firstn_all2; auto; rewrite length_skipn; unfold len in *; lia.
Qed.

Lemma in_firstn {A} (x : A) (n : nat) (l : list A) :
  In x (firstn n l) -> In x l.
Proof.
  intros H. rewrite <- (firstn_skipn n l). apply in_or_app. now left.
Qed.

Lemma in_skipn {A} (x : A) (n : nat) (l : list A) :
  In x (skipn n l) -> In x l.
Proof.
  intros H. rewrite <- (firstn_skipn n l). apply in_or_app. now right.
Qed.

Lemma int64_spec (n : Z) :
  Sql.int64 n = true <-> (- 2 ^ 63 <= n < 2 ^ 63)%Z.
Proof.
  unfold Sql.int64. rewrite andb_true_iff, Z.leb_le, Z.ltb_lt. tauto.
Qed.

Lemma in_range_spec (n : Z) : in_range n = true <-> (0 <= n < 2 ^ 63)%Z.
Proof.
  unfold in_range. rewrite andb_true_iff, Z.leb_le, Z.ltb_lt. tauto.
Qed.

Lemma limit_offset_page (rows : list row) (O L : Z) :
  (0 <= O < 2 ^ 63)%Z -> (0 <= L < 2 ^ 63)%Z ->
  Sql.limit_offset L O rows
  = Ok (firstn (Z.to_nat L) (skipn (Z.to_nat O) rows)).
Proof.
  intros HO HL. unfold Sql.limit_offset.
  rewrite (proj2 (int64_spec L)), (proj2 (int64_spec O)) by lia.
  cbn [andb].
  destruct (Z.ltb_spec L 0); [lia|]. now rewrite Z.max_r by lia.
Qed.

Lemma well_typed_objects (m : list (string * value)) (v : value) :
  well_typed m -> In v (values m) -> FileStorage._clone v = v.
Proof.
  unfold well_typed. rewrite forallb_forall. intros Hm Hv.
  specialize (Hm v Hv). unfold has_createdAt in Hm.
  destruct v; simpl in Hm; try discriminate. reflexivity.
Qed.

Lemma map_clone_id (m : list (string * value)) (l : list value) :
  well_typed m -> (forall v, In v l -> In v (values m)) ->
  map FileStorage._clone l = l.
Proof.
  intros Hm Hl. induction l as [|v r IH]; simpl; auto.
  rewrite (well_typed_objects m v Hm), IH; auto.
  - intros x Hx. apply Hl. now right.
  - apply Hl. now left.
Qed.

Lemma file_getAllTodos_run (opts : ListOptions) (me : FileStorage.t)
    (w : World) :
  well_typed (FileStorage._map me) ->
  let full := sort_by createdAt (values (FileStorage._map me)) in
  FileStorage.getAllTodos opts (me, w) =
  (Ok match limit opts with
      | None => full
      | Some L => js_slice full (offset_or_0 opts) (offset_or_0 opts + L)
      end, (ensured me, w)).
Proof.
  intros Hm full. unfold FileStorage.getAllTodos, bind at 1.
  rewrite ensureInit_run. run. rewrite ensured_map, (sort_well_typed _ Hm).
  fold full. simpl.
  assert (Hfull : forall v, In v full -> In v (values (FileStorage._map me))).
  { intros v Hv. eapply Permutation_in; [apply sort_by_perm | exact Hv]. }
  destruct (limit opts) as [L|]; simpl.
  - rewrite (map_clone_id (FileStorage._map me)); auto.
    intros v Hv. apply Hfull. unfold js_slice in Hv.
    apply in_firstn in Hv. now apply in_skipn in Hv.
  - now rewrite (map_clone_id (FileStorage._map me)).
Qed.

Lemma sqlite_getAllTodos_run (opts : ListOptions) (me : SqliteFileStorage.t)
    (w : World) :
  SqliteFileStorage._inited me = true ->
  let sorted := Sql.select_all (SqliteFileStorage.rows me w) in
  SqliteFileStorage.getAllTodos opts (me, w) =
  (match limit opts with
   | Some L =>
       match Sql.limit_offset L (offset_or_0 opts) sorted with
       | Ok page => Ok (map SqliteFileStorage._rowToTodo page)
       | Throw e => Throw e
       end
   | None => Ok (map SqliteFileStorage._rowToTodo sorted)
   end, (me, w)).
Proof.
  intros Hi sorted. unfold SqliteFileStorage.getAllTodos, bind at 1.
  rewrite sqlite_ensureInit_run by auto. run. fold sorted.
  destruct (limit opts) as [L|]; [|reflexivity].
  now destruct (Sql.limit_offset L (offset_or_0 opts) sorted).
Qed.

Lemma createdAt_rowToTodo (r : row) :
  createdAt (SqliteFileStorage._rowToTodo r) = r_created_at r.
Proof. reflexivity. Qed.

Lemma StronglySorted_map {A B} (f : A -> B) (R : B -> B -> Prop)
    (l : list A) :
  StronglySorted (fun x y => R (f x) (f y)) l -> StronglySorted R (map f l).
Proof.
  induction 1 as [|x r Hr IH Hx]; simpl; constructor; auto.
  rewrite List.Forall_forall in *. intros y Hy.
  apply in_map_iff in Hy. destruct Hy as [z [<- Hz]]. auto.
Qed.

(** C6, as stated, fails: not every state of the store can be listed.
    [init] keeps every item of the file that has a string [id]; when two of
    them carry no [createdAt], the comparator of the File Backend throws
    and [getAllTodos] throws with it.  The Relational Backend lists nothing
    before [init], and its engine rejects a limit of [2^63]. *)
Lemma listing_needs_stamps :
  let opened :=
    FileStorage.init sample_env (sample_file "onClose", unstamped_world) in
  fst opened = Ok tt /\
  values (FileStorage._map (fst (snd opened))) = unstamped /\
  (exists message,
     fst (FileStorage.getAllTodos no_options (snd opened))
     = Throw (TypeError message)) /\
  (forall L O,
     is_ok (fst (FileStorage.getAllTodos
                   {| limit := Some L; offset := Some O |} (snd opened)))
     = false) /\
  fst (SqliteFileStorage.getAllTodos no_options
         (sample_sqlite false, morning_world))
  = Throw SqliteFileStorage.not_initialized /\
  fst (SqliteFileStorage.getAllTodos
         {| limit := Some (2 ^ 63)%Z; offset := Some 0%Z |}
         (sample_sqlite true, morning_world))
  = Throw Sql.mismatch.
Proof.
  split; [vm_compute; reflexivity|].
  split; [vm_compute; reflexivity|].
  split; [eexists; vm_compute; reflexivity|].
  split; [intros L O; reflexivity|].
  split; vm_compute; reflexivity.
Qed.

(** C6 (amended).  Of a File Backend whose records all carry a string
    [createdAt], and of an initialised Relational Backend, [getAllTodos()]
    returns all the records - in ascending order of [createdAt], which is
    stated for the File Backend of the stamps that [addTodo] gives - and
    with a limit [L] and an offset [O] that are not negative (and, for the
    Relational Backend, fit a 64-bit integer) it returns the slice
    [[O, O+L)] of that list. *)
Theorem getAllTodos_pages (w : World) :
  (forall me, well_typed (FileStorage._map me) ->
     exists full,
       FileStorage.getAllTodos no_options (me, w)
       = (Ok full, (ensured me, w)) /\
       Permutation full (values (FileStorage._map me)) /\
       (iso_stamped (FileStorage._map me) ->
        StronglySorted (key_le createdAt) full) /\
       forall L O, (0 <= L)%Z -> (0 <= O)%Z ->
         FileStorage.getAllTodos {| limit := Some L; offset := Some O |}
           (me, w)
         = (Ok (firstn (Z.to_nat L) (skipn (Z.to_nat O) full)),
            (ensured me, w))) /\
  (forall me, SqliteFileStorage._inited me = true ->
     exists full,
       SqliteFileStorage.getAllTodos no_options (me, w)
       = (Ok full, (me, w)) /\
       Permutation full
         (map SqliteFileStorage._rowToTodo (SqliteFileStorage.rows me w)) /\
       StronglySorted (key_le createdAt) full /\
       forall L O, (0 <= L < 2 ^ 63)%Z -> (0 <= O < 2 ^ 63)%Z ->
         SqliteFileStorage.getAllTodos {| limit := Some L; offset := Some O |}
           (me, w)
         = (Ok (firstn (Z.to_nat L) (skipn (Z.to_nat O) full)), (me, w))).
Proof.
  split.
  - intros me Hm.
    eexists. rewrite file_getAllTodos_run by auto. simpl.
    split; [reflexivity|]. split; [apply sort_by_perm|].
    split; [intros _; apply sort_by_sorted|].
    intros L O HL HO. rewrite file_getAllTodos_run by auto.
    cbn [limit offset_or_0 offset]. now rewrite js_slice_page.
  - intros me Hi. eexists. rewrite sqlite_getAllTodos_run by auto. simpl.
    split; [reflexivity|]. split.
    { apply Permutation_map, sort_by_perm. }
    split.
    { apply StronglySorted_map. apply sort_by_sorted. }
    intros L O HL HO. rewrite sqlite_getAllTodos_run by auto.
    cbn [limit offset_or_0 offset].
    rewrite limit_offset_page by auto.
    now rewrite skipn_map, firstn_map.
Qed.

Lemma getAllTodos_pages_witness :
  (FileStorage.getAllTodos no_options (morning_store "onClose", later_world)
   = (Ok [ iso_record "todo-0" "2024-05-01T10:00:00.000Z" "Buy milk";
           iso_record "todo-0i" "2024-05-01T11:00:00.000Z" "Walk";
           iso_record "todo-0ii" "2024-05-01T12:00:00.000Z" "Call" ],
      (morning_store "onClose", later_world)) /\
   FileStorage.getAllTodos {| limit := Some 1%Z; offset := Some 1%Z |}
     (morning_store "onClose", later_world)
   = (Ok [ iso_record "todo-0i" "2024-05-01T11:00:00.000Z" "Walk" ],
      (morning_store "onClose", later_world))) /\
  (SqliteFileStorage.getAllTodos no_options (sample_sqlite true, morning_world)
   = (Ok [ iso_record "todo-0" "2024-05-01T10:00:00.000Z" "Buy milk";
           iso_record "todo-0i" "2024-05-01T11:00:00.000Z" "Walk";
           iso_record "todo-0ii" "2024-05-01T12:00:00.000Z" "Call" ],
      (sample_sqlite true, morning_world)) /\
   SqliteFileStorage.getAllTodos {| limit := Some 5%Z; offset := Some 2%Z |}
     (sample_sqlite true, morning_world)
   = (Ok [ iso_record "todo-0ii" "2024-05-01T12:00:00.000Z" "Call" ],
      (sample_sqlite true, morning_world))).
Proof.
  destruct (getAllTodos_pages later_world) as [Hf _].
  destruct (getAllTodos_pages morning_world) as [_ Hs].
  destruct (Hf (morning_store "onClose") eq_refl)
    as (full & Hall & _ & _ & Hp).
  destruct (Hs (sample_sqlite true) eq_refl) as (rows & Hrows & _ & _ & Hq).
  split; split.
  - rewrite Hall. injection Hall as <-. reflexivity.
  - rewrite (Hp 1%Z 1%Z) by lia. injection Hall as <-. reflexivity.
  - rewrite Hrows. injection Hrows as <-. reflexivity.
  - rewrite (Hq 5%Z 2%Z) by lia. injection Hrows as <-. reflexivity.
Defined.

(** ** Titles after an update *)

(** C2.  An update that carries an empty title is stored as it is, on both
    backends: after it [getAllTodos] returns a record whose title is the
    empty string, which [addTodo] would have rejected. *)
Theorem update_blanks_title :
  observe (file_call sample_env) blank_title_calls
    (sample_file "onClose", empty_world)
  = [Ok VUndef; Ok sample_record; Ok blanked_record;
     Ok (VArr [blanked_record])] /\
  observe (sqlite_call sample_env) blank_title_calls
    (sample_sqlite false, empty_world)
  = [Ok VUndef; Ok sample_record; Ok blanked_record;
     Ok (VArr [blanked_record])] /\
  title_missing blanked_record = true.
Proof. repeat split; vm_compute; reflexivity. Qed.

(** ** The two backends before [init] *)

(** C1, as stated, fails.  Before [init] the File Backend answers a listing
    with the empty list, the Relational Backend throws; a negative limit
    drops the last record in the File Backend and is no limit in the
    Relational Backend; and a limit beyond the 64-bit integers lists
    everything in the File Backend and is rejected by the engine of the
    Relational Backend. *)
Lemma backends_differ_before_init :
  observe (file_call sample_env) [GetAllTodos no_options]
    (sample_file "onClose", empty_world)
  = [Ok (VArr [])] /\
  observe (sqlite_call sample_env) [GetAllTodos no_options]
    (sample_sqlite false, empty_world)
  = [Throw SqliteFileStorage.not_initialized] /\
  observe (file_call sample_env) [GetAllTodos no_options]
    (sample_file "onClose", empty_world)
  <> observe (sqlite_call sample_env) [GetAllTodos no_options]
       (sample_sqlite false, empty_world) /\
  observe (file_call sample_env) negative_limit_calls
    (sample_file "onClose", empty_world)
  <> observe (sqlite_call sample_env) negative_limit_calls
       (sample_sqlite false, empty_world) /\
  nth 3 (observe (sqlite_call sample_env) huge_limit_calls
           (sample_sqlite false, empty_world)) (Ok VUndef)
  = Throw Sql.mismatch /\
  observe (file_call sample_env) huge_limit_calls
    (sample_file "onClose", empty_world)
  <> observe (sqlite_call sample_env) huge_limit_calls
       (sample_sqlite false, empty_world).
Proof. repeat split; vm_compute; congruence. Qed.

(** ** Lazy initialisation *)

Lemma file_init_missing (env : Env) (me : FileStorage.t) (w : World) :
  FileStorage._inited me = false ->
  fault env (io w) = None -> fault env (S (io w)) = None ->
  files w !! FileStorage.filepath me = None ->
  FileStorage.init env (me, w) =
  (Ok tt,
   (FileStorage.set_dirty true
      (FileStorage.set_map [] (FileStorage.set_inited true me)),
    next_io (next_io w))).
Proof.
  intros Hi F0 F1 Hf. unfold FileStorage.init, FileStorage.start_empty. run.
  rewrite Hi. simpl. rewrite F0. simpl. rewrite F1. simpl. rewrite Hf.
  reflexivity.
Qed.





(** ** A rejected write in immediate mode *)

(** The write or the rename of the next [_writeToDisk] is rejected. *)
Lemma writeToDisk_rejected (env : Env) (me : FileStorage.t) (w : World)
    (code : string) :
  well_typed (FileStorage._map me) ->
  write_rejected env w code ->
  exists w',
    FileStorage._writeToDisk env (me, w) = (Throw (SystemError code), (me, w')).
Proof.
  intros Hm Hf. unfold FileStorage._writeToDisk. run.
  rewrite (sort_well_typed _ Hm). simpl.
  destruct Hf as [F0|[F0 F1]]; rewrite F0; simpl.
  - destruct (fault env (S (io w))); simpl; eexists; reflexivity.
  - rewrite lookup_insert_eq, F1. simpl.
    destruct (fault env (S (S (io w)))); simpl; eexists; reflexivity.
Qed.

Lemma write_if_immediate_rejected (env : Env) (me : FileStorage.t)
    (w : World) (code : string) :
  FileStorage.mode me = "immediate" ->
  well_typed (FileStorage._map me) ->
  write_rejected env w code ->
  exists w',
    FileStorage.write_if_immediate env (me, w)
    = (Throw (SystemError code), (me, w')).
Proof.
  intros Himm Hm Hf. unfold FileStorage.write_if_immediate. run.
  rewrite Himm. simpl. now apply writeToDisk_rejected.
Qed.

Lemma file_getAllTodos_in (me : FileStorage.t) (w : World) (v : value) :
  well_typed (FileStorage._map me) -> In v (values (FileStorage._map me)) ->
  exists all,
    fst (FileStorage.getAllTodos no_options (me, w)) = Ok all /\ In v all.
Proof.
  intros Hm Hv. eexists. rewrite file_getAllTodos_run by auto. simpl.
  split; [reflexivity|].
  eapply Permutation_in; [symmetry; apply sort_by_perm | exact Hv].
Qed.

Lemma values_set_key_new {A} (k : string) (a : A) (m : list (string * A)) :
  In a (values (set_key k a m)).
Proof.
  unfold values. induction m as [|[k' a'] r IH]; simpl; auto.
  destruct (String.eqb k k'); simpl; auto.
Qed.

(** C10.  In immediate mode, when the write that a mutation triggers is
    rejected, the operation throws that error, the mutation stays in memory
    with the dirty flag set, and [getTodoById] and [getAllTodos] on the same
    instance observe it. *)
Theorem rejected_write_keeps_mutation (env : Env) (me : FileStorage.t)
    (w : World) (code : string) :
  FileStorage.mode me = "immediate" ->
  well_typed (FileStorage._map me) ->
  (forall todoData,
     title_missing todoData = false ->
     write_rejected env (next_id (next_tick w)) code ->
     let id := uuid env (ids w) in
     let todo := VObj (new_todo id (clock env (ticks w)) todoData) in
     exists me' w',
       FileStorage.addTodo env todoData (me, w)
       = (Throw (SystemError code), (me', w')) /\
       FileStorage._dirty me' = true /\
       FileStorage._map me' = set_key id todo (FileStorage._map me) /\
       fst (FileStorage.getTodoById id (me', w')) = Ok todo /\
       exists all, fst (FileStorage.getAllTodos no_options (me', w')) = Ok all
                   /\ In todo all) /\
  (forall id patch existing,
     lookup_key id (FileStorage._map me) = Some existing ->
     patch <> VNull ->
     write_rejected env (next_tick w) code ->
     let updated :=
       VObj (merge_patch existing (patch_or_empty patch)
               (clock env (ticks w))) in
     exists me' w',
       FileStorage.updateTodo env id patch (me, w)
       = (Throw (SystemError code), (me', w')) /\
       FileStorage._dirty me' = true /\
       FileStorage._map me' = set_key id updated (FileStorage._map me) /\
       fst (FileStorage.getTodoById id (me', w')) = Ok updated /\
       exists all, fst (FileStorage.getAllTodos no_options (me', w')) = Ok all
                   /\ In updated all) /\
  (forall id existing,
     lookup_key id (FileStorage._map me) = Some existing ->
     write_rejected env w code ->
     exists me' w',
       FileStorage.deleteTodo env id (me, w)
       = (Throw (SystemError code), (me', w')) /\
       FileStorage._dirty me' = true /\
       FileStorage._map me' = delete_key id (FileStorage._map me) /\
       fst (FileStorage.getTodoById id (me', w')) = Ok VNull /\
       exists all, fst (FileStorage.getAllTodos no_options (me', w')) = Ok all
                   /\ Permutation all
                        (values (delete_key id (FileStorage._map me)))).
Proof.
  intros Himm Hm. split; [|split].
  - intros todoData Ht Hf id todo.
    rewrite (file_addTodo_valid env todoData me w Ht). fold id. fold todo.
    assert (Hm1 : well_typed (set_key id todo (FileStorage._map me))).
    { apply well_typed_set_key; auto. }
    edestruct (write_if_immediate_rejected env) as [w' ->]; [| |exact Hf|].
    + simpl. now rewrite ensured_mode.
    + exact Hm1.
    + do 2 eexists. split; [reflexivity|]. split; [reflexivity|].
      split; [reflexivity|]. split.
      * rewrite file_getTodoById_run. simpl. now rewrite lookup_set_key_eq.
      * apply file_getAllTodos_in; simpl; auto. apply values_set_key_new.
  - intros id patch existing Hl Hp Hf updated.
    rewrite (file_updateTodo_found env id patch me w existing Hl Hp).
    fold updated.
    assert (Hm1 : well_typed (set_key id updated (FileStorage._map me))).
    { apply well_typed_set_key; auto.
      unfold has_createdAt, updated. cbn [get_prop].
      destruct (merge_patch_frame existing (patch_or_empty patch)
                  (clock env (ticks w))) as (_ & -> & _).
      apply (well_typed_lookup _ _ _ Hm Hl). }
    edestruct (write_if_immediate_rejected env) as [w' ->]; [| |exact Hf|].
    + simpl. now rewrite ensured_mode.
    + exact Hm1.
    + do 2 eexists. split; [reflexivity|]. split; [reflexivity|].
      split; [reflexivity|]. split.
      * rewrite file_getTodoById_run. simpl. now rewrite lookup_set_key_eq.
      * apply file_getAllTodos_in; simpl; auto. apply values_set_key_new.
  - intros id existing Hl Hf.
    rewrite (file_deleteTodo_found env id me w) by congruence.
    assert (Hm1 : well_typed (delete_key id (FileStorage._map me))).
    { now apply well_typed_delete_key. }
    edestruct (write_if_immediate_rejected env) as [w' ->]; [| |exact Hf|].
    + simpl. now rewrite ensured_mode.
    + exact Hm1.
    + do 2 eexists. split; [reflexivity|]. split; [reflexivity|].
      split; [reflexivity|]. split.
      * rewrite file_getTodoById_run. simpl.
        now rewrite lookup_delete_key_eq.
      * eexists. rewrite file_getAllTodos_run by (simpl; auto). simpl.
        split; [reflexivity|]. apply sort_by_perm.
Qed.

Lemma rejected_write_keeps_mutation_witness :
  exists me' w',
    FileStorage.addTodo full_disk_env (VObj [("title", VStr "Buy milk")])
      (sample_file "immediate", empty_world)
    = (Throw (SystemError "ENOSPC"), (me', w')) /\
    FileStorage._dirty me' = true /\
    fst (FileStorage.getTodoById "todo-0" (me', w')) = Ok sample_record.
Proof.
  destruct (rejected_write_keeps_mutation full_disk_env
              (sample_file "immediate") empty_world "ENOSPC"
              eq_refl eq_refl) as [Hadd _].
  destruct (Hadd (VObj [("title", VStr "Buy milk")]) eq_refl)
    as (me' & w' & Hrun & Hd & _ & Hget & _).
  - left. reflexivity.
  - exists me', w'. repeat split; assumption.
Defined.

(** ** JSON text read back *)
Module JSONFacts.
Import JSON.

Lemma parse_chars_quote_char (c : ascii) (rest : list ascii) :
  parse_chars (quote_char c ++ rest) = cons_fst c (parse_chars rest).
Proof.
  destruct c as [[] [] [] [] [] [] [] []]; reflexivity.
Qed.

Lemma parse_chars_quote (cs rest : list ascii) :
  parse_chars (flat_map quote_char cs ++ "034"%char :: rest) = Some (cs, rest).
Proof.
  induction cs as [|c cs IH]; simpl; auto.
  rewrite <- app_assoc, parse_chars_quote_char, IH. reflexivity.
Qed.

Lemma skip_ws_app (ws cs : list ascii) :
  forallb is_ws ws = true -> skip_ws (ws ++ cs) = skip_ws cs.
Proof.
  induction ws as [|c ws IH]; simpl; auto.
  intros H. apply andb_true_iff in H. destruct H as [-> H]. auto.
Qed.

Lemma nl_ws (gap ind : nat) : forallb is_ws (nl gap ind) = true.
Proof.
  unfold nl. destruct (gap =? 0); simpl; auto.
  induction ind; simpl; auto.
Qed.

Lemma skip_ws_stop (c : ascii) (cs : list ascii) :
  is_ws c = false -> skip_ws (c :: cs) = c :: cs.
Proof. simpl. now intros ->. Qed.

Lemma serialize_scalar (gap ind : nat) (v : value) :
  scalar v = true -> serialize gap ind v = Some (scalar_text v).
Proof. destruct v as [| |[]| | | |]; simpl; auto; discriminate. Qed.

Lemma parse_scalar (fuel : nat) (v : value) (ws rest : list ascii) :
  scalar v = true -> forallb is_ws ws = true ->
  parse_value (S fuel) (ws ++ scalar_text v ++ rest) = Some (v, rest).
Proof.
  intros Hv Hws. cbn [parse_value]. rewrite skip_ws_app by auto.
  destruct v as [| |[]| |s| |]; try discriminate; simpl; auto.
  unfold quote. simpl. rewrite <- app_assoc. simpl.
  rewrite parse_chars_quote. now rewrite string_list_ascii.
Qed.

Lemma tail_text_concat (sep close : list ascii) (ps : list (list ascii)) :
  concat (map (fun q => sep ++ q) ps) ++ close = tail_text sep close ps.
Proof.
  induction ps as [|p ps IH]; simpl; auto.
  now rewrite <- !app_assoc, IH.
Qed.

Lemma bracket_cons (gap ind : nat) (l r : ascii) (p : list ascii)
    (ps : list (list ascii)) :
  bracket gap ind l r (p :: ps) =
  l :: nl gap (ind + gap) ++ p ++
    tail_text (","%char :: nl gap (ind + gap)) (nl gap ind ++ [r]) ps.
Proof.
  unfold bracket, join_with. f_equal. f_equal.
  now rewrite <- app_assoc, tail_text_concat.
Qed.

Lemma tail_text_length (sep close : list ascii) (ps : list (list ascii)) :
  sep <> [] -> length ps <= length (tail_text sep close ps).
Proof.
  intros Hsep. induction ps as [|p ps IH]; simpl; [lia|].
  rewrite !length_app. destruct sep; [congruence|]. simpl. lia.
Qed.

Lemma tail_text_app (sep close rest : list ascii) (ps : list (list ascii)) :
  tail_text sep close ps ++ rest = tail_text sep (close ++ rest) ps.
Proof.
  induction ps as [|p ps IH]; simpl; auto.
  now rewrite <- !app_assoc, IH.
Qed.

Lemma quote_app (k : string) (Y : list ascii) :
  quote k ++ Y =
  "034"%char :: flat_map quote_char (list_ascii_of_string k)
    ++ "034"%char :: Y.
Proof. unfold quote. simpl. now rewrite <- app_assoc. Qed.

Section Members.
Variable pv : list ascii -> option (value * list ascii).
Variable gap : nat.

Lemma parse_members_step (n : nat) (ws t X : list ascii) (k : string) :
  forallb is_ws ws = true ->
  parse_members pv (S n) (ws ++ member gap k t ++ X) =
  match pv ((if gap =? 0 then t else " "%char :: t) ++ X) with
  | Some (v, r3) =>
      match skip_ws r3 with
      | d :: r4 =>
          if nat_of_ascii d =? 44
          then cons_fst (k, v) (parse_members pv n r4)
          else if nat_of_ascii d =? 125 then Some ([(k, v)], r4)
          else None
      | [] => None
      end
  | None => None
  end.
Proof.
  intros Hws. cbn [parse_members]. rewrite skip_ws_app by auto.
  unfold member. rewrite <- app_assoc, quote_app.
  rewrite skip_ws_stop by reflexivity.
  change (nat_of_ascii "034" =? 34) with true. cbv iota.
  rewrite parse_chars_quote. cbn [app].
  rewrite skip_ws_stop by reflexivity.
  change (nat_of_ascii ":" =? 58) with true. cbv iota.
  now rewrite string_list_ascii.
Qed.

Hypothesis pv_scalar :
  forall v ws rest, scalar v = true -> forallb is_ws ws = true ->
    pv (ws ++ scalar_text v ++ rest) = Some (v, rest).

Lemma gap_space_ws : forallb is_ws (if gap =? 0 then [] else [" "%char]) = true.
Proof. now destruct (gap =? 0). Qed.

Lemma gap_text (t X : list ascii) :
  (if gap =? 0 then t else " "%char :: t) ++ X =
  (if gap =? 0 then [] else [" "%char]) ++ t ++ X.
Proof. now destruct (gap =? 0). Qed.

Lemma parse_members_fields (fields : obj) :
  forall k v ws n sepws closews rest,
    scalar v = true -> forallb scalar (values fields) = true ->
    length fields < n ->
    forallb is_ws ws = true -> forallb is_ws sepws = true ->
    forallb is_ws closews = true ->
    parse_members pv n
      (ws ++ member gap k (scalar_text v) ++
         tail_text (","%char :: sepws) (closews ++ "}"%char :: rest)
           (map (fun kv => member gap (fst kv) (scalar_text (snd kv)))
                fields))
    = Some ((k, v) :: fields, rest).
Proof.
  induction fields as [|[k' v'] fs IH];
    intros k v ws n sepws closews rest Hv Hfs Hn Hws Hsep Hclose;
    (destruct n as [|n]; [simpl in Hn; lia|]);
    rewrite parse_members_step by auto;
    rewrite gap_text;
    rewrite pv_scalar by (auto using gap_space_ws).
  - cbn [map tail_text]. rewrite skip_ws_app by auto.
    now rewrite skip_ws_stop by reflexivity.
  - cbn [map tail_text fst snd app].
    rewrite skip_ws_stop by reflexivity.
    change (nat_of_ascii "," =? 44) with true. cbv iota.
    simpl in Hfs. apply andb_true_iff in Hfs. destruct Hfs as [Hv' Hfs].
    rewrite IH; auto. simpl in Hn. lia.
Qed.
End Members.

Lemma set_key_fresh {A} (k : string) (a : A) (l : list (string * A)) :
  ~ In k (keys l) -> set_key k a l = l ++ [(k, a)].
Proof.
  unfold keys. induction l as [|[k' a'] r IH]; simpl; auto.
  intros H. destruct (String.eqb_spec k k') as [->|Hne].
  - exfalso. apply H. now left.
  - rewrite IH; auto.
Qed.

Lemma fold_set_key_fresh {A} (kvs acc : list (string * A)) :
  List.NoDup (keys (acc ++ kvs)) ->
  fold_left (fun o kv => set_key (fst kv) (snd kv) o) kvs acc = acc ++ kvs.
Proof.
  revert acc. induction kvs as [|[k a] r IH]; intros acc H; simpl.
  - now rewrite app_nil_r.
  - rewrite set_key_fresh.
    + rewrite IH; rewrite <- app_assoc; auto.
    + unfold keys in *. rewrite map_app in H. simpl in H.
      apply List.NoDup_remove_2 in H. intros Hin. apply H.
      apply in_or_app. now left.
Qed.

Lemma make_object_nodup (o : obj) :
  List.NoDup (keys o) -> make_object o = o.
Proof. intros H. apply (fold_set_key_fresh o []). exact H. Qed.

Lemma serialize_record (gap ind : nat) (o : obj) :
  forallb scalar (values o) = true ->
  serialize gap ind (VObj o) = Some (record_text gap ind o).
Proof.
  intros Ho. cbn [serialize]. unfold record_text. do 2 f_equal.
  induction o as [|[k v] r IH]; simpl; auto.
  simpl in Ho. apply andb_true_iff in Ho. destruct Ho as [Hv Hr].
  rewrite (serialize_scalar _ _ _ Hv). simpl. now rewrite IH.
Qed.

Lemma member_nonempty (gap : nat) (k : string) (t : list ascii) :
  1 <= length (member gap k t).
Proof. unfold member, quote. simpl. lia. Qed.

Lemma parse_value_object (fuel : nat) (ws r : list ascii) :
  forallb is_ws ws = true ->
  parse_value (S fuel) (ws ++ "{"%char :: r) =
  match skip_ws r with
  | d :: r' =>
      if nat_of_ascii d =? 125 then Some (VObj [], r')
      else
        match parse_members (parse_value fuel) (length r) r with
        | Some (kvs, r'') => Some (VObj (make_object kvs), r'')
        | None => None
        end
  | [] => None
  end.
Proof.
  intros Hws. cbn [parse_value]. rewrite skip_ws_app by auto.
  now rewrite skip_ws_stop by reflexivity.
Qed.

Lemma parse_value_array (fuel : nat) (ws r : list ascii) :
  forallb is_ws ws = true ->
  parse_value (S fuel) (ws ++ "["%char :: r) =
  match skip_ws r with
  | d :: r' =>
      if nat_of_ascii d =? 93 then Some (VArr [], r')
      else
        match parse_elements (parse_value fuel) (length r) r with
        | Some (vs, r'') => Some (VArr vs, r'')
        | None => None
        end
  | [] => None
  end.
Proof.
  intros Hws. cbn [parse_value]. rewrite skip_ws_app by auto.
  now rewrite skip_ws_stop by reflexivity.
Qed.

Lemma parse_value_array0 (fuel : nat) (r : list ascii) :
  parse_value (S fuel) ("["%char :: r) =
  match skip_ws r with
  | d :: r' =>
      if nat_of_ascii d =? 93 then Some (VArr [], r')
      else
        match parse_elements (parse_value fuel) (length r) r with
        | Some (vs, r'') => Some (VArr vs, r'')
        | None => None
        end
  | [] => None
  end.
Proof. exact (parse_value_array fuel [] r eq_refl). Qed.

Lemma skip_ws_member (gap : nat) (k : string) (t ws X : list ascii) :
  forallb is_ws ws = true ->
  exists Y, skip_ws (ws ++ member gap k t ++ X) = "034"%char :: Y.
Proof.
  intros Hws. rewrite skip_ws_app by auto. unfold member.
  rewrite <- app_assoc, quote_app. rewrite skip_ws_stop by reflexivity.
  eauto.
Qed.

(** A flat record is read back from its text, at any depth of
    indentation and after any white space. *)
Lemma parse_record (fuel gap ind : nat) (o : obj) (ws rest : list ascii) :
  flat_record (VObj o) -> forallb is_ws ws = true ->
  parse_value (S (S fuel)) (ws ++ record_text gap ind o ++ rest)
  = Some (VObj o, rest).
Proof.
  intros [Hnd Hsc] Hws.
  destruct o as [|[k v] fs].
  - unfold record_text. cbn [map bracket app].
    now rewrite parse_value_object.
  - unfold record_text. cbn [map fst snd]. rewrite bracket_cons.
    cbn [app]. rewrite parse_value_object by auto.
    rewrite <- !app_assoc, tail_text_app, <- app_assoc. cbn [app].
    destruct (skip_ws_member gap k (scalar_text v) (nl gap (ind + gap))
                (tail_text (","%char :: nl gap (ind + gap))
                   (nl gap ind ++ "}"%char :: rest)
                   (map (fun kv => member gap (fst kv) (scalar_text (snd kv)))
                      fs)) (nl_ws _ _)) as [Y ->].
    change (nat_of_ascii "034" =? 125) with false. cbv iota.
    simpl in Hsc. apply andb_true_iff in Hsc. destruct Hsc as [Hv Hfs].
    rewrite (parse_members_fields (parse_value (S fuel)) gap); auto.
    + now rewrite make_object_nodup.
    + intros. now apply parse_scalar.
    + rewrite !length_app.
      pose proof (member_nonempty gap k (scalar_text v)).
      pose proof (tail_text_length (","%char :: nl gap (ind + gap))
                    (nl gap ind ++ "}"%char :: rest)
                    (map (fun kv => member gap (fst kv) (scalar_text (snd kv)))
                       fs)) as Hlen.
      rewrite length_map in Hlen. specialize (Hlen ltac:(discriminate)).
      lia.
    + apply nl_ws.
    + apply nl_ws.
    + apply nl_ws.
Qed.

Section Elements.
Variable pv : list ascii -> option (value * list ascii).
Variables gap ind : nat.
Hypothesis pv_record :
  forall v ws rest, flat_record v -> forallb is_ws ws = true ->
    pv (ws ++ item_text gap ind v ++ rest) = Some (v, rest).

Lemma parse_elements_records (items : list value) :
  forall v ws n sepws closews rest,
    flat_record v -> List.Forall flat_record items ->
    length items < n ->
    forallb is_ws ws = true -> forallb is_ws sepws = true ->
    forallb is_ws closews = true ->
    parse_elements pv n
      (ws ++ item_text gap ind v ++
         tail_text (","%char :: sepws) (closews ++ "]"%char :: rest)
           (map (item_text gap ind) items))
    = Some (v :: items, rest).
Proof.
  induction items as [|v' vs IH];
    intros v ws n sepws closews rest Hv Hvs Hn Hws Hsep Hclose;
    (destruct n as [|n]; [simpl in Hn; lia|]);
    cbn [parse_elements]; rewrite pv_record by auto.
  - cbn [map tail_text]. rewrite skip_ws_app by auto.
    now rewrite skip_ws_stop by reflexivity.
  - cbn [map tail_text app].
    rewrite skip_ws_stop by reflexivity.
    change (nat_of_ascii "," =? 44) with true. cbv iota.
    inversion Hvs; subst.
    rewrite IH; auto. simpl in Hn. lia.
Qed.
End Elements.

Lemma item_text_record (gap ind : nat) (v : value) :
  flat_record v ->
  serialize gap ind v = Some (item_text gap ind v) /\
  exists Y, item_text gap ind v = "{"%char :: Y.
Proof.
  destruct v; simpl; try tauto. intros [Hnd Hsc].
  split; [now apply serialize_record|].
  unfold record_text, bracket.
  destruct (map _ fields); simpl; eauto.
Qed.

Lemma serialize_records (gap ind : nat) (arr : list value) :
  List.Forall flat_record arr ->
  serialize gap ind (VArr arr) =
  Some (bracket gap ind "["%char "]"%char
          (map (item_text gap (ind + gap)) arr)).
Proof.
  intros Harr. cbn [serialize]. do 2 f_equal.
  apply List.map_ext_in. intros v Hv.
  rewrite List.Forall_forall in Harr.
  now destruct (item_text_record gap (ind + gap) v (Harr v Hv)) as [-> _].
Qed.

(** The text of an array of flat records is read back as that array. *)
Lemma parse_array_text (fuel gap : nat) (arr : list value)
    (rest : list ascii) :
  List.Forall flat_record arr ->
  parse_value (S (S (S fuel)))
    (bracket gap 0 "["%char "]"%char (map (item_text gap (0 + gap)) arr)
       ++ rest)
  = Some (VArr arr, rest).
Proof.
  intros Harr. destruct arr as [|v vs].
  - cbn [map bracket app].
    now rewrite parse_value_array0.
  - inversion Harr as [|? ? Hv Hvs]; subst.
    cbn [map]. rewrite bracket_cons. cbn [app].
    rewrite parse_value_array0.
    rewrite <- !app_assoc, tail_text_app, <- app_assoc. cbn [app].
    destruct (item_text_record gap (0 + gap) v Hv) as [_ [Y HY]].
    rewrite skip_ws_app by apply nl_ws.
    rewrite HY at 1. cbn [app]. rewrite skip_ws_stop by reflexivity.
    change (nat_of_ascii "{" =? 93) with false. cbv iota.
    rewrite (parse_elements_records (parse_value (S (S fuel))) gap (0 + gap));
      auto using nl_ws.
    + intros x ws r Hx Hws. destruct x; simpl in Hx; try tauto.
      now apply parse_record.
    + rewrite !length_app.
      pose proof (tail_text_length (","%char :: nl gap (0 + gap))
                    (nl gap 0 ++ "]"%char :: rest)
                    (map (item_text gap (0 + gap)) vs)) as Hlen.
      rewrite length_map in Hlen. specialize (Hlen ltac:(discriminate)).
      rewrite HY. simpl in *. lia.
Qed.

Lemma list_ascii_app (s t : string) :
  list_ascii_of_string (s +:+ t)
  = list_ascii_of_string s ++ list_ascii_of_string t.
Proof. induction s as [|c s IH]; simpl; auto. now rewrite IH. Qed.

Lemma bracket_length (gap ind : nat) (l r : ascii) (ps : list (list ascii)) :
  2 <= length (bracket gap ind l r ps).
Proof.
  unfold bracket. destruct ps; simpl; [lia|].
  rewrite !length_app. simpl. lia.
Qed.

(** [JSON.parse] undoes [JSON.stringify] on an array of flat records, also
    when white space follows the text. *)
Lemma parse_stringify (gap : nat) (arr : list value) (trail : string) :
  List.Forall flat_record arr ->
  forallb is_ws (list_ascii_of_string trail) = true ->
  parse (stringify gap (VArr arr) +:+ trail) = Some (VArr arr).
Proof.
  intros Harr Htrail. unfold parse, stringify.
  rewrite (serialize_records gap 0 arr Harr).
  rewrite list_ascii_app, list_ascii_of_string_of_list_ascii.
  set (text := bracket gap 0 "["%char "]"%char _).
  pose proof (bracket_length gap 0 "["%char "]"%char
                (map (item_text gap (0 + gap)) arr)) as Hlen.
  fold text in Hlen.
  destruct (length (text ++ list_ascii_of_string trail)) as [|[|n]] eqn:E;
    try (rewrite length_app in E; lia).
  unfold text. rewrite parse_array_text by auto.
  rewrite <- (app_nil_r (list_ascii_of_string trail)).
  now rewrite skip_ws_app.
Qed.
End JSONFacts.

(** ** Closing and reopening the File Backend *)

Lemma trim_start_snoc (l : list ascii) (c : ascii) :
  is_js_space c = false -> exists l', trim_start (l ++ [c]) = l' ++ [c].
Proof.
  intros Hc. induction l as [|a l IH]; simpl.
  - rewrite Hc. now exists [].
  - destruct (is_js_space a); auto. now exists (a :: l).
Qed.

Lemma trim_keeps_head (s : string) (c : ascii) (rest : list ascii) :
  list_ascii_of_string s = c :: rest -> is_js_space c = false ->
  exists t, trim s = String c t.
Proof.
  intros Hs Hc. unfold trim. rewrite Hs. simpl. rewrite Hc. simpl.
  destruct (trim_start_snoc (rev rest) c Hc) as [l' ->].
  rewrite rev_app_distr. simpl. eauto.
Qed.

Lemma json_text_head (pretty : bool) (arr : list value) :
  exists rest, list_ascii_of_string (json_text pretty arr) = "["%char :: rest.
Proof.
  assert (H : forall gap, exists rest,
             list_ascii_of_string (JSON.stringify gap (VArr arr))
             = "["%char :: rest).
  { intros gap. unfold JSON.stringify. cbn [JSON.serialize].
    rewrite list_ascii_of_string_of_list_ascii.
    unfold JSON.bracket. destruct (map _ arr); simpl; eauto. }
  unfold json_text. destruct pretty.
  - destruct (H 2) as [rest Hr]. rewrite JSONFacts.list_ascii_app, Hr.
    simpl. eauto.
  - apply H.
Qed.

Lemma string_app_nil (s : string) : s +:+ "" = s.
Proof.
  induction s as [|c s IH]; [reflexivity|].
  change (String c (s +:+ "") = String c s). now rewrite IH.
Qed.

Lemma json_text_parse (pretty : bool) (arr : list value) :
  List.Forall flat_record arr ->
  JSON.parse (json_text pretty arr) = Some (VArr arr).
Proof.
  intros Harr. unfold json_text. destruct pretty.
  - now apply JSONFacts.parse_stringify.
  - rewrite <- (JSONFacts.parse_stringify 0 arr "" Harr eq_refl).
    now rewrite string_app_nil.
Qed.

Lemma load_entries (entries acc : list (string * value)) :
  List.NoDup (keys (acc ++ entries)) -> List.Forall entry_ok entries ->
  fold_left
    (fun map item =>
       match get_prop item "id" with
       | VStr id => if truthy item then set_key id item map else map
       | _ => map
       end) (values entries) acc
  = acc ++ entries.
Proof.
  revert acc. induction entries as [|[k v] r IH]; intros acc Hnd Hok; simpl.
  - now rewrite app_nil_r.
  - inversion Hok as [|? ? [Hflat [Hid _]] Hr]; subst. simpl in *.
    rewrite Hid. destruct v; simpl in Hflat; try tauto. simpl.
    rewrite JSONFacts.set_key_fresh.
    + rewrite IH; auto; rewrite <- app_assoc; auto.
    + unfold keys in *. rewrite map_app in Hnd. simpl in Hnd.
      apply List.NoDup_remove_2 in Hnd. intros Hin. apply Hnd.
      apply in_or_app. now left.
Qed.

Lemma load_values (entries : list (string * value)) :
  store_ok entries -> FileStorage.load (values entries) = entries.
Proof. intros [Hnd Hok]. now apply (load_entries entries []). Qed.

Lemma listed_perm (m : list (string * value)) : Permutation (listed m) m.
Proof. apply sort_by_perm. Qed.

Lemma values_listed (m : list (string * value)) :
  values (listed m) = sort_by createdAt (values m).
Proof.
  unfold values, listed. symmetry. now apply sort_by_map.
Qed.

Lemma store_ok_perm (m m' : list (string * value)) :
  Permutation m m' -> store_ok m -> store_ok m'.
Proof.
  intros Hp [Hnd Hok]. split.
  - unfold keys in *. eapply Permutation_NoDup; [|exact Hnd].
    now apply Permutation_map.
  - eapply Permutation_Forall; eauto.
Qed.

Lemma store_ok_listed (m : list (string * value)) :
  store_ok m -> store_ok (listed m).
Proof. apply store_ok_perm. symmetry. apply listed_perm. Qed.

Lemma store_ok_flat (m : list (string * value)) :
  store_ok m -> List.Forall flat_record (values m).
Proof.
  intros [_ Hok]. unfold values. apply List.Forall_map.
  eapply List.Forall_impl; [|exact Hok]. now intros kv [H _].
Qed.

Lemma store_ok_well_typed (m : list (string * value)) :
  store_ok m -> well_typed m.
Proof.
  intros [_ Hok]. unfold well_typed, values. apply forallb_forall.
  intros v Hv. apply in_map_iff in Hv. destruct Hv as [kv [<- Hkv]].
  rewrite List.Forall_forall in Hok. now destruct (Hok kv Hkv) as (_ & _ & H).
Qed.

Lemma listed_idem (m : list (string * value)) : listed (listed m) = listed m.
Proof. apply sort_by_sorted_id, sort_by_sorted. Qed.

(** [init] on a file that holds the records of [m]. *)
Lemma file_init_reload (env : Env) (me : FileStorage.t) (w : World)
    (m : list (string * value)) (pretty : bool) :
  FileStorage._inited me = false -> reliable env -> store_ok m ->
  files w !! FileStorage.filepath me
  = Some (json_text pretty (sort_by createdAt (values m))) ->
  FileStorage.init env (me, w) =
  (Ok tt,
   (FileStorage.set_dirty false
      (FileStorage.set_map (listed m) (FileStorage.set_inited true me)),
    next_io (next_io w))).
Proof.
  intros Hi Hr Hm Hf. unfold FileStorage.init, FileStorage.start_empty. run.
  rewrite Hi. simpl. rewrite !Hr. simpl. rewrite Hf.
  destruct (json_text_head pretty (sort_by createdAt (values m)))
    as [rest Hhead].
  destruct (trim_keeps_head _ _ _ Hhead eq_refl) as [t ->].
  assert (Hne : String.eqb (json_text pretty (sort_by createdAt (values m))) ""
                = false).
  { destruct (json_text pretty _); [discriminate | reflexivity]. }
  rewrite Hne. simpl.
  rewrite json_text_parse.
  - rewrite <- values_listed, load_values; auto using store_ok_listed.
  - rewrite <- values_listed. apply store_ok_flat, store_ok_listed, Hm.
Qed.

Lemma file_close_run (env : Env) (me : FileStorage.t) (w : World) :
  FileStorage._inited me = true -> reliable env ->
  well_typed (FileStorage._map me) ->
  FileStorage.close env (me, w) =
  (Ok tt,
   if String.eqb (FileStorage.mode me) "onClose" && FileStorage._dirty me
   then (FileStorage.set_inited false (FileStorage.set_dirty false me),
         written env me w)
   else (FileStorage.set_inited false me, w)).
Proof.
  intros Hi Hr Hm. unfold FileStorage.close. run. rewrite Hi. simpl.
  destruct (String.eqb (FileStorage.mode me) "onClose" && FileStorage._dirty me).
  - unfold bind. now rewrite writeToDisk_ok.
  - reflexivity.
Qed.

Lemma file_close_closed (env : Env) (me : FileStorage.t) (w : World) :
  FileStorage._inited me = false ->
  FileStorage.close env (me, w) = (Ok tt, (me, w)).
Proof. intros Hi. unfold FileStorage.close. run. now rewrite Hi. Qed.

Lemma file_init_open (env : Env) (me : FileStorage.t) (w : World) :
  FileStorage._inited me = true ->
  FileStorage.init env (me, w) = (Ok tt, (me, w)).
Proof. intros Hi. unfold FileStorage.init. run. now rewrite Hi. Qed.

(** ** One step of a session of the File Backend *)

Lemma ensured_open (me : FileStorage.t) :
  FileStorage._inited me = true -> ensured me = me.
Proof. unfold ensured. now intros ->. Qed.

Lemma new_todo_entry_ok (id now : string) (todoData : value) :
  title_missing todoData = false ->
  entry_ok (id, VObj (new_todo id now todoData)).
Proof.
  intros Ht. apply title_missing_spec in Ht. destruct Ht as [t [Ht _]].
  unfold entry_ok, new_todo. cbn [fst snd flat_record].
  split; [|split; reflexivity]. split.
  - unfold keys. cbn [map fst].
    repeat (constructor; [simpl; intuition discriminate|]). constructor.
  - unfold values. cbn [map snd forallb]. rewrite Ht.
    now destruct (get_prop todoData "description").
Qed.

Lemma keys_app {A} (l l' : list (string * A)) :
  keys (l ++ l') = keys l ++ keys l'.
Proof. unfold keys. apply map_app. Qed.

Lemma lookup_key_none {A} (k : string) (m : list (string * A)) :
  lookup_key k m = None <-> ~ In k (keys m).
Proof.
  unfold keys. induction m as [|[k' a] r IH]; simpl; [tauto|].
  destruct (String.eqb_spec k k') as [->|Hne].
  - split; [discriminate | intros H; exfalso; apply H; now left].
  - rewrite IH. split; intros H; [intros [?|?]; [congruence | tauto] | tauto].
Qed.

Lemma fresh_id (env : Env) (m : list (string * value)) (n : nat) :
  (forall i j, uuid env i = uuid env j -> i = j) ->
  (forall k, In k (keys m) -> exists j, j < n /\ k = uuid env j) ->
  ~ In (uuid env n) (keys m).
Proof.
  intros Hinj Hb Hin. destruct (Hb _ Hin) as [j [Hj He]].
  apply Hinj in He. lia.
Qed.

Lemma written_on_disk (env : Env) (me : FileStorage.t) (w : World) :
  files (written env me w) !! FileStorage.filepath me
  = Some (json_text (FileStorage.pretty me)
            (sort_by createdAt (values (FileStorage._map me)))).
Proof. unfold written. simpl. apply lookup_insert_eq. Qed.

(** What a mutation leaves, once its map is in place and marked dirty. *)
Lemma file_inv_mutated (env : Env) (me : FileStorage.t) (w : World)
    (m : list (string * value)) :
  FileStorage._inited me = true ->
  (FileStorage.mode me = "onClose" \/ FileStorage.mode me = "immediate") ->
  store_ok m ->
  (forall k, In k (keys m) -> exists j, j < ids w /\ k = uuid env j) ->
  let me1 := FileStorage.set_dirty true (FileStorage.set_map m me) in
  file_inv env (settled me1, persisted env me1 w).
Proof.
  intros Hi Hmode Hm Hb me1. unfold file_inv, settled, persisted.
  destruct (String.eqb_spec (FileStorage.mode me1) "immediate") as [E|E];
    cbn [fst snd]; simpl.
  - split; [exact Hm|]. split; [exact Hb|]. split; [exact Hmode|].
    intros _. left. eexists. apply (written_on_disk env me1 w).
  - split; [exact Hm|]. split; [exact Hb|]. split; [exact Hmode|].
    intros [H|[H|H]]; [|discriminate|congruence].
    simpl in E. congruence.
Qed.

Lemma file_add_step (env : Env) (todoData : value) (me : FileStorage.t)
    (w : World) :
  reliable env -> (forall i j, uuid env i = uuid env j -> i = j) ->
  file_inv env (me, w) -> FileStorage._inited me = true ->
  title_missing todoData = false ->
  let id := uuid env (ids w) in
  let todo := VObj (new_todo id (clock env (ticks w)) todoData) in
  let me1 :=
    FileStorage.set_dirty true
      (FileStorage.set_map (FileStorage._map me ++ [(id, todo)]) me) in
  FileStorage.addTodo env todoData (me, w) =
  (Ok todo, (settled me1, persisted env me1 (next_id (next_tick w)))) /\
  file_inv env (settled me1, persisted env me1 (next_id (next_tick w))).
Proof.
  intros Hr Hinj (Hstore & Hb & Hmode & Hdisk) Hi Ht id todo me1.
  cbn [fst snd] in *.
  assert (Hfresh : ~ In id (keys (FileStorage._map me)))
    by (apply fresh_id; auto).
  assert (Hstore1 : store_ok (FileStorage._map me ++ [(id, todo)])).
  { destruct Hstore as [Hnd Hok]. split.
    - rewrite keys_app. simpl.
      rewrite <- (rev_involutive (keys _ ++ [id])).
      apply NoDup_rev. rewrite rev_app_distr. simpl.
      constructor; [rewrite <- in_rev; auto | now apply NoDup_rev].
    - apply Forall_app. split; auto.
      constructor; [now apply new_todo_entry_ok | constructor]. }
  split.
  - rewrite (file_addTodo_valid env todoData me w Ht).
    fold id. fold todo. rewrite ensured_open by auto.
    rewrite JSONFacts.set_key_fresh by auto. fold me1.
    rewrite write_if_immediate_ok; [reflexivity|].
    intros _. split; auto. now apply store_ok_well_typed.
  - apply file_inv_mutated; [exact Hi | exact Hmode | exact Hstore1 |].
    intros k Hk. rewrite keys_app in Hk. apply in_app_or in Hk.
    simpl. destruct Hk as [Hk|[<-|[]]].
    + destruct (Hb k Hk) as [j [Hj He]]. exists j. split; [lia | auto].
    + exists (ids w). split; [lia | reflexivity].
Qed.

Lemma persisted_counters (env : Env) (me : FileStorage.t) (w : World) :
  ticks (persisted env me w) = ticks w /\ ids (persisted env me w) = ids w.
Proof. unfold persisted. now destruct (String.eqb _ _). Qed.

Lemma settled_fields (me : FileStorage.t) :
  FileStorage._map (settled me) = FileStorage._map me /\
  FileStorage._inited (settled me) = FileStorage._inited me /\
  FileStorage.filepath (settled me) = FileStorage.filepath me /\
  FileStorage.mode (settled me) = FileStorage.mode me.
Proof. unfold settled. now destruct (String.eqb _ _). Qed.

(** A run of creations from an open session. *)
Lemma file_run_adds (env : Env) (inputs : list value) :
  reliable env -> (forall i j, uuid env i = uuid env j -> i = j) ->
  forall me w,
    file_inv env (me, w) -> FileStorage._inited me = true ->
    forallb (fun d => negb (title_missing d)) inputs = true ->
    let added := added_records env (ticks w) (ids w) inputs in
    exists me' w',
      run_calls (file_call env) (map AddTodo inputs) (me, w)
      = (map Ok added, (me', w')) /\
      file_inv env (me', w') /\
      FileStorage._inited me' = true /\
      FileStorage.filepath me' = FileStorage.filepath me /\
      FileStorage._map me' = FileStorage._map me ++ map entry_of added.
Proof.
  intros Hr Hinj. induction inputs as [|d rest IH]; intros me w Hinv Hi Hv.
  - simpl. exists me, w. rewrite app_nil_r. auto.
  - simpl in Hv. apply andb_true_iff in Hv. destruct Hv as [Hd Hrest].
    apply negb_true_iff in Hd.
    destruct (file_add_step env d me w Hr Hinj Hinv Hi Hd) as [Hrun Hinv1].
    set (id := uuid env (ids w)) in *.
    set (todo := VObj (new_todo id (clock env (ticks w)) d)) in *.
    set (me1 := FileStorage.set_dirty true
                  (FileStorage.set_map (FileStorage._map me ++ [(id, todo)])
                     me)) in *.
    set (w1 := persisted env me1 (next_id (next_tick w))) in *.
    destruct (settled_fields me1) as (Hmap & Hinit & Hpath & _).
    destruct (persisted_counters env me1 (next_id (next_tick w)))
      as [Hticks Hids].
    destruct (IH (settled me1) w1 Hinv1) as (me' & w' & Hrun' & Hinv' & Hi'
                                               & Hp' & Hm'); auto.
    { now rewrite Hinit. }
    exists me', w'. cbn [map run_calls file_call added_records].
    change (ticks w1 = S (ticks w)) in Hticks.
    change (ids w1 = S (ids w)) in Hids.
    rewrite Hticks, Hids in Hrun', Hm'. rewrite Hrun, Hrun'.
    simpl. split; [reflexivity|]. split; [exact Hinv'|].
    split; [exact Hi'|]. split; [now rewrite Hp', Hpath|].
    rewrite Hm', Hmap. simpl. rewrite <- app_assoc. reflexivity.
Qed.

Lemma file_new_fresh (options : FileStorage.Options) (me : FileStorage.t) :
  FileStorage.new options = Ok me ->
  FileStorage._map me = [] /\ FileStorage._inited me = false /\
  FileStorage._dirty me = false /\
  (FileStorage.mode me = "onClose" \/ FileStorage.mode me = "immediate").
Proof.
  unfold FileStorage.new.
  destruct (negb _) eqn:E; [discriminate|]. intros [= <-]. simpl.
  repeat split; auto.
  apply negb_false_iff in E. simpl in E.
  rewrite orb_false_r in E. apply orb_true_iff in E.
  destruct E as [E|E]; apply String.eqb_eq in E; auto.
Qed.

Lemma values_entries (l : list value) : values (map entry_of l) = l.
Proof.
  unfold values. rewrite map_map. simpl. apply map_id.
Qed.

Lemma run_calls_app {S : Type} (step : call -> M S value)
    (cs cs' : list call) (s : S) :
  run_calls step (cs ++ cs') s =
  let (os, s') := run_calls step cs s in
  let (os', s'') := run_calls step cs' s' in
  (os ++ os', s'').
Proof.
  revert s. induction cs as [|c cs IH]; intros s; simpl.
  - now destruct (run_calls step cs' s).
  - destruct (step c s) as [o s1]. rewrite IH.
    destruct (run_calls step cs s1) as [os s2].
    now destruct (run_calls step cs' s2).
Qed.

(** C8.  Records added to a File Backend that started without a file are all
    there, field for field, after [close()] and the [init()] of a fresh
    instance on the same path: the new instance holds exactly the records
    that the [addTodo] calls returned, and lists them in creation order. *)
Theorem file_round_trip (env : Env) (optionsA optionsB : FileStorage.Options)
    (a b : FileStorage.t) (w : World) (inputs : list value) :
  reliable env -> (forall i j, uuid env i = uuid env j -> i = j) ->
  FileStorage.new optionsA = Ok a -> FileStorage.new optionsB = Ok b ->
  FileStorage.filepath b = FileStorage.filepath a ->
  files w !! FileStorage.filepath a = None ->
  forallb (fun d => negb (title_missing d)) inputs = true ->
  let added := added_records env (ticks w) (ids w) inputs in
  exists a' w1 b' w2,
    run_calls (file_call env) (Init :: map AddTodo inputs ++ [Close]) (a, w)
    = (Ok VUndef :: map Ok added ++ [Ok VUndef], (a', w1)) /\
    FileStorage.init env (b, w1) = (Ok tt, (b', w2)) /\
    length added = length inputs /\
    Permutation (values (FileStorage._map b')) added /\
    FileStorage.getAllTodos no_options (b', w2)
    = (Ok (sort_by createdAt added), (b', w2)).
Proof.
  intros Hr Hinj Ha Hb Hpath Hfile Hvalid added.
  destruct (file_new_fresh _ _ Ha) as (Hma & Hia & Hda & Hmode).
  destruct (file_new_fresh _ _ Hb) as (Hmb & Hib & Hdb & _).
  (* init *)
  pose proof (file_init_missing env a w Hia (Hr _) (Hr _) Hfile) as Hinit.
  set (a0 := FileStorage.set_dirty true
               (FileStorage.set_map [] (FileStorage.set_inited true a))) in *.
  set (w0 := next_io (next_io w)) in *.
  assert (Hinv0 : file_inv env (a0, w0)).
  { split; [split; constructor|]. split; [intros k []|].
    split; [exact Hmode|]. intros _. right. split; [reflexivity | exact Hfile]. }
  (* the creations *)
  destruct (file_run_adds env inputs Hr Hinj a0 w0 Hinv0 eq_refl Hvalid)
    as (a1 & w1 & Hrun & Hinv1 & Hi1 & Hp1 & Hm1).
  change (ticks w0) with (ticks w) in Hrun, Hm1.
  change (ids w0) with (ids w) in Hrun, Hm1. fold added in Hrun, Hm1.
  simpl in Hm1.
  destruct Hinv1 as (Hstore1 & Hb1 & Hmode1 & Hdisk1). cbn [fst snd] in *.
  (* close *)
  pose proof (file_close_run env a1 w1 Hi1 Hr (store_ok_well_typed _ Hstore1))
    as Hclose.
  set (closed := if String.eqb (FileStorage.mode a1) "onClose"
                    && FileStorage._dirty a1
                 then (FileStorage.set_inited false
                         (FileStorage.set_dirty false a1), written env a1 w1)
                 else (FileStorage.set_inited false a1, w1)) in *.
  assert (Hon : FileStorage._map (fst closed) = FileStorage._map a1 /\
                FileStorage.filepath (fst closed) = FileStorage.filepath a1 /\
                on_disk (fst closed) (snd closed)).
  { unfold closed.
    destruct (String.eqb_spec (FileStorage.mode a1) "onClose") as [E|E];
      destruct (FileStorage._dirty a1) eqn:Ed; cbn [andb fst snd];
      (split; [reflexivity|]); (split; [reflexivity|]).
    - left. eexists. apply (written_on_disk env a1 w1).
    - apply Hdisk1. auto.
    - apply Hdisk1. destruct Hmode1; [congruence | auto].
    - apply Hdisk1. auto. }
  destruct closed as [a2 w2] eqn:Eclosed. cbn [fst snd] in Hon.
  destruct Hon as (Hm2 & Hp2 & Hdisk2).
  (* reopening *)
  assert (Hb' : exists b' w3,
             FileStorage.init env (b, w2) = (Ok tt, (b', w3)) /\
             FileStorage._map b' = listed (FileStorage._map a1) /\
             FileStorage._inited b' = true).
  { destruct Hdisk2 as [[p Hf]|[Hempty Hf]].
    - rewrite Hm2, Hp2, Hp1 in Hf. change (FileStorage.filepath a0)
        with (FileStorage.filepath a) in Hf. rewrite <- Hpath in Hf.
      do 2 eexists. rewrite (file_init_reload env b w2 _ p Hib Hr Hstore1 Hf).
      split; [reflexivity|]. split; reflexivity.
    - rewrite Hp2, Hp1 in Hf. change (FileStorage.filepath a0)
        with (FileStorage.filepath a) in Hf. rewrite <- Hpath in Hf.
      do 2 eexists.
      rewrite (file_init_missing env b w2 Hib (Hr _) (Hr _) Hf).
      split; [reflexivity|]. rewrite <- Hm2, Hempty. split; reflexivity. }
  destruct Hb' as (b' & w3 & Hinitb & Hmb' & Hib').
  exists a2, w2, b', w3.
  split.
  { assert (H1 : run_calls (file_call env) [Init] (a, w)
                  = ([Ok VUndef], (a0, w0))).
    { cbn [run_calls file_call]. unfold bind. now rewrite Hinit. }
    assert (H2 : run_calls (file_call env) [Close] (a1, w1)
                  = ([Ok VUndef], (a2, w2))).
    { cbn [run_calls file_call]. unfold bind. now rewrite Hclose. }
    change (Init :: map AddTodo inputs ++ [Close])
      with ([Init] ++ map AddTodo inputs ++ [Close]).
    now rewrite run_calls_app, H1, run_calls_app, Hrun, H2. }
  split; [exact Hinitb|].
  assert (Hlen : forall t i, length (added_records env t i inputs)
                             = length inputs).
  { clear. induction inputs; intros; simpl; auto. }
  split; [apply Hlen|].
  assert (Hvals : values (FileStorage._map a1) = added).
  { rewrite Hm1. apply values_entries. }
  split.
  { rewrite Hmb', values_listed, Hvals. apply sort_by_perm. }
  rewrite file_getAllTodos_run.
  - rewrite ensured_open by auto. cbn [limit no_options].
    rewrite Hmb', values_listed, Hvals.
    now rewrite sort_by_sorted_id by apply sort_by_sorted.
  - rewrite Hmb'. apply store_ok_well_typed, store_ok_listed, Hstore1.
Qed.

Lemma tally_length (n : nat) : String.length (tally n) = n.
Proof. induction n; simpl; auto. Qed.

Lemma sample_uuid_injective (i j : nat) :
  uuid sample_env i = uuid sample_env j -> i = j.
Proof.
  simpl. intros H. apply (f_equal String.length) in H.
  change (String.length ("todo-0" +:+ tally i)) with
    (6 + String.length (tally i)) in H.
  change (String.length ("todo-0" +:+ tally j)) with
    (6 + String.length (tally j)) in H.
  rewrite !tally_length in H. lia.
Qed.

Lemma sample_env_reliable : reliable sample_env.
Proof. intros n. reflexivity. Qed.

Lemma file_round_trip_witness :
  exists a' w1 b' w2,
    run_calls (file_call sample_env)
      [Init; AddTodo (VObj [("title", VStr "Buy milk")]); Close]
      (sample_file "onClose", empty_world)
    = ([Ok VUndef; Ok sample_record; Ok VUndef], (a', w1)) /\
    FileStorage.init sample_env (sample_file "immediate", w1)
    = (Ok tt, (b', w2)) /\
    Permutation (values (FileStorage._map b')) [sample_record].
Proof.
  destruct (file_round_trip sample_env
              {| FileStorage.opt_filepath := None;
                 FileStorage.opt_pretty := None;
                 FileStorage.opt_mode := None |}
              {| FileStorage.opt_filepath := None;
                 FileStorage.opt_pretty := None;
                 FileStorage.opt_mode := Some "immediate" |}
              (sample_file "onClose") (sample_file "immediate") empty_world
              [VObj [("title", VStr "Buy milk")]]
              sample_env_reliable sample_uuid_injective
              eq_refl eq_refl eq_refl eq_refl eq_refl)
    as (a' & w1 & b' & w2 & Hrun & Hinit & _ & Hperm & _).
  exists a', w1, b', w2. repeat split; assumption.
Defined.

(** ** The two backends side by side *)

Lemma lookup_key_perm {A} (k : string) (l l' : list (string * A)) :
  Permutation l l' -> List.NoDup (keys l) ->
  lookup_key k l = lookup_key k l'.
Proof.
  unfold keys. induction 1 as [|[k1 a1] l l' Hp IH|[k1 a1] [k2 a2] l|l l' l'' H1 IH1 H2 IH2];
    intros Hnd; simpl in *; auto.
  - inversion Hnd; subst. destruct (String.eqb k k1); auto.
  - inversion Hnd as [|? ? Hnot _]; subst.
    destruct (String.eqb_spec k k1) as [->|]; auto.
    destruct (String.eqb_spec k1 k2) as [->|]; auto.
    exfalso. apply Hnot. now left.
  - rewrite IH1 by auto. apply IH2.
    eapply Permutation_NoDup; [|exact Hnd]. now apply Permutation_map.
Qed.

Lemma lookup_entries (id : string) (rows : list row) :
  lookup_key id (map entry_of_row rows)
  = option_map SqliteFileStorage._rowToTodo (Sql.select_by_id id rows).
Proof.
  unfold Sql.select_by_id. induction rows as [|r t IH]; simpl; auto.
  rewrite (String.eqb_sym id). destruct (String.eqb (r_id r) id); auto.
Qed.

Lemma select_as_lookup (id : string) (rows : list row) :
  Sql.select_by_id id rows
  = lookup_key id (map (fun r => (r_id r, r)) rows).
Proof.
  unfold Sql.select_by_id. induction rows as [|r t IH]; simpl; auto.
  rewrite (String.eqb_sym id). destruct (String.eqb (r_id r) id); auto.
Qed.

Lemma select_by_id_perm (id : string) (rows rows' : list row) :
  Permutation rows rows' -> List.NoDup (map r_id rows) ->
  Sql.select_by_id id rows = Sql.select_by_id id rows'.
Proof.
  intros Hp Hnd. rewrite !select_as_lookup. apply lookup_key_perm.
  - now apply Permutation_map.
  - unfold keys. rewrite map_map. exact Hnd.
Qed.

Lemma keys_entries (rows : list row) :
  keys (map entry_of_row rows) = map r_id rows.
Proof. unfold keys. rewrite map_map. reflexivity. Qed.

(** The rows have distinct ids when the entries have distinct keys. *)
Lemma rows_nodup (m : list (string * value)) (rows : list row) :
  List.NoDup (keys m) ->
  listed m = map entry_of_row (Sql.select_all rows) ->
  List.NoDup (map r_id rows).
Proof.
  intros Hnd Hl.
  assert (H : List.NoDup (map r_id (Sql.select_all rows))).
  { rewrite <- keys_entries, <- Hl. unfold keys.
    eapply Permutation_NoDup; [|exact Hnd].
    apply Permutation_map. symmetry. apply listed_perm. }
  eapply Permutation_NoDup; [|exact H].
  apply Permutation_map. apply sort_by_perm.
Qed.

(** A record is in the map exactly when its row is in the table. *)
Lemma sim_lookup (id : string) (m : list (string * value)) (rows : list row) :
  List.NoDup (keys m) ->
  listed m = map entry_of_row (Sql.select_all rows) ->
  lookup_key id m
  = option_map SqliteFileStorage._rowToTodo (Sql.select_by_id id rows).
Proof.
  intros Hnd Hl.
  rewrite (lookup_key_perm id m (listed m)); auto.
  - rewrite Hl, lookup_entries. f_equal. symmetry.
    apply select_by_id_perm; [symmetry; apply sort_by_perm|].
    eapply rows_nodup; eauto.
  - symmetry. apply listed_perm.
Qed.

Lemma sim_values (m : list (string * value)) (rows : list row) :
  listed m = map entry_of_row (Sql.select_all rows) ->
  sort_by createdAt (values m)
  = map SqliteFileStorage._rowToTodo (Sql.select_all rows).
Proof.
  intros Hl. rewrite <- values_listed, Hl. unfold values.
  now rewrite map_map.
Qed.

Lemma entry_of_row_ok (r : row) : entry_ok (entry_of_row r).
Proof.
  unfold entry_ok, entry_of_row. cbn [fst snd].
  split; [|split; reflexivity]. split.
  - unfold keys. cbn [map fst].
    repeat (constructor; [simpl; intuition discriminate|]). constructor.
  - unfold values. cbn [map snd forallb scalar].
    now rewrite text_rowToTodo_stable.
Qed.

(** *** Creation *)

Lemma rowToTodo_insert_params (id now : string) (todoData : value) :
  title_missing todoData = false ->
  entry_of_row (SqliteFileStorage.insert_params (new_todo id now todoData))
  = (id, VObj (new_todo id now todoData)).
Proof.
  intros Ht. apply title_missing_spec in Ht. destruct Ht as [t [Ht _]].
  unfold entry_of_row, SqliteFileStorage._rowToTodo,
    SqliteFileStorage.insert_params, new_todo, prop.
  cbn [lookup_key String.eqb Ascii.eqb Bool.eqb r_id r_title r_description
       r_done r_created_at r_updated_at Sql.text].
  rewrite Ht. cbn [Sql.text]. f_equal. f_equal. f_equal. f_equal.
  f_equal; [|f_equal].
  - destruct (get_prop todoData "description"); cbn [Sql.text];
      now rewrite text_rowToTodo_stable.
  - cbn [truthy]. now destruct (truthy (get_prop todoData "done")).
Qed.

Lemma sim_add (m : list (string * value)) (rows : list row)
    (e : string * value) (r : row) :
  listed m = map entry_of_row (Sql.select_all rows) ->
  entry_of_row r = e ->
  listed (m ++ [e]) = map entry_of_row (Sql.select_all (rows ++ [r])).
Proof.
  intros Hl <-. unfold listed, Sql.select_all in *.
  rewrite !sort_by_snoc, Hl.
  apply (insert_last_map r_created_at entry_stamp entry_of_row); auto.
Qed.

Lemma sqlite_addTodo_run (env : Env) (todoData : value)
    (me : SqliteFileStorage.t) (w : World) :
  SqliteFileStorage._inited me = true ->
  title_missing todoData = false ->
  Sql.select_by_id (uuid env (ids w)) (SqliteFileStorage.rows me w) = None ->
  let todo := new_todo (uuid env (ids w)) (clock env (ticks w)) todoData in
  SqliteFileStorage.addTodo env todoData (me, w) =
  (Ok (VObj todo),
   (me, set_databases
          (<[SqliteFileStorage.filepath me :=
               SqliteFileStorage.rows me w
                 ++ [SqliteFileStorage.insert_params todo]]> (databases w))
          (next_id (next_tick w)))).
Proof.
  intros Hi Ht Hfresh todo.
  unfold SqliteFileStorage.addTodo, bind at 1.
  rewrite (sqlite_ensureInit_run me w Hi), Ht. run.
  fold todo. unfold Sql.insert.
  change (SqliteFileStorage.rows me (next_id (next_tick w)))
    with (SqliteFileStorage.rows me w).
  change (r_id (SqliteFileStorage.insert_params todo))
    with (uuid env (ids w)).
  now rewrite (select_by_id_fresh _ _ Hfresh).
Qed.

Lemma sqlite_addTodo_invalid (env : Env) (todoData : value)
    (me : SqliteFileStorage.t) (w : World) :
  SqliteFileStorage._inited me = true ->
  title_missing todoData = true ->
  SqliteFileStorage.addTodo env todoData (me, w)
  = (Throw title_required, (me, w)).
Proof.
  intros Hi Ht. unfold SqliteFileStorage.addTodo, bind at 1.
  now rewrite (sqlite_ensureInit_run me w Hi), Ht.
Qed.

(** *** Update *)

Lemma rowToTodo_updated_row (r : row) (patch : value) (now : string) :
  let updated := merge_patch (SqliteFileStorage._rowToTodo r) patch now in
  SqliteFileStorage._rowToTodo (updated_row updated r) = VObj updated.
Proof.
  intros updated. subst updated.
  unfold SqliteFileStorage._rowToTodo, updated_row.
  cbn [r_id r_title r_description r_done r_created_at r_updated_at].
  rewrite !merge_patch_prop. cbn [String.eqb Ascii.eqb Bool.eqb].
  unfold merge_patch, assign.
  cbn [fold_left fst snd spread set_key String.eqb Ascii.eqb Bool.eqb
       get_prop prop lookup_key].
  rewrite !text_rowToTodo_stable.
  repeat f_equal.
  - now destruct (get_prop patch "title").
  - now destruct (get_prop patch "description").
  - destruct (get_prop patch "done") as [| |b| | | |]; cbn [truthy];
      try (destruct ((r_done r =? 1)%Z); reflexivity).
    now destruct b.
Qed.

Lemma sqlite_updateTodo_found (env : Env) (id : string) (patch : value)
    (me : SqliteFileStorage.t) (w : World) (r : row) :
  SqliteFileStorage._inited me = true ->
  Sql.select_by_id id (SqliteFileStorage.rows me w) = Some r ->
  let updated :=
    merge_patch (SqliteFileStorage._rowToTodo r) (patch_or_empty patch)
      (clock env (ticks w)) in
  SqliteFileStorage.updateTodo env id patch (me, w) =
  match patch with
  | VNull => (Throw null_patch, (me, next_tick w))
  | _ =>
      (Ok (VObj updated),
       (me, set_databases
              (<[SqliteFileStorage.filepath me :=
                   map (fun x => if String.eqb (r_id x) id
                                 then updated_row updated x else x)
                       (SqliteFileStorage.rows me w)]> (databases w))
              (next_tick w)))
  end.
Proof.
  intros Hi Hsel updated.
  unfold SqliteFileStorage.updateTodo, bind at 1.
  rewrite sqlite_ensureInit_run by auto.
  unfold bind at 1. rewrite sqlite_getTodoById_run by auto.
  rewrite Hsel. cbn [truthy SqliteFileStorage._rowToTodo negb].
  run. subst updated. destruct patch; reflexivity.
Qed.

Lemma map_replace_absent (id : string) (v : value)
    (m : list (string * value)) :
  ~ In id (keys m) -> map (replace_entry id v) m = m.
Proof.
  unfold keys. induction m as [|[k a] r IH]; simpl; auto.
  intros H. unfold replace_entry at 1. cbn [fst].
  destruct (String.eqb_spec id k) as [->|].
  - exfalso. apply H. now left.
  - rewrite IH; auto.
Qed.

Lemma set_key_replace (id : string) (v : value) (m : list (string * value)) :
  List.NoDup (keys m) -> In id (keys m) ->
  set_key id v m = map (replace_entry id v) m.
Proof.
  unfold keys. induction m as [|[k a] r IH]; simpl; [tauto|].
  intros Hnd Hin. inversion Hnd as [|? ? Hnot Hnd']; subst.
  unfold replace_entry at 1. cbn [fst].
  destruct (String.eqb_spec id k) as [->|Hne].
  - now rewrite map_replace_absent.
  - rewrite IH; auto. destruct Hin; congruence.
Qed.

Lemma lookup_key_some_in {A} (k : string) (a : A) (m : list (string * A)) :
  lookup_key k m = Some a -> In (k, a) m.
Proof.
  induction m as [|[k' a'] r IH]; simpl; [discriminate|].
  destruct (String.eqb_spec k k') as [->|].
  - intros [= ->]. now left.
  - auto.
Qed.

Lemma lookup_key_unique {A} (k : string) (a : A) (m : list (string * A)) :
  List.NoDup (keys m) -> In (k, a) m -> lookup_key k m = Some a.
Proof.
  unfold keys. induction m as [|[k' a'] r IH]; simpl; [tauto|].
  intros Hnd [[= -> ->]|Hin].
  - now rewrite String.eqb_refl.
  - inversion Hnd as [|? ? Hnot Hnd']; subst.
    destruct (String.eqb_spec k k') as [->|]; auto.
    exfalso. apply Hnot. apply in_map_iff. now exists (k', a).
Qed.

Lemma select_by_id_unique (id : string) (rows : list row) (r r0 : row) :
  List.NoDup (map r_id rows) -> In r rows -> r_id r = id ->
  Sql.select_by_id id rows = Some r0 -> r = r0.
Proof.
  intros Hnd Hin Hid Hsel. rewrite select_as_lookup in Hsel.
  assert (H : lookup_key id (map (fun x => (r_id x, x)) rows) = Some r).
  { apply lookup_key_unique.
    - unfold keys. now rewrite map_map.
    - apply in_map_iff. exists r. now rewrite Hid. }
  congruence.
Qed.

Lemma sim_update (id : string) (patch : value) (now : string)
    (m : list (string * value)) (rows : list row) (r0 : row) :
  List.NoDup (keys m) ->
  listed m = map entry_of_row (Sql.select_all rows) ->
  Sql.select_by_id id rows = Some r0 ->
  let updated := merge_patch (SqliteFileStorage._rowToTodo r0) patch now in
  listed (set_key id (VObj updated) m)
  = map entry_of_row
      (Sql.select_all
         (map (fun x => if String.eqb (r_id x) id
                        then updated_row updated x else x) rows)).
Proof.
  intros Hnd Hl Hsel updated.
  assert (Hlook : lookup_key id m = Some (SqliteFileStorage._rowToTodo r0)).
  { rewrite (sim_lookup id m rows Hnd Hl), Hsel. reflexivity. }
  assert (Hrows : List.NoDup (map r_id rows)) by (eapply rows_nodup; eauto).
  rewrite set_key_replace; auto.
  2:{ apply lookup_key_some_in in Hlook.
      apply in_map_iff. now exists (id, SqliteFileStorage._rowToTodo r0). }
  unfold listed, Sql.select_all in *.
  rewrite (sort_by_map entry_stamp entry_stamp).
  2:{ intros [k v] Hin. unfold replace_entry, entry_stamp. cbn [fst snd].
      destruct (String.eqb_spec id k) as [<-|]; auto. cbn [snd].
      rewrite (lookup_key_unique id v m Hnd Hin) in Hlook.
      injection Hlook as ->. unfold createdAt. cbn [get_prop].
      unfold updated. now rewrite merge_patch_prop. }
  rewrite (sort_by_map r_created_at r_created_at).
  2:{ intros y _. now destruct (String.eqb (r_id y) id). }
  rewrite Hl, !map_map. apply List.map_ext_in. intros r Hr.
  unfold replace_entry, entry_of_row. cbn [fst snd].
  rewrite (String.eqb_sym id).
  destruct (String.eqb_spec (r_id r) id) as [Hid|]; auto.
  cbn [updated_row r_id]. f_equal.
  assert (r = r0).
  { eapply select_by_id_unique; eauto.
    eapply Permutation_in; [apply sort_by_perm | exact Hr]. }
  subst r. symmetry. apply rowToTodo_updated_row.
Qed.

(** *** Deletion *)

Lemma delete_key_filter {A} (id : string) (m : list (string * A)) :
  delete_key id m
  = List.filter (fun kv => negb (String.eqb id (fst kv))) m.
Proof.
  induction m as [|[k a] r IH]; simpl; auto.
  destruct (String.eqb id k); simpl; now rewrite IH.
Qed.

Lemma filter_map_comm {A B} (f : A -> B) (p : B -> bool) (q : A -> bool)
    (l : list A) :
  (forall x, p (f x) = q x) ->
  List.filter p (map f l) = map f (List.filter q l).
Proof.
  intros H. induction l as [|x r IH]; simpl; auto.
  rewrite H. destruct (q x); simpl; now rewrite IH.
Qed.

Lemma sim_delete (id : string) (m : list (string * value))
    (rows : list row) :
  listed m = map entry_of_row (Sql.select_all rows) ->
  listed (delete_key id m)
  = map entry_of_row (Sql.select_all (fst (Sql.delete id rows))).
Proof.
  intros Hl. rewrite delete_key_filter. unfold Sql.delete. cbn [fst].
  unfold listed, Sql.select_all in *.
  rewrite !sort_by_filter, Hl.
  apply filter_map_comm. intros r. cbn [entry_of_row fst].
  now rewrite String.eqb_sym.
Qed.

(** *** Opening and closing *)

Lemma sqlite_init_closed (env : Env) (me : SqliteFileStorage.t) (w : World) :
  SqliteFileStorage._inited me = false -> reliable env ->
  exists w',
    SqliteFileStorage.init env (me, w) =
    (Ok tt, (SqliteFileStorage.set_inited true
               (SqliteFileStorage.set_db true me), w')) /\
    SqliteFileStorage.rows me w' = SqliteFileStorage.rows me w /\
    ticks w' = ticks w /\ ids w' = ids w.
Proof.
  intros Hi Hr. unfold SqliteFileStorage.init, SqliteFileStorage.open,
    SqliteFileStorage._exec. run.
  rewrite Hi. simpl. rewrite !Hr. simpl.
  destruct (files w !! SqliteFileStorage.schemaPath me); simpl;
    rewrite !Hr; simpl;
    (eexists; split; [reflexivity|]); (split; [|split; reflexivity]);
    unfold SqliteFileStorage.rows; simpl; now rewrite lookup_insert_eq.
Qed.

Lemma sqlite_init_open (env : Env) (me : SqliteFileStorage.t) (w : World) :
  SqliteFileStorage._inited me = true ->
  SqliteFileStorage.init env (me, w) = (Ok tt, (me, w)).
Proof. intros Hi. unfold SqliteFileStorage.init. run. now rewrite Hi. Qed.

Lemma sqlite_close_run (me : SqliteFileStorage.t) (w : World) :
  SqliteFileStorage.close (me, w) =
  (Ok tt,
   (if SqliteFileStorage.db me
    then SqliteFileStorage.set_inited false (SqliteFileStorage.set_db false me)
    else me, w)).
Proof.
  unfold SqliteFileStorage.close. run.
  now destruct (SqliteFileStorage.db me).
Qed.

(** *** The relation is kept *)

Lemma store_ok_of_listed (m : list (string * value)) (rows : list row) :
  List.NoDup (keys m) ->
  listed m = map entry_of_row (Sql.select_all rows) ->
  store_ok m.
Proof.
  intros Hnd Hl. split; auto.
  eapply Permutation_Forall; [apply listed_perm|].
  rewrite Hl. apply List.Forall_forall. intros kv Hkv.
  apply in_map_iff in Hkv. destruct Hkv as [r [<- _]].
  apply entry_of_row_ok.
Qed.

Lemma sim_mutated (env : Env) (fme : FileStorage.t) (fw' : World)
    (sme : SqliteFileStorage.t) (sw' : World) (d : gmap path (list row))
    (m' : list (string * value)) (rows' : list row) :
  FileStorage._inited fme = true ->
  (FileStorage.mode fme = "onClose" \/ FileStorage.mode fme = "immediate") ->
  SqliteFileStorage._inited sme = true -> SqliteFileStorage.db sme = true ->
  List.NoDup (keys m') ->
  (forall k, In k (keys m') -> exists j, j < ids fw' /\ k = uuid env j) ->
  listed m' = map entry_of_row (Sql.select_all rows') ->
  ticks fw' = ticks sw' -> ids fw' = ids sw' ->
  let me1 := FileStorage.set_dirty true (FileStorage.set_map m' fme) in
  sim env (settled me1, persisted env me1 fw')
    (sme, set_databases (<[SqliteFileStorage.filepath sme := rows']> d) sw').
Proof.
  intros Hi Hmode Hsi Hdb Hnd Hb Hl Ht Hids me1.
  assert (Hstore : store_ok m') by (eapply store_ok_of_listed; eauto).
  destruct (settled_fields me1) as (Hmap & Hinit & _ & _).
  destruct (persisted_counters env me1 fw') as [Hticks Hid].
  unfold sim. cbn [fst snd].
  split; [now apply file_inv_mutated|].
  rewrite Hticks, Hid, Hmap, Hinit, rows_store. simpl.
  repeat split; auto; congruence.
Qed.

Lemma keys_replace (id : string) (v : value) (m : list (string * value)) :
  keys (map (replace_entry id v) m) = keys m.
Proof.
  unfold keys. rewrite map_map. apply List.map_ext. intros [k a].
  unfold replace_entry. cbn [fst]. now destruct (String.eqb id k).
Qed.

Lemma keys_delete_key (id : string) (m : list (string * value)) :
  keys (delete_key id m)
  = List.filter (fun k => negb (String.eqb id k)) (keys m).
Proof.
  unfold keys. induction m as [|[k a] r IH]; simpl; auto.
  destruct (String.eqb id k); simpl; now rewrite IH.
Qed.

(** *** One call on both backends *)

Lemma value_eq_null (v : value) : v = VNull \/ v <> VNull.
Proof. destruct v; auto; right; discriminate. Qed.

Section Step.
Variable env : Env.
Hypothesis Hrel : reliable env.
Hypothesis Hinj : forall i j, uuid env i = uuid env j -> i = j.
Variables (fme : FileStorage.t) (fw : World).
Variables (sme : SqliteFileStorage.t) (sw : World).
Hypothesis Hsim : sim env (fme, fw) (sme, sw).

Lemma agree_init : agree env Init (fme, fw) (sme, sw).
Proof.
  destruct Hsim as ((Hstore & Hb & Hmode & Hdisk) & Ht & Hids & Hflag & Hdb
                    & Hl). cbn [fst snd] in *.
  unfold agree, file_call, sqlite_call, bind.
  destruct (FileStorage._inited fme) eqn:Hi.
  - rewrite file_init_open, sqlite_init_open by auto. cbn [fst snd ret].
    rewrite Hi. split; [reflexivity|]. split; [exact Hsim | reflexivity].
  - destruct (sqlite_init_closed env sme sw (eq_sym Hflag) Hrel)
      as (sw' & -> & Hrows & Hticks & Hids').
    assert (Hnew : forall dirty p,
      (dirty = false ->
       files fw !! FileStorage.filepath fme
       = Some (json_text p (sort_by createdAt
                              (values (FileStorage._map fme))))) ->
      (dirty = true ->
       FileStorage._map fme = [] /\
       files fw !! FileStorage.filepath fme = None) ->
      sim env
        (FileStorage.set_dirty dirty
           (FileStorage.set_map (listed (FileStorage._map fme))
              (FileStorage.set_inited true fme)), next_io (next_io fw))
        (SqliteFileStorage.set_inited true
           (SqliteFileStorage.set_db true sme), sw')).
    { intros dirty p Hclean Hdirty. unfold sim. cbn [fst snd]. simpl.
      change (SqliteFileStorage.rows
                (SqliteFileStorage.set_inited true
                   (SqliteFileStorage.set_db true sme)) sw')
        with (SqliteFileStorage.rows sme sw').
      rewrite Hrows, listed_idem, Hticks, Hids'.
      repeat split; auto.
      - now apply store_ok_listed.
      - apply store_ok_listed, Hstore.
      - intros k Hk. apply Hb. unfold keys in *.
        eapply Permutation_in; [|exact Hk].
        apply Permutation_map, listed_perm.
      - unfold on_disk. simpl. destruct dirty.
        + destruct (Hdirty eq_refl) as [-> Hnone]. intros _. now right.
        + intros _. left. exists p. rewrite values_listed.
          rewrite sort_by_sorted_id by apply sort_by_sorted.
          now apply Hclean. }
    destruct Hdisk as [[p Hf]|[Hempty Hf]]; auto.
    + rewrite (file_init_reload env fme fw _ p Hi Hrel Hstore Hf).
      cbn [fst snd ret]. split; [reflexivity|]. split; [|reflexivity].
      apply (Hnew false p); [auto | discriminate].
    + rewrite (file_init_missing env fme fw Hi (Hrel _) (Hrel _) Hf).
      cbn [fst snd ret]. split; [reflexivity|]. split; [|reflexivity].
      replace [] with (listed (FileStorage._map fme)) by now rewrite Hempty.
      apply (Hnew true true); [discriminate | auto].
Qed.

Lemma agree_close : agree env Close (fme, fw) (sme, sw).
Proof.
  destruct Hsim as ((Hstore & Hb & Hmode & Hdisk) & Ht & Hids & Hflag & Hdb
                    & Hl). cbn [fst snd] in *.
  unfold agree, file_call, sqlite_call, bind.
  rewrite sqlite_close_run, Hdb, <- Hflag.
  destruct (FileStorage._inited fme) eqn:Hi.
  - rewrite (file_close_run env fme fw Hi Hrel (store_ok_well_typed _ Hstore)).
    cbn [fst snd ret]. split; [reflexivity|].
    destruct (String.eqb_spec (FileStorage.mode fme) "onClose") as [E|E];
      destruct (FileStorage._dirty fme) eqn:Ed; cbn [andb fst snd];
      (split; [|reflexivity]); unfold sim, file_inv; cbn [fst snd]; simpl;
      (split; [split; [exact Hstore|]; split; [exact Hb|];
               split; [exact Hmode|]; intros _ | repeat split; auto]).
    + left. eexists. apply (written_on_disk env fme fw).
    + apply Hdisk. auto.
    + apply Hdisk. destruct Hmode; [congruence | auto].
    + apply Hdisk. auto.
  - rewrite file_close_closed by auto. cbn [fst snd ret].
    rewrite Hi. split; [reflexivity|]. split; [exact Hsim | reflexivity].
Qed.

Lemma sim_fresh_id :
  FileStorage._inited fme = true ->
  Sql.select_by_id (uuid env (ids sw)) (SqliteFileStorage.rows sme sw) = None.
Proof.
  destruct Hsim as ((Hstore & Hb & Hmode & Hdisk) & Ht & Hids & Hflag & Hdb
                    & Hl). cbn [fst snd] in *. intros Hi.
  pose proof (sim_lookup (uuid env (ids sw)) _ _ (proj1 Hstore) Hl) as Hlook.
  rewrite (proj2 (lookup_key_none _ _)) in Hlook.
  - now destruct (Sql.select_by_id _ _).
  - rewrite <- Hids. now apply fresh_id.
Qed.

Lemma agree_add (todoData : value) :
  FileStorage._inited fme = true ->
  agree env (AddTodo todoData) (fme, fw) (sme, sw).
Proof.
  intros Hi. pose proof (sim_fresh_id Hi) as Hfresh.
  destruct Hsim as (Hinv & Ht & Hids & Hflag & Hdb & Hl).
  cbn [fst snd] in *. rewrite Hi in Hflag.
  unfold agree, file_call, sqlite_call.
  destruct (title_missing todoData) eqn:Hv.
  - rewrite file_addTodo_invalid, sqlite_addTodo_invalid by auto.
    rewrite ensured_open by auto. cbn [fst snd opened_after].
    split; [reflexivity|]. split; [exact Hsim | reflexivity].
  - destruct (file_add_step env todoData fme fw Hrel Hinj Hinv Hi Hv)
      as [-> _].
    rewrite sqlite_addTodo_run by auto. rewrite <- Ht, <- Hids.
    cbn [fst snd opened_after]. split; [reflexivity|].
    destruct Hinv as (Hstore & Hb & Hmode & Hdisk). cbn [fst snd] in *.
    split.
    + apply sim_mutated;
        [ exact Hi | exact Hmode | now symmetry | congruence
        | | | | simpl; congruence | simpl; congruence ].
      * rewrite keys_app. simpl.
        rewrite <- (rev_involutive (keys _ ++ [_])).
        apply NoDup_rev. rewrite rev_app_distr. simpl.
        constructor; [rewrite <- in_rev; now apply fresh_id
                     | apply NoDup_rev, Hstore].
      * intros k Hk. rewrite keys_app in Hk. apply in_app_or in Hk.
        simpl. destruct Hk as [Hk|[<-|[]]].
        -- destruct (Hb k Hk) as [j [Hj He]]. exists j. split; [lia | auto].
        -- exists (ids fw). split; [lia | reflexivity].
      * apply sim_add; auto. now apply rowToTodo_insert_params.
    + destruct (settled_fields
                  (FileStorage.set_dirty true
                     (FileStorage.set_map
                        (FileStorage._map fme ++
                         [(uuid env (ids fw),
                           VObj (new_todo (uuid env (ids fw))
                                   (clock env (ticks fw)) todoData))]) fme)))
        as (_ & -> & _). reflexivity.
Qed.

Lemma agree_getAll (opts : ListOptions) :
  FileStorage._inited fme = true -> page_ok opts = true ->
  agree env (GetAllTodos opts) (fme, fw) (sme, sw).
Proof.
  intros Hi Hpage.
  destruct Hsim as ((Hstore & Hb & Hmode & Hdisk) & Ht & Hids & Hflag & Hdb
                    & Hl). cbn [fst snd] in *. rewrite Hi in Hflag.
  unfold agree, file_call, sqlite_call, bind.
  rewrite file_getAllTodos_run by now apply store_ok_well_typed.
  rewrite sqlite_getAllTodos_run by auto.
  rewrite ensured_open by auto. unfold page_ok in Hpage.
  destruct (limit opts) as [L|].
  - apply andb_true_iff in Hpage. destruct Hpage as [HL HO].
    apply in_range_spec in HL. apply in_range_spec in HO.
    rewrite limit_offset_page by lia. cbn [fst snd ret opened_after].
    split; [|split; [exact Hsim | reflexivity]].
    rewrite (sim_values _ _ Hl), js_slice_page by lia.
    now rewrite skipn_map, firstn_map.
  - cbn [fst snd ret opened_after].
    split; [|split; [exact Hsim | reflexivity]].
    now rewrite (sim_values _ _ Hl).
Qed.

Lemma agree_getById (id : string) :
  FileStorage._inited fme = true ->
  agree env (GetTodoById id) (fme, fw) (sme, sw).
Proof.
  intros Hi.
  destruct Hsim as ((Hstore & Hb & Hmode & Hdisk) & Ht & Hids & Hflag & Hdb
                    & Hl). cbn [fst snd] in *. rewrite Hi in Hflag.
  unfold agree, file_call, sqlite_call.
  rewrite file_getTodoById_run, sqlite_getTodoById_run by auto.
  rewrite ensured_open by auto. cbn [fst snd opened_after].
  split; [|split; [exact Hsim | reflexivity]].
  rewrite (sim_lookup id _ _ (proj1 Hstore) Hl).
  now destruct (Sql.select_by_id _ _).
Qed.

Lemma sim_tick :
  sim env (fme, next_tick fw) (sme, next_tick sw).
Proof.
  destruct Hsim as ((Hstore & Hb & Hmode & Hdisk) & Ht & Hids & Hflag & Hdb
                    & Hl). cbn [fst snd] in *.
  unfold sim, file_inv. cbn [fst snd]. simpl.
  split; [split; [exact Hstore|]; split; [exact Hb|];
          split; [exact Hmode | exact Hdisk]|].
  repeat split; auto; congruence.
Qed.

Lemma file_updateTodo_null (id : string) (existing : value) :
  FileStorage._inited fme = true ->
  lookup_key id (FileStorage._map fme) = Some existing ->
  FileStorage.updateTodo env id VNull (fme, fw)
  = (Throw null_patch, (fme, next_tick fw)).
Proof.
  intros Hi Hlook. unfold FileStorage.updateTodo, bind at 1.
  rewrite ensureInit_run, ensured_open by auto. run. now rewrite Hlook.
Qed.

Lemma agree_update (id : string) (patch : value) :
  FileStorage._inited fme = true ->
  agree env (UpdateTodo id patch) (fme, fw) (sme, sw).
Proof.
  intros Hi. pose proof sim_tick as Htick.
  destruct Hsim as ((Hstore & Hb & Hmode & Hdisk) & Ht & Hids & Hflag & Hdb
                    & Hl). cbn [fst snd] in *. rewrite Hi in Hflag.
  unfold agree, file_call, sqlite_call.
  pose proof (sim_lookup id _ _ (proj1 Hstore) Hl) as Hlook.
  destruct (Sql.select_by_id id (SqliteFileStorage.rows sme sw))
    as [r0|] eqn:Hsel; cbn [option_map] in Hlook.
  - rewrite (sqlite_updateTodo_found env id patch sme sw r0) by auto.
    destruct (value_eq_null patch) as [->|Hp].
    + rewrite (file_updateTodo_null id _ Hi Hlook).
      cbn [fst snd opened_after].
      split; [reflexivity|]. split; [exact Htick | reflexivity].
    + rewrite (file_updateTodo_found env id patch fme fw _ Hlook Hp).
      rewrite ensured_open by auto.
      set (updated := merge_patch (SqliteFileStorage._rowToTodo r0)
                        (patch_or_empty patch) (clock env (ticks fw))).
      assert (Hin : In id (keys (FileStorage._map fme))).
      { apply lookup_key_some_in in Hlook. apply in_map_iff.
        now exists (id, SqliteFileStorage._rowToTodo r0). }
      assert (Hkeys : keys (set_key id (VObj updated) (FileStorage._map fme))
                      = keys (FileStorage._map fme)).
      { rewrite set_key_replace by (auto; apply Hstore).
        apply keys_replace. }
      assert (Hl' : listed (set_key id (VObj updated) (FileStorage._map fme))
                    = map entry_of_row
                        (Sql.select_all
                           (map (fun x => if String.eqb (r_id x) id
                                          then updated_row updated x else x)
                              (SqliteFileStorage.rows sme sw)))).
      { apply sim_update; auto. apply Hstore. }
      assert (Hnd' : List.NoDup
                       (keys (set_key id (VObj updated)
                                (FileStorage._map fme)))).
      { rewrite Hkeys. apply Hstore. }
      rewrite write_if_immediate_ok.
      2:{ intros _. split; auto. simpl.
          eapply store_ok_well_typed, store_ok_of_listed; eauto. }
      rewrite <- Ht. fold updated.
      assert (Hres : (match patch with
                      | VNull => (Throw null_patch, (sme, next_tick sw))
                      | _ => (Ok (VObj updated),
                              (sme, set_databases
                                 (<[SqliteFileStorage.filepath sme :=
                                      map (fun x =>
                                             if String.eqb (r_id x) id
                                             then updated_row updated x
                                             else x)
                                        (SqliteFileStorage.rows sme sw)]>
                                    (databases sw)) (next_tick sw)))
                      end)
                     = (Ok (VObj updated),
                        (sme, set_databases
                           (<[SqliteFileStorage.filepath sme :=
                                map (fun x =>
                                       if String.eqb (r_id x) id
                                       then updated_row updated x else x)
                                  (SqliteFileStorage.rows sme sw)]>
                              (databases sw)) (next_tick sw)))).
      { destruct patch; congruence. }
      rewrite Hres. cbn [fst snd opened_after].
      split; [reflexivity|]. split.
      * apply sim_mutated;
          [ exact Hi | exact Hmode | now symmetry | congruence
          | exact Hnd' | | exact Hl' | simpl; congruence | simpl; congruence ].
        intros k Hk. rewrite Hkeys in Hk. simpl. now apply Hb.
      * destruct (settled_fields
                    (FileStorage.set_dirty true
                       (FileStorage.set_map
                          (set_key id (VObj updated) (FileStorage._map fme))
                          fme))) as (_ & -> & _). reflexivity.
  - rewrite file_updateTodo_absent, sqlite_updateTodo_absent by auto.
    rewrite ensured_open by auto. cbn [fst snd opened_after].
    split; [reflexivity|]. split; [exact Hsim | reflexivity].
Qed.

Lemma agree_delete (id : string) :
  FileStorage._inited fme = true ->
  agree env (DeleteTodo id) (fme, fw) (sme, sw).
Proof.
  intros Hi.
  destruct Hsim as ((Hstore & Hb & Hmode & Hdisk) & Ht & Hids & Hflag & Hdb
                    & Hl). cbn [fst snd] in *. rewrite Hi in Hflag.
  unfold agree, file_call, sqlite_call, bind.
  pose proof (sim_lookup id _ _ (proj1 Hstore) Hl) as Hlook.
  rewrite sqlite_deleteTodo_run by auto.
  destruct (Sql.select_by_id id (SqliteFileStorage.rows sme sw))
    as [r0|] eqn:Hsel; cbn [option_map] in Hlook.
  - rewrite (file_deleteTodo_found env id fme fw) by congruence.
    rewrite ensured_open by auto.
    assert (Hl' : listed (delete_key id (FileStorage._map fme))
                  = map entry_of_row
                      (Sql.select_all
                         (fst (Sql.delete id
                                 (SqliteFileStorage.rows sme sw))))).
    { now apply sim_delete. }
    assert (Hnd' : List.NoDup (keys (delete_key id (FileStorage._map fme)))).
    { rewrite keys_delete_key. apply List.NoDup_filter, Hstore. }
    rewrite write_if_immediate_ok.
    2:{ intros _. split; auto. simpl.
        eapply store_ok_well_typed, store_ok_of_listed; eauto. }
    rewrite (delete_found _ _ _ Hsel). cbn [fst snd ret opened_after].
    split; [reflexivity|]. split.
    + apply sim_mutated;
        [ exact Hi | exact Hmode | now symmetry | congruence
        | exact Hnd' | | exact Hl' | exact Ht | exact Hids ].
      intros k Hk. rewrite keys_delete_key in Hk.
      apply List.filter_In in Hk. apply Hb, Hk.
    + destruct (settled_fields
                  (FileStorage.set_dirty true
                     (FileStorage.set_map
                        (delete_key id (FileStorage._map fme)) fme)))
        as (_ & -> & _). reflexivity.
  - rewrite file_deleteTodo_absent by auto.
    rewrite ensured_open by auto.
    rewrite (delete_absent _ _ Hsel). cbn [fst snd ret opened_after].
    split; [reflexivity|]. split; [|reflexivity].
    unfold sim, file_inv. cbn [fst snd]. simpl. rewrite rows_store.
    split; [split; [exact Hstore|]; split; [exact Hb|];
            split; [exact Hmode | exact Hdisk]|].
    repeat split; auto; congruence.
Qed.

(** Any call that respects the discipline is answered alike, and leaves
    the two backends related. *)
Lemma agree_call (c : call) :
  call_ok (FileStorage._inited fme) c = true ->
  agree env c (fme, fw) (sme, sw).
Proof.
  destruct c; simpl; intros Hok.
  - apply agree_init.
  - apply agree_close.
  - now apply agree_add.
  - apply andb_true_iff in Hok. now apply agree_getAll.
  - now apply agree_getById.
  - now apply agree_update.
  - now apply agree_delete.
Qed.
End Step.

Lemma sim_observe (env : Env) (cs : list call) :
  reliable env -> (forall i j, uuid env i = uuid env j -> i = j) ->
  forall fs ss,
    sim env fs ss ->
    disciplined (FileStorage._inited (fst fs)) cs = true ->
    observe (file_call env) cs fs = observe (sqlite_call env) cs ss.
Proof.
  intros Hrel Hinj. unfold observe.
  induction cs as [|c cs IH]; intros [fme fw] [sme sw] Hsim Hd; auto.
  cbn [disciplined fst] in Hd. apply andb_true_iff in Hd.
  destruct Hd as [Hok Hd].
  destruct (agree_call env Hrel Hinj fme fw sme sw Hsim c Hok)
    as (Hobs & Hsim' & Hopen).
  cbn [run_calls].
  destruct (file_call env c (fme, fw)) as [o fs'].
  destruct (sqlite_call env c (sme, sw)) as [o' ss'].
  cbn [fst snd] in *. subst o'. rewrite <- Hopen in Hd.
  specialize (IH fs' ss' Hsim' Hd).
  destruct (run_calls (file_call env) cs fs').
  destruct (run_calls (sqlite_call env) cs ss').
  cbn [fst] in *. now rewrite IH.
Qed.

(** C1 (amended).  Take a File Backend and a Relational Backend in the
    same state: both open or both closed, holding the same records - made
    by earlier calls, with generated ids and the stamps of the clock - and
    no script at [schemaPath], so that the table is the one of the embedded
    script.  With the same clock readings and generated ids to come and a
    medium that rejects no call, a sequence of calls that keeps the data
    operations between an [init] and the next [close], and whose listings
    have a limit and an offset that are not negative and fit a 64-bit
    integer, is answered by both with the same return values and the same
    errors. *)
Theorem backends_agree (env : Env) (fs : FileStorage.t * World)
    (ss : SqliteFileStorage.t * World) (cs : list call) :
  reliable env -> (forall i j, uuid env i = uuid env j -> i = j) ->
  same_state env fs ss ->
  disciplined (FileStorage._inited (fst fs)) cs = true ->
  observe (file_call env) cs fs = observe (sqlite_call env) cs ss.
Proof.
  intros Hrel Hinj (Hsim & _ & _) Hd. now apply sim_observe.
Qed.

Lemma backends_agree_witness :
  observe (file_call afternoon_env) morning_session
    (morning_store "onClose", later_world)
  = observe (sqlite_call afternoon_env) morning_session
      (sample_sqlite true, morning_world).
Proof.
  apply (backends_agree afternoon_env (morning_store "onClose", later_world)
           (sample_sqlite true, morning_world) morning_session
           (fun n => eq_refl) sample_uuid_injective); [|reflexivity].
  split; [|split; reflexivity].
  unfold sim, file_inv, store_ok. cbn [fst snd].
  repeat split; try reflexivity.
  - repeat constructor; simpl; intuition discriminate.
  - repeat constructor; simpl; intuition discriminate.
  - intros k Hk. simpl in Hk.
    destruct Hk as [<-|[<-|[<-|[]]]];
      [exists 2|exists 0|exists 1]; (split; [simpl; lia|reflexivity]).
  - now left.
  - intros [H|[H|H]]; discriminate H.
Defined.

(** ** The life cycle of the File Backend *)

Lemma file_init_marks (env : Env) (s : FileStorage.t * World) :
  FileStorage._inited (fst (snd (FileStorage.init env s))) = true.
Proof.
  destruct s as [me w]. unfold FileStorage.init, FileStorage.start_empty. run.
  destruct (FileStorage._inited me) eqn:Hi; simpl; auto.
  destruct (fault env (io w)); simpl; auto.
  destruct (fault env (S (io w))) as [code|]; simpl.
  - destruct (String.eqb code "ENOENT"); simpl; auto.
  - destruct (files w !! FileStorage.filepath me) as [content|]; simpl; auto.
    destruct (String.eqb content "" || (String.length (trim content) =? 0));
      simpl; auto.
    destruct (JSON.parse content) as [[]|]; simpl; auto.
Qed.

Lemma file_init_files (env : Env) (s : FileStorage.t * World) :
  files (snd (snd (FileStorage.init env s))) = files (snd s).
Proof.
  destruct s as [me w]. unfold FileStorage.init, FileStorage.start_empty. run.
  destruct (FileStorage._inited me) eqn:Hi; simpl; auto.
  destruct (fault env (io w)); simpl; auto.
  destruct (fault env (S (io w))) as [code|]; simpl.
  - destruct (String.eqb code "ENOENT"); simpl; auto.
  - destruct (files w !! FileStorage.filepath me) as [content|]; simpl; auto.
    destruct (String.eqb content "" || (String.length (trim content) =? 0));
      simpl; auto.
    destruct (JSON.parse content) as [[]|]; simpl; auto.
Qed.

Lemma sqlite_init_marks (env : Env) (s s' : SqliteFileStorage.t * World) :
  SqliteFileStorage.init env s = (Ok tt, s') ->
  SqliteFileStorage._inited (fst s') = true.
Proof.
  destruct s as [me w]. unfold SqliteFileStorage.init, SqliteFileStorage.open,
    SqliteFileStorage._exec. run.
  destruct (SqliteFileStorage._inited me) eqn:Hi; simpl.
  - intros [= <-]. exact Hi.
  - repeat match goal with
           | |- context [match fault env ?n with _ => _ end] =>
               destruct (fault env n); simpl
           | |- context [match files ?w !! ?p with _ => _ end] =>
               destruct (files w !! p); simpl
           end;
      try discriminate; intros [= <-]; reflexivity.
Qed.

(** X1.  [init] on an initialised instance returns at once: no call into the
    medium, nothing changed; so a second [init] in a row adds nothing to the
    first, on both backends. *)
Theorem init_is_idempotent (env : Env) :
  (forall me w, FileStorage._inited me = true ->
     FileStorage.init env (me, w) = (Ok tt, (me, w))) /\
  (forall s, (FileStorage.init env;; FileStorage.init env) s
             = FileStorage.init env s) /\
  (forall me w, SqliteFileStorage._inited me = true ->
     SqliteFileStorage.init env (me, w) = (Ok tt, (me, w))) /\
  (forall s, (SqliteFileStorage.init env;; SqliteFileStorage.init env) s
             = SqliteFileStorage.init env s).
Proof.
  split; [intros me w; apply file_init_open|].
  split.
  - intros s. unfold bind at 1.
    pose proof (file_init_marks env s) as Hm.
    destruct (FileStorage.init env s) as [[[]|e] [me' w']]; auto.
    simpl in Hm. now apply file_init_open.
  - split; [intros me w; apply sqlite_init_open|].
    intros s. unfold bind at 1.
    pose proof (sqlite_init_marks env s) as Hm.
    destruct (SqliteFileStorage.init env s) as [[[]|e] [me' w']]; auto.
    specialize (Hm _ eq_refl). simpl in Hm. now apply sqlite_init_open.
Qed.

Lemma init_is_idempotent_witness :
  FileStorage.init sample_env (sample_store "onClose", empty_world)
  = (Ok tt, (sample_store "onClose", empty_world)) /\
  SqliteFileStorage.init sample_env (sample_sqlite true, sample_world)
  = (Ok tt, (sample_sqlite true, sample_world)).
Proof.
  split.
  - exact (proj1 (init_is_idempotent sample_env)
             (sample_store "onClose") empty_world eq_refl).
  - exact (proj1 (proj2 (proj2 (init_is_idempotent sample_env)))
             (sample_sqlite true) sample_world eq_refl).
Defined.

(** X2.  A rejected [mkdir] or [readFile] makes [init] of the File Backend
    throw, yet the instance is left marked initialised and no file is
    changed: a second [init] does nothing. The Relational Backend stays
    uninitialised when its [mkdir] is rejected. *)
Theorem failed_init_state (env : Env) (code : string) :
  (forall me w,
     FileStorage._inited me = false ->
     fault env (io w) = Some code \/
     (fault env (io w) = None /\ fault env (S (io w)) = Some code /\
      code <> "ENOENT") ->
     exists w',
       FileStorage.init env (me, w)
       = (Throw (SystemError code), (FileStorage.set_inited true me, w')) /\
       files w' = files w /\
       FileStorage.init env (FileStorage.set_inited true me, w')
       = (Ok tt, (FileStorage.set_inited true me, w'))) /\
  (forall me w,
     SqliteFileStorage._inited me = false ->
     fault env (io w) = Some code ->
     SqliteFileStorage.init env (me, w)
     = (Throw (SystemError code), (me, next_io w))).
Proof.
  split.
  - intros me w Hi H.
    unfold FileStorage.init at 1, FileStorage.start_empty. run. rewrite Hi.
    simpl. destruct H as [H|(H0 & H1 & Hc)].
    + rewrite H. simpl. eexists. split; [reflexivity|].
      split; [reflexivity|]. now apply file_init_open.
    + rewrite H0. simpl. rewrite H1. simpl.
      apply String.eqb_neq in Hc. rewrite Hc. simpl.
      eexists. split; [reflexivity|].
      split; [reflexivity|]. now apply file_init_open.
  - intros me w Hi H. unfold SqliteFileStorage.init. run.
    rewrite Hi. simpl. now rewrite H.
Qed.

Lemma failed_init_state_witness :
  (exists w',
     FileStorage.init locked_env (sample_file "onClose", empty_world)
     = (Throw (SystemError "EACCES"),
        (FileStorage.set_inited true (sample_file "onClose"), w')) /\
     files w' = files empty_world /\
     FileStorage.init locked_env
       (FileStorage.set_inited true (sample_file "onClose"), w')
     = (Ok tt, (FileStorage.set_inited true (sample_file "onClose"), w'))) /\
  SqliteFileStorage.init locked_env (sample_sqlite false, empty_world)
  = (Throw (SystemError "EACCES"), (sample_sqlite false, next_io empty_world)).
Proof.
  split.
  - exact (proj1 (failed_init_state locked_env "EACCES")
             (sample_file "onClose") empty_world eq_refl
             (or_introl eq_refl)).
  - exact (proj2 (failed_init_state locked_env "EACCES")
             (sample_sqlite false) empty_world eq_refl eq_refl).
Defined.

Lemma trim_empty_length (s : string) :
  (String.eqb s "" || (String.length (trim s) =? 0)) = true <-> trim s = "".
Proof.
  split.
  - intros H. apply orb_true_iff in H. destruct H as [H|H].
    + apply String.eqb_eq in H. now subst.
    + apply Nat.eqb_eq in H. destruct (trim s); [reflexivity|discriminate].
  - intros H. rewrite H. apply orb_true_r.
Qed.

Lemma not_json_parse (content : string) :
  not_json content = true -> JSON.parse content = None.
Proof.
  unfold not_json, JSON.parse.
  set (cs := list_ascii_of_string content).
  cbn [JSON.parse_value].
  destruct (JSON.skip_ws cs) as [|c r]; [reflexivity|].
  intros H. apply negb_true_iff in H.
  destruct c as [[] [] [] [] [] [] [] []]; vm_compute in H;
    try discriminate H; reflexivity.
Qed.

(** X3.  When the file is there but empty or blank, starts with a character
    that starts no JSON value, or holds JSON that is not an array, [init]
    starts from the empty set, marks it dirty and leaves the file as it
    is. *)
Theorem init_unusable_content (env : Env) (me : FileStorage.t) (w : World)
    (content : string) :
  FileStorage._inited me = false ->
  fault env (io w) = None -> fault env (S (io w)) = None ->
  files w !! FileStorage.filepath me = Some content ->
  trim content = "" \/ not_json content = true \/
  (exists v, JSON.parse content = Some v /\ forall items, v <> VArr items) ->
  FileStorage.init env (me, w)
  = (Ok tt,
     (FileStorage.set_dirty true
        (FileStorage.set_map [] (FileStorage.set_inited true me)),
      next_io (next_io w))).
Proof.
  intros Hi H0 H1 Hf H.
  unfold FileStorage.init, FileStorage.start_empty. run.
  rewrite Hi. simpl. rewrite H0. simpl. rewrite H1. simpl. rewrite Hf. simpl.
  destruct (String.eqb content "" || (String.length (trim content) =? 0))
    eqn:E; simpl; [reflexivity|].
  destruct H as [H|[H|(v & H & Hv)]].
  - apply trim_empty_length in H. congruence.
  - now rewrite (not_json_parse _ H).
  - rewrite H. destruct v; try reflexivity. now destruct (Hv items).
Qed.

Lemma init_unusable_content_witness :
  (FileStorage.init sample_env
     (sample_file "onClose",
      set_files {[ path_join "db" "todo.json" := "<todos/>" ]} empty_world)
   = (Ok tt,
      (FileStorage.set_dirty true
         (FileStorage.set_map []
            (FileStorage.set_inited true (sample_file "onClose"))),
       next_io (next_io
         (set_files {[ path_join "db" "todo.json" := "<todos/>" ]}
            empty_world))))) /\
  (FileStorage.init sample_env
     (sample_file "onClose",
      set_files {[ path_join "db" "todo.json" := "{}" ]} empty_world)
   = (Ok tt,
      (FileStorage.set_dirty true
         (FileStorage.set_map []
            (FileStorage.set_inited true (sample_file "onClose"))),
       next_io (next_io
         (set_files {[ path_join "db" "todo.json" := "{}" ]} empty_world))))).
Proof.
  split.
  - apply (init_unusable_content sample_env (sample_file "onClose")
             (set_files {[ path_join "db" "todo.json" := "<todos/>" ]}
                empty_world)
             "<todos/>" eq_refl eq_refl eq_refl).
    + reflexivity.
    + right. left. reflexivity.
  - apply (init_unusable_content sample_env (sample_file "onClose")
             (set_files {[ path_join "db" "todo.json" := "{}" ]} empty_world)
             "{}" eq_refl eq_refl eq_refl).
    + reflexivity.
    + right. right. exists (VObj []). split; [reflexivity|].
      intros items; discriminate.
Defined.

Lemma find_app_first {A} (p : A -> bool) (l l' : list A) :
  find p (l ++ l') = match find p l with
                     | Some a => Some a
                     | None => find p l'
                     end.
Proof.
  induction l as [|a l IH]; simpl; auto. now destruct (p a).
Qed.

Lemma load_fold_lookup (parsed : list value) (acc : list (string * value))
    (id : string) :
  lookup_key id
    (fold_left
       (fun map item =>
          match get_prop item "id" with
          | VStr id => if truthy item then set_key id item map else map
          | _ => map
          end) parsed acc)
  = match find (has_id id) (rev parsed) with
    | Some item => Some item
    | None => lookup_key id acc
    end.
Proof.
  revert acc. induction parsed as [|item rest IH]; intros acc; simpl; auto.
  rewrite IH. rewrite find_app_first.
  destruct (find (has_id id) (rev rest)); auto.
  simpl. unfold has_id.
  destruct (get_prop item "id") eqn:E; rewrite ?andb_false_r; auto.
  destruct (truthy item); simpl; auto.
  destruct (String.eqb s id) eqn:Es.
  - apply String.eqb_eq in Es. subst. apply lookup_set_key_eq.
  - apply lookup_set_key_ne. intros ->. now rewrite String.eqb_refl in Es.
Qed.

Lemma keys_set_key_nodup {A} (k : string) (a : A) (m : list (string * A)) :
  List.NoDup (keys m) -> List.NoDup (keys (set_key k a m)).
Proof.
  intros H. induction m as [|[k' a'] r IH]; simpl.
  - constructor; [intros []|constructor].
  - inversion H as [|? ? Hn Hr]; subst.
    destruct (String.eqb k k') eqn:E; simpl.
    + now constructor.
    + constructor; auto.
      intros Hin. apply Hn. clear -Hin E.
      induction r as [|[k2 a2] r IH]; simpl in *.
      * destruct Hin as [->|[]]. now rewrite String.eqb_refl in E.
      * destruct (String.eqb k k2); simpl in *; tauto.
Qed.

Lemma load_nodup (parsed : list value) :
  List.NoDup (keys (FileStorage.load parsed)).
Proof.
  unfold FileStorage.load.
  assert (H : forall acc : list (string * value), List.NoDup (keys acc) ->
            List.NoDup (keys
              (fold_left
                 (fun map item =>
                    match get_prop item "id" with
                    | VStr id =>
                        if truthy item then set_key id item map else map
                    | _ => map
                    end) parsed acc))).
  { induction parsed as [|item rest IH]; intros acc Hacc; simpl; auto.
    apply IH. destruct (get_prop item "id"); auto.
    destruct (truthy item); auto. now apply keys_set_key_nodup. }
  apply H. constructor.
Qed.

Lemma clone_object (v : value) (k : string) (s : string) :
  get_prop v k = VStr s -> FileStorage._clone v = v.
Proof. destruct v; simpl; try discriminate. reflexivity. Qed.

Lemma has_id_object (id : string) (item : value) :
  has_id id item = true -> FileStorage._clone item = item.
Proof.
  unfold has_id. intros H. apply andb_true_iff in H. destruct H as [_ H].
  destruct (get_prop item "id") eqn:E; try discriminate.
  now apply clone_object with "id" s.
Qed.

(** X4.  After [init] has read a file that holds a JSON array, the store
    holds an item for exactly the ids that occur (as strings) in the array,
    each id once, and [getTodoById] returns the last item of the array that
    carries the id. *)
Theorem init_keeps_last_duplicate (env : Env) (me : FileStorage.t)
    (w : World) (content : string) (parsed : list value) :
  FileStorage._inited me = false ->
  fault env (io w) = None -> fault env (S (io w)) = None ->
  files w !! FileStorage.filepath me = Some content ->
  trim content <> "" ->
  JSON.parse content = Some (VArr parsed) ->
  exists me' w',
    FileStorage.init env (me, w) = (Ok tt, (me', w')) /\
    FileStorage._dirty me' = false /\
    List.NoDup (keys (FileStorage._map me')) /\
    forall id,
      fst (FileStorage.getTodoById id (me', w'))
      = Ok match find (has_id id) (rev parsed) with
           | Some item => item
           | None => VNull
           end.
Proof.
  intros Hi H0 H1 Hf Ht Hp.
  assert (Hb : (String.eqb content "" || (String.length (trim content) =? 0))
               = false).
  { destruct (_ || _) eqn:E; auto. apply trim_empty_length in E.
    contradiction. }
  unfold FileStorage.init, FileStorage.start_empty. run.
  rewrite Hi. simpl. rewrite H0. simpl. rewrite H1. simpl. rewrite Hf. simpl.
  rewrite Hb, Hp. simpl.
  eexists _, _. split; [reflexivity|]. simpl.
  split; [reflexivity|]. split; [apply load_nodup|].
  intros id. rewrite file_getTodoById_run. simpl.
  unfold ensured. simpl.
  unfold FileStorage.load. rewrite load_fold_lookup. simpl.
  destruct (find (has_id id) (rev parsed)) as [item|] eqn:E; auto.
  apply find_some in E. destruct E as [_ E].
  now rewrite (has_id_object _ _ E).
Qed.

Lemma init_keeps_last_duplicate_witness :
  exists me' w',
    FileStorage.init sample_env (sample_file "onClose", duplicates_world)
    = (Ok tt, (me', w')) /\
    FileStorage._dirty me' = false /\
    List.NoDup (keys (FileStorage._map me')) /\
    forall id,
      fst (FileStorage.getTodoById id (me', w'))
      = Ok match find (has_id id) (rev duplicates) with
           | Some item => item
           | None => VNull
           end.
Proof.
  apply (init_keeps_last_duplicate sample_env (sample_file "onClose")
           duplicates_world (JSON.stringify 0 (VArr duplicates)) duplicates
           eq_refl eq_refl eq_refl).
  - reflexivity.
  - discriminate.
  - reflexivity.
Defined.

Lemma write_if_deferred (env : Env) (me : FileStorage.t) (w : World) :
  FileStorage.mode me <> "immediate" ->
  FileStorage.write_if_immediate env (me, w) = (Ok tt, (me, w)).
Proof.
  intros Hm. unfold FileStorage.write_if_immediate. run.
  apply String.eqb_neq in Hm. now rewrite Hm.
Qed.

(** X5.  Reading never touches the medium, and in any mode other than
    [immediate] neither does a mutation: [getAllTodos] and [getTodoById]
    leave the world as it is, [init] leaves every file as it is, and
    [addTodo], [updateTodo] and [deleteTodo] issue no call into [fs] before
    [close]. *)
Theorem deferred_mode_defers (env : Env) (s : FileStorage.t * World) :
  (forall opts, snd (snd (FileStorage.getAllTodos opts s)) = snd s) /\
  (forall id, snd (snd (FileStorage.getTodoById id s)) = snd s) /\
  files (snd (snd (FileStorage.init env s))) = files (snd s) /\
  (FileStorage.mode (fst s) <> "immediate" ->
   (forall todoData,
      let w' := snd (snd (FileStorage.addTodo env todoData s)) in
      files w' = files (snd s) /\ io w' = io (snd s)) /\
   (forall id patch,
      let w' := snd (snd (FileStorage.updateTodo env id patch s)) in
      files w' = files (snd s) /\ io w' = io (snd s)) /\
   (forall id,
      let w' := snd (snd (FileStorage.deleteTodo env id s)) in
      files w' = files (snd s) /\ io w' = io (snd s))).
Proof.
  destruct s as [me w].
  split.
  { intros opts. unfold FileStorage.getAllTodos.
    unfold bind at 1. rewrite ensureInit_run. run.
    destruct (sort_by_createdAt (values (FileStorage._map (ensured me))));
      simpl; auto.
    destruct (limit opts); reflexivity. }
  split.
  { intros id. rewrite file_getTodoById_run. reflexivity. }
  split; [apply file_init_files|].
  intros Hm.
  assert (Hm' : forall m d, FileStorage.mode
                  (FileStorage.set_dirty d (FileStorage.set_map m (ensured me)))
                <> "immediate").
  { intros m d. simpl. now rewrite ensured_mode. }
  split; [|split].
  - intros todoData. cbv zeta.
    destruct (FileStorage.addTodo env todoData (me, w)) as [r [me' w']] eqn:E.
    unfold FileStorage.addTodo in E.
    unfold bind at 1 in E. rewrite ensureInit_run in E.
    destruct (title_missing todoData); [injection E as _ _ <-; auto|].
    revert E. run.
    match goal with
    | |- context [FileStorage.write_if_immediate env (?a, ?b)] =>
        rewrite (write_if_deferred env a b)
    end; [|apply Hm'].
    intros [= _ _ <-]. auto.
  - intros id patch. cbv zeta.
    destruct (FileStorage.updateTodo env id patch (me, w))
      as [r [me' w']] eqn:E.
    unfold FileStorage.updateTodo in E.
    unfold bind at 1 in E. rewrite ensureInit_run in E. revert E. run.
    destruct (lookup_key id (FileStorage._map (ensured me)));
      [|intros [= _ _ <-]; auto].
    destruct (patch_or_empty patch); simpl;
      try (intros [= _ _ <-]; now auto);
      match goal with
      | |- context [FileStorage.write_if_immediate env (?a, ?b)] =>
          rewrite (write_if_deferred env a b)
      end; try apply Hm'; intros [= _ _ <-]; auto.
  - intros id. cbv zeta.
    destruct (FileStorage.deleteTodo env id (me, w)) as [r [me' w']] eqn:E.
    unfold FileStorage.deleteTodo in E.
    unfold bind at 1 in E. rewrite ensureInit_run in E. revert E. run.
    destruct (has_key id (FileStorage._map (ensured me))); simpl;
      [|intros [= _ _ <-]; auto].
    match goal with
    | |- context [FileStorage.write_if_immediate env (?a, ?b)] =>
        rewrite (write_if_deferred env a b)
    end; [|apply Hm'].
    intros [= _ _ <-]. auto.
Qed.

Lemma deferred_mode_defers_witness :
  let s := (sample_store "onClose", empty_world) in
  let w' :=
    snd (snd (FileStorage.addTodo sample_env
                (VObj [("title", VStr "Walk")]) s)) in
  files w' = files (snd s) /\ io w' = io (snd s).
Proof.
  refine (proj1 (proj2 (proj2 (proj2
            (deferred_mode_defers sample_env
               (sample_store "onClose", empty_world)))) _)
            (VObj [("title", VStr "Walk")])).
  discriminate.
Defined.

(** ** Closing and flushing *)

Lemma file_close_marks (env : Env) (s s' : FileStorage.t * World) :
  FileStorage.close env s = (Ok tt, s') ->
  FileStorage._inited (fst s') = false.
Proof.
  destruct s as [me w]. unfold FileStorage.close.
  unfold bind at 1. unfold self, gets. simpl.
  destruct (FileStorage._inited me) eqn:Hi; simpl.
  - unfold bind at 1.
    destruct (String.eqb (FileStorage.mode me) "onClose"
              && FileStorage._dirty me).
    + destruct (FileStorage._writeToDisk env (me, w)) as [[[]|e] [me1 w1]];
        [|discriminate].
      run. intros [= <-]. reflexivity.
    + run. intros [= <-]. reflexivity.
  - run. intros [= <-]. exact Hi.
Qed.

(** X6.  [close] on an instance that is not initialised does nothing, and a
    successful [close] leaves the instance not initialised: a second [close]
    in a row adds nothing to the first, on both backends. *)
Theorem close_is_idempotent (env : Env) :
  (forall me w, FileStorage._inited me = false ->
     FileStorage.close env (me, w) = (Ok tt, (me, w))) /\
  (forall s, (FileStorage.close env;; FileStorage.close env) s
             = FileStorage.close env s) /\
  (forall me w, SqliteFileStorage.db me = false ->
     SqliteFileStorage.close (me, w) = (Ok tt, (me, w))) /\
  (forall s, (SqliteFileStorage.close;; SqliteFileStorage.close) s
             = SqliteFileStorage.close s).
Proof.
  split; [intros me w; apply file_close_closed|].
  split.
  - intros s. unfold bind at 1.
    pose proof (file_close_marks env s) as Hm.
    destruct (FileStorage.close env s) as [[[]|e] [me' w']]; auto.
    specialize (Hm _ eq_refl). now apply file_close_closed.
  - split.
    + intros me w Hd. rewrite sqlite_close_run. now rewrite Hd.
    + intros [me w]. unfold bind at 1. rewrite !sqlite_close_run.
      destruct (SqliteFileStorage.db me) eqn:Hd; simpl; [reflexivity|].
      now rewrite Hd.
Qed.

Lemma close_is_idempotent_witness :
  FileStorage.close sample_env (sample_file "onClose", empty_world)
  = (Ok tt, (sample_file "onClose", empty_world)) /\
  SqliteFileStorage.close (sample_sqlite false, sample_world)
  = (Ok tt, (sample_sqlite false, sample_world)).
Proof.
  split.
  - exact (proj1 (close_is_idempotent sample_env)
             (sample_file "onClose") empty_world eq_refl).
  - exact (proj1 (proj2 (proj2 (close_is_idempotent sample_env)))
             (sample_sqlite false) sample_world eq_refl).
Defined.

Lemma writeToDisk_rejected_target (env : Env) (me : FileStorage.t)
    (w : World) (code : string) :
  well_typed (FileStorage._map me) ->
  write_rejected env w code ->
  exists w',
    FileStorage._writeToDisk env (me, w)
    = (Throw (SystemError code), (me, w')) /\
    files w' !! FileStorage.filepath me = files w !! FileStorage.filepath me.
Proof.
  intros Hm Hf. unfold FileStorage._writeToDisk. run.
  rewrite (sort_well_typed _ Hm). simpl.
  pose proof (tmp_path_fresh env me w) as Hne. unfold tmp_path in Hne.
  destruct Hf as [F0|[F0 F1]]; rewrite F0; simpl.
  - destruct (fault env (S (io w))); simpl; eexists; split;
      try reflexivity; simpl; auto.
    now rewrite lookup_delete_ne.
  - rewrite lookup_insert_eq, F1. simpl.
    destruct (fault env (S (S (io w)))); simpl; eexists; split;
      try reflexivity; simpl.
    + now rewrite lookup_insert_ne.
    + rewrite lookup_delete_ne; auto. now rewrite lookup_insert_ne.
Qed.

(** X7.  [close] writes in one case only: mode [onClose] with the dirty flag
    set. Then a write that goes through leaves the records in the file and
    the instance closed and clean, and a rejected write makes [close] throw
    with the instance still initialised and dirty and the file as it was. In
    mode [immediate], or with a clean store, [close] only marks the instance
    closed - also when an earlier write had failed. *)
Theorem close_writes_when_deferred (env : Env) (me : FileStorage.t)
    (w : World) :
  FileStorage._inited me = true ->
  (FileStorage.mode me = "immediate" \/ FileStorage._dirty me = false ->
   FileStorage.close env (me, w)
   = (Ok tt, (FileStorage.set_inited false me, w))) /\
  (FileStorage.mode me = "onClose" -> FileStorage._dirty me = true ->
   well_typed (FileStorage._map me) ->
   (reliable env ->
    exists w',
      FileStorage.close env (me, w)
      = (Ok tt,
         (FileStorage.set_inited false (FileStorage.set_dirty false me), w'))
      /\ files w' !! FileStorage.filepath me
         = Some (json_text (FileStorage.pretty me)
                   (sort_by createdAt (values (FileStorage._map me))))) /\
   (forall code, write_rejected env w code ->
      exists w',
        FileStorage.close env (me, w) = (Throw (SystemError code), (me, w'))
        /\ files w' !! FileStorage.filepath me
           = files w !! FileStorage.filepath me)).
Proof.
  intros Hi. split.
  - intros H. unfold FileStorage.close. run. rewrite Hi. simpl.
    destruct H as [H|H].
    + rewrite H. reflexivity.
    + rewrite H, andb_false_r. reflexivity.
  - intros Hm Hd Ht. split.
    + intros Hr. rewrite file_close_run; auto.
      rewrite Hm, Hd. simpl. eexists. split; [reflexivity|].
      apply written_on_disk.
    + intros code Hc.
      destruct (writeToDisk_rejected_target env me w code Ht Hc)
        as (w' & Hw & Hf).
      exists w'. split; auto.
      unfold FileStorage.close. run. rewrite Hi, Hm, Hd. simpl.
      unfold bind. now rewrite Hw.
Qed.

Lemma close_writes_when_deferred_witness :
  (FileStorage.close sample_env (dirty_store "immediate", empty_world)
   = (Ok tt,
      (FileStorage.set_inited false (dirty_store "immediate"), empty_world)))
  /\
  (exists w',
     FileStorage.close sample_env (dirty_store "onClose", empty_world)
     = (Ok tt,
        (FileStorage.set_inited false
           (FileStorage.set_dirty false (dirty_store "onClose")), w'))
     /\ files w' !! FileStorage.filepath (dirty_store "onClose")
        = Some (json_text true [sample_record])) /\
  (exists w',
     FileStorage.close full_disk_env (dirty_store "onClose", empty_world)
     = (Throw (SystemError "ENOSPC"), (dirty_store "onClose", w'))
     /\ files w' !! FileStorage.filepath (dirty_store "onClose")
        = files empty_world !! FileStorage.filepath (dirty_store "onClose")).
Proof.
  split; [|split].
  - exact (proj1 (close_writes_when_deferred sample_env
                    (dirty_store "immediate") empty_world eq_refl)
             (or_introl eq_refl)).
  - exact (proj1 (proj2 (close_writes_when_deferred sample_env
                           (dirty_store "onClose") empty_world eq_refl)
                    eq_refl eq_refl eq_refl)
             sample_env_reliable).
  - exact (proj2 (proj2 (close_writes_when_deferred full_disk_env
                           (dirty_store "onClose") empty_world eq_refl)
                    eq_refl eq_refl eq_refl)
             "ENOSPC" (or_introl eq_refl)).
Defined.








(** ** Operations in sequence *)

Lemma can_persist_mutated (env : Env) (me : FileStorage.t)
    (m : list (string * value)) :
  can_persist env me ->
  (FileStorage.mode me = "immediate" -> well_typed m) ->
  can_persist env
    (FileStorage.set_dirty true (FileStorage.set_map m (ensured me))).
Proof.
  intros Hp Hm Himm. simpl in Himm. rewrite ensured_mode in Himm.
  destruct (Hp Himm) as [Hr _]. split; auto.
Qed.

Lemma file_addTodo_ok (env : Env) (todoData : value) (me : FileStorage.t)
    (w : World) :
  title_missing todoData = false -> can_persist env me ->
  let id := uuid env (ids w) in
  let todo := VObj (new_todo id (clock env (ticks w)) todoData) in
  let me1 :=
    FileStorage.set_dirty true
      (FileStorage.set_map (set_key id todo (FileStorage._map me))
         (ensured me)) in
  FileStorage.addTodo env todoData (me, w)
  = (Ok todo, (settled me1, persisted env me1 (next_id (next_tick w)))).
Proof.
  intros Hm Hp id todo me1.
  rewrite (file_addTodo_valid env todoData me w Hm).
  fold id todo me1. rewrite write_if_immediate_ok; [reflexivity|].
  apply can_persist_mutated; auto.
  intros E. apply well_typed_set_key; [apply Hp, E | reflexivity].
Qed.

Lemma merge_patch_createdAt (existing patch : value) (now : string) :
  has_createdAt (VObj (merge_patch existing patch now))
  = has_createdAt existing.
Proof.
  unfold has_createdAt. simpl. now rewrite merge_patch_prop.
Qed.

Lemma file_updateTodo_ok (env : Env) (id : string) (patch : value)
    (me : FileStorage.t) (w : World) (existing : value) :
  lookup_key id (FileStorage._map me) = Some existing ->
  patch <> VNull -> can_persist env me ->
  let updated :=
    VObj (merge_patch existing (patch_or_empty patch) (clock env (ticks w))) in
  let me1 :=
    FileStorage.set_dirty true
      (FileStorage.set_map (set_key id updated (FileStorage._map me))
         (ensured me)) in
  FileStorage.updateTodo env id patch (me, w)
  = (Ok updated, (settled me1, persisted env me1 (next_tick w))).
Proof.
  intros Hl Hn Hp updated me1.
  rewrite (file_updateTodo_found env id patch me w existing Hl Hn).
  fold updated me1. rewrite write_if_immediate_ok; [reflexivity|].
  apply can_persist_mutated; auto.
  intros E. apply well_typed_set_key; [apply Hp, E|].
  unfold updated. rewrite merge_patch_createdAt.
  eapply well_typed_lookup; [apply Hp, E | exact Hl].
Qed.

Lemma file_deleteTodo_ok (env : Env) (id : string) (me : FileStorage.t)
    (w : World) :
  lookup_key id (FileStorage._map me) <> None -> can_persist env me ->
  let me1 :=
    FileStorage.set_dirty true
      (FileStorage.set_map (delete_key id (FileStorage._map me))
         (ensured me)) in
  FileStorage.deleteTodo env id (me, w)
  = (Ok true, (settled me1, persisted env me1 w)).
Proof.
  intros Hl Hp me1.
  rewrite (file_deleteTodo_found env id me w Hl).
  fold me1. rewrite write_if_immediate_ok; [reflexivity|].
  apply can_persist_mutated; auto.
  intros E. apply well_typed_delete_key, Hp, E.
Qed.

Lemma id_of_new_todo (id now : string) (todoData : value) :
  id_of (VObj (new_todo id now todoData)) = id.
Proof. reflexivity. Qed.

Lemma settled_map (me : FileStorage.t) :
  FileStorage._map (settled me) = FileStorage._map me.
Proof. apply settled_fields. Qed.

Lemma settled_inited (me : FileStorage.t) :
  FileStorage._inited (settled me) = FileStorage._inited me.
Proof. apply settled_fields. Qed.

Lemma ensured_id (me : FileStorage.t) :
  FileStorage._inited me = true -> ensured me = me.
Proof. unfold ensured. now intros ->. Qed.

Lemma rowToTodo_new_todo (id now : string) (todoData : value) :
  title_missing todoData = false ->
  SqliteFileStorage._rowToTodo
    (SqliteFileStorage.insert_params (new_todo id now todoData))
  = VObj (new_todo id now todoData).
Proof.
  intros Hm. pose proof (rowToTodo_insert_params id now todoData Hm) as H.
  exact (f_equal snd H).
Qed.

(** X10.  What [addTodo] returns is what [getTodoById] then returns for the
    id of that record, on both backends. *)
Theorem add_then_get (env : Env) (todoData : value) :
  title_missing todoData = false ->
  (forall me w, can_persist env me ->
     exists todo s',
       FileStorage.addTodo env todoData (me, w) = (Ok todo, s') /\
       FileStorage.getTodoById (id_of todo) s' = (Ok todo, s')) /\
  (forall me w,
     SqliteFileStorage._inited me = true ->
     Sql.select_by_id (uuid env (ids w)) (SqliteFileStorage.rows me w)
     = None ->
     exists todo s',
       SqliteFileStorage.addTodo env todoData (me, w) = (Ok todo, s') /\
       SqliteFileStorage.getTodoById (id_of todo) s' = (Ok todo, s')).
Proof.
  intros Hm. split.
  - intros me w Hp. rewrite file_addTodo_ok; auto.
    eexists _, _. split; [reflexivity|].
    rewrite file_getTodoById_run, id_of_new_todo, settled_map. simpl.
    rewrite lookup_set_key_eq. simpl. f_equal. f_equal.
    apply ensured_id. rewrite settled_inited. simpl. apply ensured_inited.
  - intros me w Hi Hf. rewrite sqlite_addTodo_run; auto.
    eexists _, _. split; [reflexivity|].
    rewrite sqlite_getTodoById_run; auto.
    rewrite id_of_new_todo, rows_store.
    rewrite (select_by_id_snoc _ _
               (SqliteFileStorage.insert_params
                  (new_todo (uuid env (ids w)) (clock env (ticks w))
                     todoData)) Hf); [|reflexivity].
    now rewrite rowToTodo_new_todo.
Qed.

Lemma add_then_get_witness :
  (exists todo s',
     FileStorage.addTodo sample_env (VObj [("title", VStr "Walk")])
       (sample_store "immediate", empty_world) = (Ok todo, s') /\
     FileStorage.getTodoById (id_of todo) s' = (Ok todo, s')) /\
  (exists todo s',
     SqliteFileStorage.addTodo sample_env (VObj [("title", VStr "Walk")])
       (sample_sqlite true, empty_world) = (Ok todo, s') /\
     SqliteFileStorage.getTodoById (id_of todo) s' = (Ok todo, s')).
Proof.
  split.
  - apply (proj1 (add_then_get sample_env (VObj [("title", VStr "Walk")])
                    eq_refl)).
    intros _. split; [apply sample_env_reliable | reflexivity].
  - apply (proj2 (add_then_get sample_env (VObj [("title", VStr "Walk")])
                    eq_refl)); reflexivity.
Defined.

Lemma delete_set_key_fresh {A} (k : string) (a : A) (m : list (string * A)) :
  lookup_key k m = None -> delete_key k (set_key k a m) = m.
Proof.
  induction m as [|[k' a'] r IH]; simpl.
  - now rewrite String.eqb_refl.
  - destruct (String.eqb k k') eqn:E; [discriminate|].
    intros H. simpl. rewrite E. now rewrite IH.
Qed.

Lemma sql_delete_snoc (id : string) (tbl : list row) (r : row) :
  Sql.select_by_id id tbl = None -> r_id r = id ->
  Sql.delete id (tbl ++ [r]) = (tbl, 1).
Proof.
  intros Hf Hr. unfold Sql.delete.
  assert (Hk : List.filter (fun x => negb (String.eqb (r_id x) id))
                 (tbl ++ [r]) = tbl).
  { rewrite List.filter_app. simpl. rewrite Hr, String.eqb_refl. simpl.
    rewrite app_nil_r. unfold Sql.select_by_id in Hf.
    induction tbl as [|x t IH]; simpl in *; auto.
    destruct (String.eqb (r_id x) id); [discriminate|]. simpl.
    now rewrite IH. }
  rewrite Hk. f_equal. rewrite length_app. simpl. lia.
Qed.

(** X11.  Deleting the record that was just created undoes the creation:
    when the generated id was not in use, [deleteTodo] of the id returned by
    [addTodo] returns [true] and the store holds what it held before, on
    both backends. *)
Theorem add_then_delete (env : Env) (todoData : value) :
  title_missing todoData = false ->
  (forall me w,
     can_persist env me ->
     lookup_key (uuid env (ids w)) (FileStorage._map me) = None ->
     exists me' w',
       (todo <- FileStorage.addTodo env todoData;;
        FileStorage.deleteTodo env (id_of todo)) (me, w)
       = (Ok true, (me', w')) /\
       FileStorage._map me' = FileStorage._map me) /\
  (forall me w,
     SqliteFileStorage._inited me = true ->
     Sql.select_by_id (uuid env (ids w)) (SqliteFileStorage.rows me w)
     = None ->
     exists w',
       (todo <- SqliteFileStorage.addTodo env todoData;;
        SqliteFileStorage.deleteTodo (id_of todo)) (me, w)
       = (Ok true, (me, w')) /\
       SqliteFileStorage.rows me w' = SqliteFileStorage.rows me w).
Proof.
  intros Hm. split.
  - intros me w Hp Hf. unfold bind. rewrite file_addTodo_ok; auto.
    rewrite id_of_new_todo.
    rewrite file_deleteTodo_ok.
    + eexists _, _. split; [reflexivity|].
      rewrite !settled_map. simpl.
      now apply delete_set_key_fresh.
    + rewrite settled_map. simpl. rewrite lookup_set_key_eq. discriminate.
    + intros Himm. destruct (settled_fields
        (FileStorage.set_dirty true
           (FileStorage.set_map
              (set_key (uuid env (ids w))
                 (VObj (new_todo (uuid env (ids w)) (clock env (ticks w))
                          todoData)) (FileStorage._map me)) (ensured me))))
        as (Hmap & _ & _ & Hmode).
      rewrite Hmode in Himm. simpl in Himm. rewrite ensured_mode in Himm.
      destruct (Hp Himm) as [Hr Ht]. split; auto.
      rewrite Hmap. simpl. apply well_typed_set_key; auto.
  - intros me w Hi Hf. unfold bind. rewrite sqlite_addTodo_run; auto.
    rewrite id_of_new_todo, sqlite_deleteTodo_run; auto.
    rewrite rows_store.
    rewrite (sql_delete_snoc _ _ _ Hf); [|reflexivity]. simpl.
    eexists. split; [reflexivity|]. apply rows_store.
Qed.

Lemma add_then_delete_witness :
  (exists me' w',
     (todo <- FileStorage.addTodo sample_env (VObj [("title", VStr "Walk")]);;
      FileStorage.deleteTodo sample_env (id_of todo))
       (sample_file "immediate", empty_world)
     = (Ok true, (me', w')) /\
     FileStorage._map me' = FileStorage._map (sample_file "immediate")) /\
  (exists w',
     (todo <- SqliteFileStorage.addTodo sample_env
                (VObj [("title", VStr "Walk")]);;
      SqliteFileStorage.deleteTodo (id_of todo))
       (sample_sqlite true, empty_world)
     = (Ok true, (sample_sqlite true, w')) /\
     SqliteFileStorage.rows (sample_sqlite true) w'
     = SqliteFileStorage.rows (sample_sqlite true) empty_world).
Proof.
  split.
  - apply (proj1 (add_then_delete sample_env (VObj [("title", VStr "Walk")])
                    eq_refl)).
    + intros _. split; [apply sample_env_reliable | reflexivity].
    + reflexivity.
  - apply (proj2 (add_then_delete sample_env (VObj [("title", VStr "Walk")])
                    eq_refl)); reflexivity.
Defined.

Lemma merge_patch_coerced (existing patch : value) (now : string) :
  coerced existing patch (VObj (merge_patch existing patch now)).
Proof.
  unfold coerced. simpl. rewrite !merge_patch_prop. simpl. auto.
Qed.

Lemma coerced_or_empty (existing patch updated : value) :
  coerced existing (patch_or_empty patch) updated ->
  coerced existing patch updated.
Proof. unfold coerced. now rewrite !patch_or_empty_prop. Qed.

(** X12.  Of a patch other than [null], [updateTodo] takes a title only
    when it is a string and a [done] only when it is a boolean; any other
    value leaves the field as it was. A description is taken whenever it is
    not [undefined], and stored as the string [String(description)], so
    [null] becomes the text [null]; this is stated of the descriptions that
    are strings, booleans, [null] or integers that a double holds exactly.
    This on both backends. *)
Theorem update_coerces_fields (env : Env) (id : string) (patch : value)
    (w : World) :
  patch <> VNull ->
  renders (get_prop patch "description") = true ->
  (forall me existing,
     lookup_key id (FileStorage._map me) = Some existing ->
     can_persist env me ->
     exists updated s',
       FileStorage.updateTodo env id patch (me, w) = (Ok updated, s') /\
       coerced existing patch updated) /\
  (forall me r,
     SqliteFileStorage._inited me = true ->
     Sql.select_by_id id (SqliteFileStorage.rows me w) = Some r ->
     exists updated s',
       SqliteFileStorage.updateTodo env id patch (me, w) = (Ok updated, s') /\
       coerced (SqliteFileStorage._rowToTodo r) patch updated).
Proof.
  intros Hn _. split.
  - intros me existing Hl Hp. rewrite (file_updateTodo_ok env id patch me w
      existing Hl Hn Hp).
    eexists _, _. split; [reflexivity|].
    apply coerced_or_empty, merge_patch_coerced.
  - intros me r Hi Hs.
    rewrite (sqlite_updateTodo_found env id patch me w r Hi Hs).
    destruct patch; try contradiction;
      (eexists _, _; split; [reflexivity|];
       apply coerced_or_empty, merge_patch_coerced).
Qed.

Lemma update_coerces_fields_witness :
  (exists updated s',
     FileStorage.updateTodo sample_env "todo-0" loose_patch
       (sample_store "onClose", empty_world) = (Ok updated, s') /\
     coerced sample_record loose_patch updated) /\
  (exists updated s',
     SqliteFileStorage.updateTodo sample_env "todo-0" loose_patch
       (sample_sqlite true, sample_world) = (Ok updated, s') /\
     coerced (SqliteFileStorage._rowToTodo sample_row) loose_patch updated).
Proof.
  assert (Hn : loose_patch <> VNull) by discriminate.
  split.
  - apply (proj1 (update_coerces_fields sample_env "todo-0" loose_patch
                    empty_world Hn eq_refl)).
    + reflexivity.
    + intros H. discriminate H.
  - apply (proj2 (update_coerces_fields sample_env "todo-0" loose_patch
                    sample_world Hn eq_refl)); reflexivity.
Defined.

Lemma sqlite_ensureInit_closed (me : SqliteFileStorage.t) (w : World) :
  SqliteFileStorage._inited me = false ->
  SqliteFileStorage._ensureInit (me, w)
  = (Throw SqliteFileStorage.not_initialized, (me, w)).
Proof.
  intros Hi. unfold SqliteFileStorage._ensureInit. run. now rewrite Hi.
Qed.

Lemma sqlite_updateTodo_closed (env : Env) (id : string) (patch : value)
    (me : SqliteFileStorage.t) (w : World) :
  SqliteFileStorage._inited me = false ->
  SqliteFileStorage.updateTodo env id patch (me, w)
  = (Throw SqliteFileStorage.not_initialized, (me, w)).
Proof.
  intros Hi. unfold SqliteFileStorage.updateTodo. unfold bind at 1.
  now rewrite sqlite_ensureInit_closed.
Qed.

Lemma merge_patch_ext (existing p p' : value) (now : string) :
  (forall k, In k ["title"; "description"; "done"] ->
             get_prop p k = get_prop p' k) ->
  merge_patch existing p now = merge_patch existing p' now.
Proof.
  intros H. unfold merge_patch.
  rewrite (H "title"), (H "description"), (H "done");
    simpl; auto.
Qed.

(** X13.  [updateTodo] reads nothing of the patch but [title], [description]
    and [done]: two patches that agree on these three give the same result
    and the same state, on both backends. So an [id], a [createdAt] or an
    [updatedAt] carried by the patch is ignored. *)
Theorem update_reads_three_fields (env : Env) (id : string)
    (patch patch' : value) :
  patch <> VNull -> patch' <> VNull ->
  (forall k, In k ["title"; "description"; "done"] ->
             get_prop patch k = get_prop patch' k) ->
  (forall s, FileStorage.updateTodo env id patch s
             = FileStorage.updateTodo env id patch' s) /\
  (forall s, SqliteFileStorage.updateTodo env id patch s
             = SqliteFileStorage.updateTodo env id patch' s).
Proof.
  intros Hn Hn' H.
  assert (He : forall existing now,
            merge_patch existing (patch_or_empty patch) now
            = merge_patch existing (patch_or_empty patch') now).
  { intros existing now. apply merge_patch_ext. intros k Hk.
    rewrite !patch_or_empty_prop. auto. }
  split.
  - intros [me w].
    destruct (lookup_key id (FileStorage._map me)) as [existing|] eqn:Hl.
    + rewrite (file_updateTodo_found env id patch me w existing Hl Hn).
      rewrite (file_updateTodo_found env id patch' me w existing Hl Hn').
      now rewrite He.
    + now rewrite !file_updateTodo_absent.
  - intros [me w].
    destruct (SqliteFileStorage._inited me) eqn:Hi.
    + destruct (Sql.select_by_id id (SqliteFileStorage.rows me w))
        as [r|] eqn:Hs.
      * rewrite (sqlite_updateTodo_found env id patch me w r Hi Hs).
        rewrite (sqlite_updateTodo_found env id patch' me w r Hi Hs).
        rewrite He.
        destruct patch; try contradiction; destruct patch';
          try contradiction; reflexivity.
      * now rewrite !sqlite_updateTodo_absent.
    + now rewrite !sqlite_updateTodo_closed.
Qed.

Lemma update_reads_three_fields_witness :
  FileStorage.updateTodo sample_env "todo-0" loose_patch
    (sample_store "onClose", empty_world)
  = FileStorage.updateTodo sample_env "todo-0"
      (VObj [("description", VNull); ("done", VNum 1)])
      (sample_store "onClose", empty_world).
Proof.
  refine (proj1 (update_reads_three_fields sample_env "todo-0" loose_patch
                   (VObj [("description", VNull); ("done", VNum 1)])
                   _ _ _) _); try discriminate.
  intros k [<-|[<-|[<-|[]]]]; reflexivity.
Defined.

Lemma in_sync_written (env : Env) (me1 : FileStorage.t) (w1 : World) :
  FileStorage.mode me1 = "immediate" ->
  in_sync (settled me1, persisted env me1 w1).
Proof.
  intros Hm. unfold in_sync, settled, persisted. rewrite Hm. simpl.
  split; [reflexivity|apply written_on_disk].
Qed.

(** X14.  In mode [immediate] every mutation that returns has written
    through: after [addTodo], [updateTodo] or [deleteTodo] the dirty flag is
    clear and the file holds the text of the records now in memory. *)
Theorem immediate_mode_writes_through (env : Env) (me : FileStorage.t)
    (w : World) :
  FileStorage.mode me = "immediate" -> reliable env ->
  well_typed (FileStorage._map me) ->
  (forall todoData,
     title_missing todoData = false ->
     is_ok (fst (FileStorage.addTodo env todoData (me, w))) = true /\
     in_sync (snd (FileStorage.addTodo env todoData (me, w)))) /\
  (forall id patch existing,
     lookup_key id (FileStorage._map me) = Some existing ->
     patch <> VNull ->
     is_ok (fst (FileStorage.updateTodo env id patch (me, w))) = true /\
     in_sync (snd (FileStorage.updateTodo env id patch (me, w)))) /\
  (forall id,
     lookup_key id (FileStorage._map me) <> None ->
     fst (FileStorage.deleteTodo env id (me, w)) = Ok true /\
     in_sync (snd (FileStorage.deleteTodo env id (me, w)))).
Proof.
  intros Hm Hr Ht.
  assert (Hp : can_persist env me) by (intros _; now split).
  assert (Hm1 : forall m d,
            FileStorage.mode
              (FileStorage.set_dirty d (FileStorage.set_map m (ensured me)))
            = "immediate").
  { intros m d. simpl. now rewrite ensured_mode. }
  split; [|split].
  - intros todoData Hv. rewrite file_addTodo_ok; auto.
    split; [reflexivity|]. apply in_sync_written, Hm1.
  - intros id patch existing Hl Hn.
    rewrite (file_updateTodo_ok env id patch me w existing Hl Hn Hp).
    split; [reflexivity|]. apply in_sync_written, Hm1.
  - intros id Hl. rewrite file_deleteTodo_ok; auto.
    split; [reflexivity|]. apply in_sync_written, Hm1.
Qed.

Lemma immediate_mode_writes_through_witness :
  is_ok (fst (FileStorage.addTodo sample_env (VObj [("title", VStr "Walk")])
                (sample_store "immediate", empty_world))) = true /\
  in_sync (snd (FileStorage.addTodo sample_env
                  (VObj [("title", VStr "Walk")])
                  (sample_store "immediate", empty_world))).
Proof.
  exact (proj1 (immediate_mode_writes_through sample_env
                  (sample_store "immediate") empty_world eq_refl
                  sample_env_reliable eq_refl)
           (VObj [("title", VStr "Walk")]) eq_refl).
Defined.

(** ** Listing: the edges of a page *)








(** ** The Relational Backend between [init] and [close] *)

(** X16.  Every data operation of the Relational Backend throws the
    not-initialised error on an instance that is not initialised, and
    changes nothing; [close] on an open instance leaves it in that state,
    and a constructed instance starts in it. *)
Theorem sqlite_requires_init (env : Env) :
  (forall c s,
     SqliteFileStorage._inited (fst s) = false -> call_ok false c = false ->
     sqlite_call env c s = (Throw SqliteFileStorage.not_initialized, s)) /\
  (forall me w,
     SqliteFileStorage.db me = true ->
     exists me',
       SqliteFileStorage.close (me, w) = (Ok tt, (me', w)) /\
       SqliteFileStorage._inited me' = false) /\
  (forall cwd options,
     SqliteFileStorage._inited (SqliteFileStorage.new cwd options) = false).
Proof.
  split; [|split].
  - intros c [me w] Hi Hc. simpl in Hi.
    pose proof (sqlite_ensureInit_closed me w Hi) as He.
    destruct c; try discriminate; simpl.
    + unfold SqliteFileStorage.addTodo. unfold bind at 1. now rewrite He.
    + unfold bind at 1. unfold SqliteFileStorage.getAllTodos.
      unfold bind at 1. now rewrite He.
    + unfold SqliteFileStorage.getTodoById. unfold bind at 1. now rewrite He.
    + now apply sqlite_updateTodo_closed.
    + unfold bind at 1. unfold SqliteFileStorage.deleteTodo.
      unfold bind at 1. now rewrite He.
  - intros me w Hd. rewrite sqlite_close_run, Hd.
    eexists. split; reflexivity.
  - reflexivity.
Qed.

Lemma sqlite_requires_init_witness :
  sqlite_call sample_env (GetTodoById "todo-0")
    (sample_sqlite false, sample_world)
  = (Throw SqliteFileStorage.not_initialized,
     (sample_sqlite false, sample_world)).
Proof.
  exact (proj1 (sqlite_requires_init sample_env) (GetTodoById "todo-0")
           (sample_sqlite false, sample_world) eq_refl eq_refl).
Defined.

Lemma rows_same_path (a b : SqliteFileStorage.t) (w : World) :
  SqliteFileStorage.filepath b = SqliteFileStorage.filepath a ->
  SqliteFileStorage.rows b w = SqliteFileStorage.rows a w.
Proof. intros H. unfold SqliteFileStorage.rows. now rewrite H. Qed.

(** X17.  What the Relational Backend holds is there after [close()] and the
    [init()] of another instance on the same path: every listing and every
    lookup of the new instance returns what the old one returned. *)
Theorem sqlite_reopen (env : Env) (a b : SqliteFileStorage.t) (w : World) :
  reliable env ->
  SqliteFileStorage._inited a = true ->
  SqliteFileStorage._inited b = false ->
  SqliteFileStorage.filepath b = SqliteFileStorage.filepath a ->
  exists a' b' w',
    (SqliteFileStorage.close (a, w) = (Ok tt, (a', w))) /\
    SqliteFileStorage.init env (b, w) = (Ok tt, (b', w')) /\
    (forall opts,
       fst (SqliteFileStorage.getAllTodos opts (b', w'))
       = fst (SqliteFileStorage.getAllTodos opts (a, w))) /\
    (forall id,
       fst (SqliteFileStorage.getTodoById id (b', w'))
       = fst (SqliteFileStorage.getTodoById id (a, w))).
Proof.
  intros Hr Ha Hb Hp.
  destruct (sqlite_init_closed env b w Hb Hr) as (w' & Hinit & Hrows & _).
  rewrite sqlite_close_run.
  eexists _, _, w'. split; [reflexivity|]. split; [exact Hinit|].
  assert (Hsame : SqliteFileStorage.rows
                    (SqliteFileStorage.set_inited true
                       (SqliteFileStorage.set_db true b)) w'
                  = SqliteFileStorage.rows a w).
  { rewrite <- (rows_same_path a b w Hp), <- Hrows. reflexivity. }
  split.
  - intros opts. rewrite !sqlite_getAllTodos_run; auto. simpl.
    now rewrite Hsame.
  - intros id. rewrite !sqlite_getTodoById_run; auto. simpl.
    now rewrite Hsame.
Qed.

Lemma sqlite_reopen_witness :
  exists a' b' w',
    (SqliteFileStorage.close (sample_sqlite true, sample_world)
     = (Ok tt, (a', sample_world))) /\
    SqliteFileStorage.init sample_env (sample_sqlite false, sample_world)
    = (Ok tt, (b', w')) /\
    (forall opts,
       fst (SqliteFileStorage.getAllTodos opts (b', w'))
       = fst (SqliteFileStorage.getAllTodos opts
                (sample_sqlite true, sample_world))) /\
    (forall id,
       fst (SqliteFileStorage.getTodoById id (b', w'))
       = fst (SqliteFileStorage.getTodoById id
                (sample_sqlite true, sample_world))).
Proof.
  exact (sqlite_reopen sample_env (sample_sqlite true) (sample_sqlite false)
           sample_world sample_env_reliable eq_refl eq_refl eq_refl).
Defined.



(** ** Identifiers *)

Lemma keyed_nil : keyed_by_id [].
Proof. split; constructor. Qed.

Lemma forall_set_key {A} (P : string * A -> Prop) (k : string) (a : A)
    (m : list (string * A)) :
  List.Forall P m -> (forall k', P (k', a)) -> List.Forall P (set_key k a m).
Proof.
  intros Hm Ha. induction Hm as [|[k' a'] r Hx Hr IH]; simpl.
  - constructor; auto.
  - destruct (String.eqb k k') eqn:E; constructor; auto.
Qed.

Lemma set_key_keyed (k : string) (v : value) (m : list (string * value)) :
  keyed_by_id m -> get_prop v "id" = VStr k -> keyed_by_id (set_key k v m).
Proof.
  intros [Hnd Hf] Hv. split; [now apply keys_set_key_nodup|].
  induction m as [|[k' v'] r IH]; simpl.
  - constructor; auto.
  - inversion Hf as [|? ? Hx Hr]; subst. inversion Hnd; subst.
    destruct (String.eqb_spec k k') as [->|Hne]; constructor; auto.
Qed.

Lemma delete_key_keyed (k : string) (m : list (string * value)) :
  keyed_by_id m -> keyed_by_id (delete_key k m).
Proof.
  intros [Hnd Hf]. rewrite delete_key_filter. split.
  - unfold keys in *. clear Hf.
    induction m as [|[k' v'] r IH]; simpl; [constructor|].
    inversion Hnd as [|? ? Hn Hr]; subst.
    destruct (String.eqb k k'); simpl; auto.
    constructor; auto. intros Hin. apply Hn.
    apply in_map_iff in Hin. destruct Hin as [x [Hx Hin]].
    apply List.filter_In in Hin. apply in_map_iff. exists x. tauto.
  - apply List.Forall_forall. intros x Hx. apply List.filter_In in Hx.
    rewrite List.Forall_forall in Hf. apply Hf. tauto.
Qed.

Lemma load_keyed (parsed : list value) : keyed_by_id (FileStorage.load parsed).
Proof.
  unfold FileStorage.load.
  assert (H : forall acc : list (string * value), keyed_by_id acc ->
            keyed_by_id
              (fold_left
                 (fun map item =>
                    match get_prop item "id" with
                    | VStr id =>
                        if truthy item then set_key id item map else map
                    | _ => map
                    end) parsed acc)).
  { induction parsed as [|item rest IH]; intros acc Hacc; simpl; auto.
    apply IH. destruct (get_prop item "id") eqn:E; auto.
    destruct (truthy item); auto. now apply set_key_keyed. }
  apply H, keyed_nil.
Qed.

Lemma keyed_lookup (id : string) (v : value) (m : list (string * value)) :
  keyed_by_id m -> lookup_key id m = Some v -> get_prop v "id" = VStr id.
Proof.
  intros [_ Hf] Hl. apply lookup_key_some_in in Hl.
  rewrite List.Forall_forall in Hf. exact (Hf _ Hl).
Qed.

Lemma writeToDisk_map (env : Env) (s : FileStorage.t * World) :
  FileStorage._map (fst (snd (FileStorage._writeToDisk env s)))
  = FileStorage._map (fst s).
Proof.
  destruct s as [me w]. unfold FileStorage._writeToDisk. run.
  destruct (sort_by_createdAt (values (FileStorage._map me))); simpl; auto.
  destruct (fault env (io w)); simpl.
  - destruct (fault env (S (io w))); reflexivity.
  - rewrite lookup_insert_eq.
    destruct (fault env (S (io w))); simpl; auto.
    destruct (fault env (S (S (io w)))); reflexivity.
Qed.

Lemma write_if_immediate_map (env : Env) (s : FileStorage.t * World) :
  FileStorage._map (fst (snd (FileStorage.write_if_immediate env s)))
  = FileStorage._map (fst s).
Proof.
  destruct s as [me w]. unfold FileStorage.write_if_immediate. run.
  destruct (String.eqb _ _); [apply writeToDisk_map|reflexivity].
Qed.

Lemma file_init_keyed (env : Env) (s : FileStorage.t * World) :
  keyed_by_id (FileStorage._map (fst s)) ->
  keyed_by_id (FileStorage._map (fst (snd (FileStorage.init env s)))).
Proof.
  destruct s as [me w]. intros Hk.
  unfold FileStorage.init, FileStorage.start_empty. run.
  destruct (FileStorage._inited me) eqn:Hi; simpl; auto.
  destruct (fault env (io w)); simpl; auto.
  destruct (fault env (S (io w))) as [code|]; simpl.
  - destruct (String.eqb code "ENOENT"); simpl; auto using keyed_nil.
  - destruct (files w !! FileStorage.filepath me) as [content|]; simpl;
      auto using keyed_nil.
    destruct (String.eqb content "" || (String.length (trim content) =? 0));
      simpl; auto using keyed_nil.
    destruct (JSON.parse content) as [[]|]; simpl;
      auto using keyed_nil, load_keyed.
Qed.

Lemma file_close_map (env : Env) (s : FileStorage.t * World) :
  FileStorage._map (fst (snd (FileStorage.close env s)))
  = FileStorage._map (fst s).
Proof.
  destruct s as [me w]. unfold FileStorage.close.
  unfold bind at 1. unfold self, gets. simpl.
  destruct (negb (FileStorage._inited me)); [reflexivity|].
  unfold bind at 1.
  destruct (String.eqb (FileStorage.mode me) "onClose"
            && FileStorage._dirty me).
  - pose proof (writeToDisk_map env (me, w)) as H.
    destruct (FileStorage._writeToDisk env (me, w)) as [[[]|e] [me1 w1]];
      simpl in *; auto.
  - reflexivity.
Qed.

Lemma after_write_map (env : Env) {A} (a : A) (s : FileStorage.t * World) :
  FileStorage._map
    (fst (snd (match FileStorage.write_if_immediate env s with
               | (Ok _, s') => (Ok a, s')
               | (Throw e, s') => (Throw e, s')
               end)))
  = FileStorage._map (fst s).
Proof.
  pose proof (write_if_immediate_map env s) as H.
  destruct (FileStorage.write_if_immediate env s) as [[[]|e] s']; auto.
Qed.

Lemma file_call_keyed (env : Env) (c : call) (s : FileStorage.t * World) :
  keyed_by_id (FileStorage._map (fst s)) ->
  keyed_by_id (FileStorage._map (fst (snd (file_call env c s)))).
Proof.
  destruct s as [me w]. intros Hk. destruct c; simpl.
  - unfold bind.
    pose proof (file_init_keyed env (me, w) Hk) as H.
    destruct (FileStorage.init env (me, w)) as [[[]|e] s']; auto.
  - unfold bind.
    pose proof (file_close_map env (me, w)) as H.
    destruct (FileStorage.close env (me, w)) as [[[]|e] s']; simpl in *;
      now rewrite H.
  - destruct (title_missing todoData) eqn:Hm.
    + rewrite file_addTodo_invalid; auto. simpl. now rewrite ensured_map.
    + rewrite file_addTodo_valid; auto. rewrite after_write_map. simpl.
      apply set_key_keyed; auto.
  - unfold bind.
    assert (H : FileStorage._map
                  (fst (snd (FileStorage.getAllTodos opts (me, w))))
                = FileStorage._map me).
    { unfold FileStorage.getAllTodos. unfold bind at 1.
      rewrite ensureInit_run. run.
      destruct (sort_by_createdAt _); simpl; [|apply ensured_map].
      destruct (limit opts); simpl; apply ensured_map. }
    destruct (FileStorage.getAllTodos opts (me, w)) as [[l|e] s'];
      simpl in *; now rewrite H.
  - rewrite file_getTodoById_run. simpl. now rewrite ensured_map.
  - destruct (lookup_key id (FileStorage._map me)) as [existing|] eqn:Hl.
    + destruct (value_eq_null patch) as [->|Hn].
      * unfold FileStorage.updateTodo. unfold bind at 1.
        rewrite ensureInit_run. run. rewrite ensured_map, Hl. simpl.
        now rewrite ensured_map.
      * rewrite (file_updateTodo_found env id patch me w existing Hl Hn).
        rewrite after_write_map. simpl. apply set_key_keyed; auto.
        simpl. rewrite merge_patch_prop. simpl.
        eapply keyed_lookup; eauto.
    + rewrite file_updateTodo_absent; auto. simpl. now rewrite ensured_map.
  - unfold bind.
    assert (H : keyed_by_id
                  (FileStorage._map
                     (fst (snd (FileStorage.deleteTodo env id (me, w)))))).
    { destruct (lookup_key id (FileStorage._map me)) as [existing|] eqn:Hl.
      - rewrite file_deleteTodo_found; [|now rewrite Hl].
        rewrite after_write_map. simpl. now apply delete_key_keyed.
      - rewrite file_deleteTodo_absent; auto. simpl. now rewrite ensured_map. }
    destruct (FileStorage.deleteTodo env id (me, w)) as [[b|e] s']; auto.
Qed.

Lemma run_calls_keyed (env : Env) (cs : list call)
    (s : FileStorage.t * World) :
  keyed_by_id (FileStorage._map (fst s)) ->
  keyed_by_id (FileStorage._map (fst (snd (run_calls (file_call env) cs s)))).
Proof.
  revert s. induction cs as [|c cs IH]; intros s Hk; simpl; auto.
  pose proof (file_call_keyed env c s Hk) as H1.
  destruct (file_call env c s) as [o s1]. simpl in H1.
  specialize (IH s1 H1).
  destruct (run_calls (file_call env) cs s1) as [os s2]. exact IH.
Qed.

Lemma id_of_clone (v : value) : id_of (FileStorage._clone v) = id_of v.
Proof. unfold id_of, FileStorage._clone. simpl. now rewrite prop_spread. Qed.

Lemma keyed_ids (m : list (string * value)) :
  keyed_by_id m -> map id_of (values m) = keys m.
Proof.
  intros [_ Hf]. unfold values, keys. rewrite map_map.
  apply map_ext_in. intros kv Hin. rewrite List.Forall_forall in Hf.
  unfold id_of. now rewrite (Hf kv Hin).
Qed.

(** X18.  Whatever the calls, the medium and the contents of the file, the
    File Backend files every record under its own [id] and holds no id
    twice: after any sequence of calls on a constructed instance,
    [getTodoById] returns [null] or a record that carries the id asked for,
    and no two records of a listing share an id. *)
Theorem file_ids_unique (env : Env) (options : FileStorage.Options)
    (me : FileStorage.t) (w : World) (cs : list call) :
  FileStorage.new options = Ok me ->
  let s' := snd (run_calls (file_call env) cs (me, w)) in
  keyed_by_id (FileStorage._map (fst s')) /\
  (forall id r,
     fst (FileStorage.getTodoById id s') = Ok r ->
     r = VNull \/ get_prop r "id" = VStr id) /\
  (forall opts items,
     fst (FileStorage.getAllTodos opts s') = Ok items ->
     List.NoDup (map id_of items)).
Proof.
  intros Hnew s'.
  assert (Hk : keyed_by_id (FileStorage._map (fst s'))).
  { apply run_calls_keyed. simpl.
    destruct (file_new_fresh _ _ Hnew) as (-> & _). apply keyed_nil. }
  split; [exact Hk|]. destruct s' as [me' w']. simpl in Hk. split.
  - intros id r. rewrite file_getTodoById_run. simpl.
    destruct (lookup_key id (FileStorage._map me')) as [todo|] eqn:Hl.
    + intros [= <-]. right. unfold FileStorage._clone. simpl.
      rewrite prop_spread. eapply keyed_lookup; eauto.
    + intros [= <-]. now left.
  - intros opts items. unfold FileStorage.getAllTodos.
    unfold bind at 1. rewrite ensureInit_run. run. rewrite ensured_map.
    destruct (sort_by_createdAt (values (FileStorage._map me')))
      as [arr|e] eqn:Hs; simpl; [|destruct (limit opts); discriminate].
    apply sort_by_createdAt_ok in Hs. destruct Hs as [Hp _].
    assert (Hnd : List.NoDup (map id_of arr)).
    { eapply Permutation_NoDup;
        [apply Permutation_map; symmetry; exact Hp|].
      rewrite keyed_ids; auto. apply Hk. }
    assert (Hc : forall l, map id_of (map FileStorage._clone l)
                           = map id_of l).
    { intros l. rewrite map_map. apply map_ext. apply id_of_clone. }
    destruct (limit opts) as [L|]; simpl; intros [= <-]; rewrite Hc; auto.
    unfold js_slice.
    set (n := Z.to_nat _). set (k := Z.to_nat _).
    clear -Hnd. revert n k.
    assert (Hskip : forall k (l : list string),
              List.NoDup l -> List.NoDup (skipn k l)).
    { induction k as [|k IH]; intros l Hl; simpl; auto.
      destruct l; [constructor|]. inversion Hl; subst. now apply IH. }
    assert (Hfirst : forall n (l : list string),
              List.NoDup l -> List.NoDup (firstn n l)).
    { induction n as [|n IH]; intros l Hl; simpl; [constructor|].
      destruct l as [|x l]; [constructor|]. inversion Hl; subst.
      constructor; auto. intros Hin. apply in_firstn in Hin. auto. }
    intros n k. rewrite <- firstn_map, <- skipn_map. auto.
Qed.

Lemma file_ids_unique_witness :
  let s' :=
    snd (run_calls (file_call full_disk_env) rough_session
           (sample_file "immediate", empty_world)) in
  keyed_by_id (FileStorage._map (fst s')) /\
  (forall id r,
     fst (FileStorage.getTodoById id s') = Ok r ->
     r = VNull \/ get_prop r "id" = VStr id) /\
  (forall opts items,
     fst (FileStorage.getAllTodos opts s') = Ok items ->
     List.NoDup (map id_of items)).
Proof.
  exact (file_ids_unique full_disk_env
           {| FileStorage.opt_filepath := None;
              FileStorage.opt_pretty := None;
              FileStorage.opt_mode := Some "immediate" |}
           (sample_file "immediate") empty_world rough_session eq_refl).
Defined.

Lemma rows_counters (me : SqliteFileStorage.t) (w : World) :
  SqliteFileStorage.rows me (next_io w) = SqliteFileStorage.rows me w /\
  SqliteFileStorage.rows me (next_tick w) = SqliteFileStorage.rows me w /\
  SqliteFileStorage.rows me (next_id w) = SqliteFileStorage.rows me w.
Proof. repeat split. Qed.

Lemma update_ids (title description : string) (done : Z)
    (updated_at id : string) (tbl : list row) :
  map r_id (Sql.update title description done updated_at id tbl)
  = map r_id tbl.
Proof.
  unfold Sql.update. rewrite map_map. apply map_ext.
  intros x. now destruct (String.eqb (r_id x) id).
Qed.

Lemma nodup_map_filter {A B} (f : A -> B) (p : A -> bool) (l : list A) :
  List.NoDup (map f l) -> List.NoDup (map f (List.filter p l)).
Proof.
  induction l as [|x l IH]; simpl; auto.
  intros H. inversion H as [|? ? Hn Hr]; subst.
  destruct (p x); simpl; auto. constructor; auto.
  intros Hin. apply Hn. apply in_map_iff in Hin.
  destruct Hin as [y [Hy Hin]]. apply List.filter_In in Hin.
  apply in_map_iff. exists y. tauto.
Qed.

Lemma insert_ids (r : row) (tbl tbl' : list row) :
  Sql.insert r tbl = Ok tbl' ->
  List.NoDup (map r_id tbl) -> List.NoDup (map r_id tbl').
Proof.
  unfold Sql.insert.
  destruct (existsb (fun x => String.eqb (r_id x) (r_id r)) tbl) eqn:E;
    [discriminate|].
  intros [= <-] Hnd. rewrite map_app. simpl.
  eapply Permutation_NoDup; [apply Permutation_cons_append|].
  constructor; [|exact Hnd].
  intros Hx. apply in_map_iff in Hx. destruct Hx as [y [Hy Hin]].
  assert (Ht : existsb (fun x => String.eqb (r_id x) (r_id r)) tbl = true).
  { apply existsb_exists. exists y. split; auto.
    rewrite Hy. apply String.eqb_refl. }
  congruence.
Qed.

Lemma sqlite_call_ids (env : Env) (c : call)
    (s : SqliteFileStorage.t * World) :
  List.NoDup (map r_id (table_of s)) ->
  List.NoDup (map r_id (table_of (snd (sqlite_call env c s)))).
Proof.
  destruct s as [me w]. unfold table_of. simpl. intros Hnd.
  destruct c; simpl.
  - unfold SqliteFileStorage.init, SqliteFileStorage.open,
      SqliteFileStorage._exec. run.
    destruct (SqliteFileStorage._inited me); simpl; auto.
    repeat match goal with
           | |- context [match fault env ?n with _ => _ end] =>
               destruct (fault env n); simpl
           | |- context [match files ?w !! ?p with _ => _ end] =>
               destruct (files w !! p); simpl
           end;
      unfold SqliteFileStorage.rows in *; simpl in *;
      rewrite ?lookup_insert_eq; exact Hnd.
  - unfold bind. rewrite sqlite_close_run. simpl.
    now destruct (SqliteFileStorage.db me).
  - unfold SqliteFileStorage.addTodo, SqliteFileStorage._ensureInit,
      SqliteFileStorage.table, SqliteFileStorage.store. run.
    destruct (SqliteFileStorage._inited me); simpl; auto.
    destruct (title_missing todoData); simpl; auto.
    match goal with
    | |- context [Sql.insert ?r ?t] =>
        pose proof (insert_ids r t) as Hins; destruct (Sql.insert r t)
    end; simpl; auto.
    rewrite rows_store. apply (Hins _ eq_refl). exact Hnd.
  - unfold SqliteFileStorage.getAllTodos, SqliteFileStorage._ensureInit,
      SqliteFileStorage.table. run.
    destruct (SqliteFileStorage._inited me); simpl; auto.
    destruct (limit opts); simpl; auto.
    destruct (Sql.limit_offset _ _ _); simpl; auto.
  - unfold SqliteFileStorage.getTodoById, SqliteFileStorage._ensureInit,
      SqliteFileStorage.table. run.
    destruct (SqliteFileStorage._inited me); simpl; auto.
    destruct (Sql.select_by_id id (SqliteFileStorage.rows me w)); auto.
  - destruct (SqliteFileStorage._inited me) eqn:Hi.
    + destruct (Sql.select_by_id id (SqliteFileStorage.rows me w))
        as [r|] eqn:Hs.
      * rewrite (sqlite_updateTodo_found env id patch me w r Hi Hs).
        destruct patch; simpl; auto; rewrite rows_store;
          change (map r_id (map ?f ?l)) with (map r_id (map f l));
          rewrite map_map;
          (erewrite map_ext; [exact Hnd|]);
          intros x; unfold updated_row;
          now destruct (String.eqb (r_id x) id).
      * now rewrite sqlite_updateTodo_absent.
    + now rewrite sqlite_updateTodo_closed.
  - destruct (SqliteFileStorage._inited me) eqn:Hi.
    + unfold bind. rewrite sqlite_deleteTodo_run; auto. simpl.
      rewrite rows_store. unfold Sql.delete. simpl.
      now apply nodup_map_filter.
    + assert (Hd : SqliteFileStorage.deleteTodo id (me, w)
                   = (Throw SqliteFileStorage.not_initialized, (me, w))).
      { unfold SqliteFileStorage.deleteTodo. unfold bind at 1.
        now rewrite sqlite_ensureInit_closed. }
      unfold bind. rewrite Hd. exact Hnd.
Qed.

Lemma run_calls_ids (env : Env) (cs : list call)
    (s : SqliteFileStorage.t * World) :
  List.NoDup (map r_id (table_of s)) ->
  List.NoDup (map r_id (table_of (snd (run_calls (sqlite_call env) cs s)))).
Proof.
  revert s. induction cs as [|c cs IH]; intros s Hk; simpl; auto.
  pose proof (sqlite_call_ids env c s Hk) as H1.
  destruct (sqlite_call env c s) as [o s1]. simpl in H1.
  specialize (IH s1 H1).
  destruct (run_calls (sqlite_call env) cs s1) as [os s2]. exact IH.
Qed.

Lemma nodup_skipn {A} (k : nat) (l : list A) :
  List.NoDup l -> List.NoDup (skipn k l).
Proof.
  revert l. induction k as [|k IH]; intros l Hl; simpl; auto.
  destruct l; [constructor|]. inversion Hl; subst. now apply IH.
Qed.

Lemma nodup_firstn {A} (n : nat) (l : list A) :
  List.NoDup l -> List.NoDup (firstn n l).
Proof.
  revert l. induction n as [|n IH]; intros l Hl; simpl; [constructor|].
  destruct l as [|x l]; [constructor|]. inversion Hl; subst.
  constructor; auto. intros Hin. apply in_firstn in Hin. auto.
Qed.

Lemma id_of_rowToTodo (r : row) :
  id_of (SqliteFileStorage._rowToTodo r) = r_id r.
Proof. reflexivity. Qed.

(** X19.  The table of the Relational Backend never comes to hold an id
    twice: from a table with distinct ids, after any sequence of calls, no
    two records of a listing share an id, and [getTodoById] returns [null]
    or a record that carries the id asked for. *)
Theorem sqlite_ids_unique (env : Env) (me : SqliteFileStorage.t)
    (w : World) (cs : list call) :
  List.NoDup (map r_id (SqliteFileStorage.rows me w)) ->
  let s' := snd (run_calls (sqlite_call env) cs (me, w)) in
  List.NoDup (map r_id (table_of s')) /\
  (forall opts items,
     fst (SqliteFileStorage.getAllTodos opts s') = Ok items ->
     List.NoDup (map id_of items)) /\
  (forall id r,
     fst (SqliteFileStorage.getTodoById id s') = Ok r ->
     r = VNull \/ get_prop r "id" = VStr id).
Proof.
  intros Hnd s'.
  assert (Hk : List.NoDup (map r_id (table_of s'))).
  { apply run_calls_ids. exact Hnd. }
  split; [exact Hk|]. destruct s' as [me' w']. unfold table_of in Hk.
  simpl in Hk.
  destruct (SqliteFileStorage._inited me') eqn:Hi.
  - split.
    + intros opts items. rewrite sqlite_getAllTodos_run; auto.
      cbn [fst].
      assert (Hs : List.NoDup
                (map r_id (Sql.select_all (SqliteFileStorage.rows me' w')))).
      { eapply Permutation_NoDup; [|exact Hk].
        apply Permutation_map. symmetry. apply sort_by_perm. }
      destruct (limit opts) as [L|].
      * unfold Sql.limit_offset.
        destruct (Sql.int64 L && Sql.int64 (offset_or_0 opts));
          [|discriminate].
        intros [= <-]. rewrite map_map.
        rewrite (map_ext _ r_id) by apply id_of_rowToTodo.
        destruct (L <? 0)%Z; rewrite <- ?firstn_map, <- skipn_map;
          auto using nodup_firstn, nodup_skipn.
      * intros [= <-]. rewrite map_map.
        now rewrite (map_ext _ r_id) by apply id_of_rowToTodo.
    + intros id r. rewrite sqlite_getTodoById_run; auto. simpl.
      destruct (Sql.select_by_id id (SqliteFileStorage.rows me' w'))
        as [x|] eqn:Hs; intros [= <-]; [right|now left].
      simpl. unfold prop. simpl. f_equal. eapply select_by_id_id; eauto.
  - split.
    + intros opts items. unfold SqliteFileStorage.getAllTodos.
      unfold bind at 1. rewrite sqlite_ensureInit_closed; auto.
      discriminate.
    + intros id r. unfold SqliteFileStorage.getTodoById.
      unfold bind at 1. rewrite sqlite_ensureInit_closed; auto.
      discriminate.
Qed.

Lemma sqlite_ids_unique_witness :
  let s' :=
    snd (run_calls (sqlite_call stuck_env) rough_session
           (sample_sqlite false, sample_world)) in
  List.NoDup (map r_id (table_of s')) /\
  (forall opts items,
     fst (SqliteFileStorage.getAllTodos opts s') = Ok items ->
     List.NoDup (map id_of items)) /\
  (forall id r,
     fst (SqliteFileStorage.getTodoById id s') = Ok r ->
     r = VNull \/ get_prop r "id" = VStr id).
Proof.
  apply (sqlite_ids_unique stuck_env (sample_sqlite false) sample_world
           rough_session).
  vm_compute. constructor; [intros []|constructor].
Defined.

Lemma js_String_str (s : string) : js_String (VStr s) = s.
Proof. unfold js_String. simpl. apply string_list_ascii. Qed.

Lemma toggle_patch_prop (todo : value) (k : string) :
  get_prop (toggle_patch todo) k
  = if String.eqb k "done"
    then VBool (negb (truthy (get_prop todo "done")))
    else get_prop todo k.
Proof.
  unfold toggle_patch, assign. simpl. rewrite prop_set_key, prop_spread.
  now rewrite (String.eqb_sym k).
Qed.

Lemma toggled (existing : value) (now k : string) :
  (exists d, get_prop existing "description" = VStr d) \/
  get_prop existing "description" = VUndef ->
  prop (merge_patch existing (toggle_patch existing) now) k
  = if String.eqb k "updatedAt" then VStr now
    else if String.eqb k "done"
         then VBool (negb (truthy (get_prop existing "done")))
         else get_prop existing k.
Proof.
  intros Hd. rewrite merge_patch_prop, !toggle_patch_prop. simpl.
  destruct (String.eqb k "updatedAt"); auto.
  destruct (String.eqb k "done"); auto.
  destruct (String.eqb_spec k "description") as [->|_].
  - destruct Hd as [[d Hd]|Hd]; rewrite Hd; auto.
    now rewrite js_String_str.
  - destruct (String.eqb_spec k "title") as [->|_]; auto.
    now destruct (get_prop existing "title").
Qed.

(** X20.  Sending a stored record back as its own patch with [done] negated,
    as the list view does, flips [done], refreshes [updatedAt] and changes
    no other field, on both backends. *)
Theorem toggle_flips_done_only (env : Env) (id : string) (w : World) :
  (forall me existing,
     lookup_key id (FileStorage._map me) = Some existing ->
     (exists d, get_prop existing "description" = VStr d) \/
     get_prop existing "description" = VUndef ->
     can_persist env me ->
     exists updated s',
       FileStorage.updateTodo env id (toggle_patch existing) (me, w)
       = (Ok (VObj updated), s') /\
       prop updated "done"
       = VBool (negb (truthy (get_prop existing "done"))) /\
       prop updated "updatedAt" = VStr (clock env (ticks w)) /\
       forall k, k <> "done" -> k <> "updatedAt" ->
                 prop updated k = get_prop existing k) /\
  (forall me r,
     SqliteFileStorage._inited me = true ->
     Sql.select_by_id id (SqliteFileStorage.rows me w) = Some r ->
     let existing := SqliteFileStorage._rowToTodo r in
     exists updated s',
       SqliteFileStorage.updateTodo env id (toggle_patch existing) (me, w)
       = (Ok (VObj updated), s') /\
       prop updated "done"
       = VBool (negb (truthy (get_prop existing "done"))) /\
       prop updated "updatedAt" = VStr (clock env (ticks w)) /\
       forall k, k <> "done" -> k <> "updatedAt" ->
                 prop updated k = get_prop existing k).
Proof.
  assert (Hk : forall existing now,
            (exists d, get_prop existing "description" = VStr d) \/
            get_prop existing "description" = VUndef ->
            let updated := merge_patch existing (toggle_patch existing) now in
            prop updated "done"
            = VBool (negb (truthy (get_prop existing "done"))) /\
            prop updated "updatedAt" = VStr now /\
            forall k, k <> "done" -> k <> "updatedAt" ->
                      prop updated k = get_prop existing k).
  { intros existing now Hd updated. unfold updated.
    split; [now rewrite toggled|]. split; [now rewrite toggled|].
    intros k H1 H2. rewrite toggled; auto.
    apply String.eqb_neq in H1, H2. now rewrite H1, H2. }
  split.
  - intros me existing Hl Hd Hp.
    assert (Hn : toggle_patch existing <> VNull) by discriminate.
    rewrite (file_updateTodo_ok env id (toggle_patch existing) me w existing
               Hl Hn Hp).
    eexists _, _. split; [reflexivity|]. now apply Hk.
  - intros me r Hi Hs existing.
    rewrite (sqlite_updateTodo_found env id (toggle_patch existing) me w r
               Hi Hs).
    eexists _, _. split; [reflexivity|]. apply Hk.
    left. unfold existing. simpl. unfold prop. simpl.
    rewrite text_rowToTodo_stable. eauto.
Qed.

Lemma toggle_flips_done_only_witness :
  exists updated s',
    FileStorage.updateTodo sample_env "todo-0" (toggle_patch sample_record)
      (sample_store "onClose", empty_world)
    = (Ok (VObj updated), s') /\
    prop updated "done"
    = VBool (negb (truthy (get_prop sample_record "done"))) /\
    prop updated "updatedAt" = VStr (clock sample_env (ticks empty_world)) /\
    forall k, k <> "done" -> k <> "updatedAt" ->
              prop updated k = get_prop sample_record k.
Proof.
  apply (proj1 (toggle_flips_done_only sample_env "todo-0" empty_world)
           (sample_store "onClose") sample_record eq_refl).
  - left. exists "". reflexivity.
  - intros H. discriminate H.
Defined.

(** ** The levels of the logger *)

Lemma lower_char_idem (c : ascii) :
  Logger.lower_char (Logger.lower_char c) = Logger.lower_char c.
Proof.
  destruct c as [[] [] [] [] [] [] [] []]; vm_compute; reflexivity.
Qed.

Lemma toLowerCase_idem (s : string) :
  Logger.toLowerCase (Logger.toLowerCase s) = Logger.toLowerCase s.
Proof.
  unfold Logger.toLowerCase. rewrite list_ascii_of_string_of_list_ascii.
  rewrite map_map. f_equal. apply map_ext. apply lower_char_idem.
Qed.

Lemma toLowerCase_empty (s : string) :
  Logger.toLowerCase s = "" <-> s = "".
Proof.
  split; [|now intros ->].
  destruct s; auto. discriminate.
Qed.

Lemma level_names (name : string) :
  has_key name Logger.LEVELS = true ->
  In name ["silent"; "error"; "warn"; "info"; "debug"; "trace"].
Proof.
  unfold has_key, Logger.LEVELS. simpl.
  repeat match goal with
         | |- context [String.eqb name ?s] =>
             destruct (String.eqb_spec name s); [subst; simpl; tauto|]
         end.
  discriminate.
Qed.

Lemma normalizeLevel_name (v : value) :
  In (Logger.normalizeLevel v)
     ["silent"; "error"; "warn"; "info"; "debug"; "trace"].
Proof.
  unfold Logger.normalizeLevel.
  destruct (has_key _ Logger.LEVELS) eqn:E.
  - now apply level_names.
  - simpl. tauto.
Qed.

Lemma normalizeLevel_fixed (name : string) :
  In name ["silent"; "error"; "warn"; "info"; "debug"; "trace"] ->
  Logger.normalizeLevel (VStr name) = name.
Proof.
  simpl. intros [<-|[<-|[<-|[<-|[<-|[<-|[]]]]]]]; reflexivity.
Qed.

Lemma normalizeLevel_idem (v : value) :
  Logger.normalizeLevel (VStr (Logger.normalizeLevel v))
  = Logger.normalizeLevel v.
Proof. apply normalizeLevel_fixed, normalizeLevel_name. Qed.

Lemma level_name_key (name : string) :
  In name ["silent"; "error"; "warn"; "info"; "debug"; "trace"] <->
  has_key name Logger.LEVELS = true.
Proof.
  unfold has_key. cbn [Logger.LEVELS lookup_key]. split.
  - simpl. intros [<-|[<-|[<-|[<-|[<-|[<-|[]]]]]]]; reflexivity.
  - repeat match goal with
           | |- context [String.eqb name ?k] =>
               destruct (String.eqb_spec name k) as [->|?];
               [intros _; simpl; tauto|]
           end.
    discriminate.
Qed.

(** X21.  [normalizeLevel] always returns one of the six level names.  It
    returns a level name as it is, and a string that is a level name but
    for the case of its letters as that name in lower case; every other
    string and every falsy value give [info]. *)
Theorem normalizeLevel_names (level : value) :
  In (Logger.normalizeLevel level)
     ["silent"; "error"; "warn"; "info"; "debug"; "trace"] /\
  (forall name,
     In name ["silent"; "error"; "warn"; "info"; "debug"; "trace"] ->
     Logger.normalizeLevel (VStr name) = name) /\
  (forall s,
     In (Logger.toLowerCase s)
        ["silent"; "error"; "warn"; "info"; "debug"; "trace"] ->
     Logger.normalizeLevel (VStr s) = Logger.toLowerCase s) /\
  (forall s,
     ~ In (Logger.toLowerCase s)
          ["silent"; "error"; "warn"; "info"; "debug"; "trace"] ->
     Logger.normalizeLevel (VStr s) = "info") /\
  (truthy level = false -> Logger.normalizeLevel level = "info").
Proof.
  assert (Hstr : forall s,
            Logger.normalizeLevel (VStr s)
            = if has_key (Logger.toLowerCase s) Logger.LEVELS
              then Logger.toLowerCase s else "info").
  { intros s. unfold Logger.normalizeLevel, js_or. simpl.
    destruct (String.eqb_spec s "") as [->|Hs]; [reflexivity|].
    cbn [negb]. now rewrite js_String_str. }
  split; [apply normalizeLevel_name|].
  split; [apply normalizeLevel_fixed|].
  split; [|split].
  - intros s Hin. rewrite Hstr.
    now rewrite (proj1 (level_name_key _) Hin).
  - intros s Hout. rewrite Hstr.
    destruct (has_key (Logger.toLowerCase s) Logger.LEVELS) eqn:E; auto.
    apply level_name_key in E. contradiction.
  - intros Hf. unfold Logger.normalizeLevel, js_or. now rewrite Hf.
Qed.

Lemma normalizeLevel_names_witness :
  Logger.normalizeLevel (VStr "WARN") = "warn" /\
  Logger.normalizeLevel (VStr "Debug") = "debug" /\
  Logger.normalizeLevel (VStr "verbose") = "info" /\
  Logger.normalizeLevel VNull = "info".
Proof.
  split; [|split; [|split]].
  - apply (proj1 (proj2 (proj2 (normalizeLevel_names VUndef))) "WARN").
    simpl. tauto.
  - apply (proj1 (proj2 (proj2 (normalizeLevel_names VUndef))) "Debug").
    simpl. tauto.
  - apply (proj1 (proj2 (proj2 (proj2 (normalizeLevel_names VUndef))))
             "verbose").
    simpl. intuition discriminate.
  - exact (proj2 (proj2 (proj2 (proj2 (normalizeLevel_names VNull))))
             eq_refl).
Defined.

Lemma rank_range (name : string) :
  In name ["silent"; "error"; "warn"; "info"; "debug"; "trace"] ->
  (0 <= Logger.rank name <= 5)%Z /\
  (Logger.rank name = 0%Z <-> name = "silent").
Proof.
  simpl. intros [<-|[<-|[<-|[<-|[<-|[<-|[]]]]]]]; vm_compute;
    (split; [split; discriminate|split; congruence]).
Qed.

Lemma prop_setLevel (level : value) (config : obj) :
  prop (Logger.setLevel level config) "level"
  = VStr (Logger.normalizeLevel level).
Proof. unfold Logger.setLevel. now rewrite prop_set_key. Qed.

(** X22.  The threshold of the logger. After [setLevel(l)] a message of
    level [m] is enabled exactly when the rank of [m] is at most the rank of
    [l] and [l] is not [silent], both taken after normalisation. So under
    [silent] nothing is enabled, under any other level [error] is, an
    unknown level counts as [info], and what is enabled stays enabled when
    the configured level goes up. *)
Theorem isEnabled_threshold (config : obj) (l m : value) :
  let current := Logger.rank (Logger.normalizeLevel l) in
  let target := Logger.rank (Logger.normalizeLevel m) in
  Logger.isEnabled (Logger.setLevel l config) m
  = (target <=? current)%Z && negb (current =? 0)%Z /\
  (Logger.normalizeLevel l = "silent" ->
   Logger.isEnabled (Logger.setLevel l config) m = false) /\
  (Logger.normalizeLevel l <> "silent" ->
   Logger.isEnabled (Logger.setLevel l config) (VStr "error") = true) /\
  Logger.isEnabled (Logger.setLevel l config) m
  = Logger.isEnabled (Logger.setLevel l config)
      (VStr (Logger.normalizeLevel m)) /\
  (forall l',
     (current <= Logger.rank (Logger.normalizeLevel l'))%Z ->
     Logger.isEnabled (Logger.setLevel l config) m = true ->
     Logger.isEnabled (Logger.setLevel l' config) m = true).
Proof.
  intros current target.
  assert (He : forall x y,
            Logger.isEnabled (Logger.setLevel x config) y
            = (Logger.rank (Logger.normalizeLevel y)
               <=? Logger.rank (Logger.normalizeLevel x))%Z
              && negb (Logger.rank (Logger.normalizeLevel x) =? 0)%Z).
  { intros x y. unfold Logger.isEnabled.
    now rewrite prop_setLevel, normalizeLevel_idem. }
  split; [apply He|].
  destruct (rank_range _ (normalizeLevel_name l)) as [Hl Hl0].
  destruct (rank_range _ (normalizeLevel_name m)) as [Hm _].
  split; [|split; [|split]].
  - intros Hs. rewrite He, Hs. apply andb_false_r.
  - intros Hs. rewrite He. apply andb_true_iff. split.
    + apply Z.leb_le. change (Logger.normalizeLevel (VStr "error"))
        with "error". change (Logger.rank "error") with 1%Z.
      assert (Logger.rank (Logger.normalizeLevel l) <> 0%Z) by tauto. lia.
    + apply negb_true_iff, Z.eqb_neq. tauto.
  - now rewrite !He, normalizeLevel_idem.
  - intros l' Hle. rewrite !He. intros H.
    apply andb_true_iff in H. destruct H as [H1 H2].
    apply Z.leb_le in H1. apply negb_true_iff, Z.eqb_neq in H2.
    apply andb_true_iff. fold current in H1, H2, Hl. split.
    + apply Z.leb_le. lia.
    + apply negb_true_iff, Z.eqb_neq. lia.
Qed.

Lemma isEnabled_threshold_witness :
  Logger.isEnabled (Logger.setLevel (VStr "SILENT") sample_config)
    (VStr "error") = false /\
  Logger.isEnabled (Logger.setLevel (VStr "Warn") sample_config)
    (VStr "error") = true.
Proof.
  split.
  - exact (proj1 (proj2 (isEnabled_threshold sample_config (VStr "SILENT")
                           (VStr "error"))) eq_refl).
  - refine (proj1 (proj2 (proj2 (isEnabled_threshold sample_config
                                   (VStr "Warn") (VStr "error")))) _).
    discriminate.
Defined.

Lemma prop_assign (config kvs : obj) (k : string) :
  prop (assign config kvs) k
  = match lookup_key k (rev kvs) with
    | Some v => v
    | None => prop config k
    end.
Proof.
  unfold assign. revert config.
  induction kvs as [|[k' v'] r IH]; intros config; simpl; auto.
  rewrite IH, prop_set_key.
  assert (Hl : lookup_key k (rev r ++ [(k', v')])
               = match lookup_key k (rev r) with
                 | Some v => Some v
                 | None => if String.eqb k k' then Some v' else None
                 end).
  { generalize (rev r). intros l.
    induction l as [|[k2 v2] l IHl]; simpl; [reflexivity|].
    destruct (String.eqb k k2); [reflexivity|exact IHl]. }
  rewrite Hl. destruct (lookup_key k (rev r)); auto.
  rewrite (String.eqb_sym k'). now destruct (String.eqb k k').
Qed.

(** ** Decimal rendering *)

Lemma pos_digits_app (fuel : nat) (n : N) (acc : list ascii) :
  pos_digits fuel n acc = pos_digits fuel n [] ++ acc.
Proof.
  revert n acc. induction fuel as [|f IH]; intros n acc; simpl; auto.
  destruct (n <? 10)%N; auto.
  rewrite (IH _ (_ :: acc)), (IH _ [_]), <- app_assoc. reflexivity.
Qed.

Lemma digit_char_value (n : N) :
  N.of_nat (nat_of_ascii (digit_char (N.to_nat (n mod 10))) - 48)
  = (n mod 10)%N.
Proof.
  assert (H : (n mod 10 < 10)%N) by (apply N.mod_lt; discriminate).
  unfold digit_char. remember (n mod 10)%N as d.
  rewrite nat_ascii_embedding by lia.
  rewrite Nat.add_comm, Nat.add_sub. apply N2Nat.id.
Qed.

Lemma digit_char_digit (n : N) :
  JSON.is_digit (digit_char (N.to_nat (n mod 10))) = true.
Proof.
  assert (H : (n mod 10 < 10)%N) by (apply N.mod_lt; discriminate).
  unfold JSON.is_digit, digit_char. remember (n mod 10)%N as d.
  rewrite nat_ascii_embedding by lia.
  apply andb_true_iff. split; apply Nat.leb_le; lia.
Qed.

Lemma pos_digits_step (f : nat) (n : N) (acc : list ascii) :
  pos_digits (S f) n acc
  = if (n <? 10)%N then digit_char (N.to_nat (n mod 10)) :: acc
    else pos_digits f (n / 10) (digit_char (N.to_nat (n mod 10)) :: acc).
Proof. reflexivity. Qed.

Lemma lsd_value_cons (d : ascii) (r : list ascii) :
  lsd_value (d :: r)
  = (N.of_nat (nat_of_ascii d - 48) + 10 * lsd_value r)%N.
Proof. reflexivity. Qed.

Lemma pos_digits_value (fuel : nat) (n : N) :
  (n < 2 ^ N.of_nat fuel)%N -> 0 < fuel ->
  lsd_value (rev (pos_digits fuel n [])) = n.
Proof.
  revert n. induction fuel as [|f IH]; intros n Hn Hf; [lia|].
  rewrite pos_digits_step. destruct (n <? 10)%N eqn:E.
  - apply N.ltb_lt in E. change (rev [?d]) with [d].
    rewrite lsd_value_cons, digit_char_value.
    rewrite N.mod_small by exact E. change (lsd_value []) with 0%N. lia.
  - apply N.ltb_ge in E. rewrite pos_digits_app, rev_app_distr.
    change (rev [?d]) with [d]. change ([?d] ++ ?l) with (d :: l).
    rewrite lsd_value_cons, digit_char_value.
    assert (Hq : (n / 10 < 2 ^ N.of_nat f)%N).
    { rewrite Nat2N.inj_succ, N.pow_succ_r' in Hn.
      apply N.Div0.div_lt_upper_bound. lia. }
    assert (Hf' : 0 < f).
    { destruct f; [|lia]. change (2 ^ N.of_nat 0)%N with 1%N in Hq.
      assert (1 <= n / 10)%N; [|lia].
      apply N.div_le_lower_bound; lia. }
    rewrite IH by assumption.
    pose proof (N.div_mod n 10) as Hd. lia.
Qed.

Lemma pos_digits_digits (fuel : nat) (n : N) (acc : list ascii) :
  forallb JSON.is_digit acc = true ->
  forallb JSON.is_digit (pos_digits fuel n acc) = true.
Proof.
  revert n acc. induction fuel as [|f IH]; intros n acc Ha; [exact Ha|].
  rewrite pos_digits_step.
  assert (Hc : forallb JSON.is_digit
                 (digit_char (N.to_nat (n mod 10)) :: acc) = true).
  { cbn [forallb]. now rewrite digit_char_digit. }
  destruct (n <? 10)%N; auto.
Qed.

Lemma decimal_value (n : nat) :
  lsd_value (rev (Z_digits (Z.of_nat n))) = N.of_nat n.
Proof.
  unfold Z_digits.
  destruct (Z.of_nat n <? 0)%Z eqn:E; [apply Z.ltb_lt in E; lia|].
  replace (Z.abs_N (Z.of_nat n)) with (N.of_nat n) by lia.
  apply pos_digits_value; [|lia].
  rewrite Nat2N.inj_succ, N2Nat.id.
  destruct (N.of_nat n) as [|p] eqn:Ep; [reflexivity|].
  apply N.log2_spec. reflexivity.
Qed.

Lemma decimal_injective (i j : nat) :
  Z_digits (Z.of_nat i) = Z_digits (Z.of_nat j) -> i = j.
Proof.
  intros H. apply Nat2N.inj. rewrite <- !decimal_value. now rewrite H.
Qed.

Lemma decimal_digits (n : nat) :
  forallb JSON.is_digit (Z_digits (Z.of_nat n)) = true.
Proof.
  unfold Z_digits.
  destruct (Z.of_nat n <? 0)%Z eqn:E; [apply Z.ltb_lt in E; lia|].
  now apply pos_digits_digits.
Qed.

Lemma decimal_nonempty (n : nat) : Z_digits (Z.of_nat n) <> [].
Proof.
  unfold Z_digits.
  destruct (Z.of_nat n <? 0)%Z eqn:E; [discriminate|].
  simpl. destruct (_ <? 10)%N; [discriminate|].
  rewrite pos_digits_app. intros H. apply app_eq_nil in H.
  destruct H; discriminate.
Qed.

Lemma indexed_no_level (items : list value) (i : nat) :
  lookup_key "level" (Logger.indexed i items) = None.
Proof.
  revert i. induction items as [|v r IH]; intros i; [reflexivity|].
  cbn [Logger.indexed lookup_key].
  destruct (String.eqb "level"
              (string_of_list_ascii (Z_digits (Z.of_nat i)))) eqn:E;
    [|apply IH].
  exfalso. apply String.eqb_eq in E. pose proof (decimal_digits i) as Hd.
  apply (f_equal list_ascii_of_string) in E.
  rewrite list_ascii_of_string_of_list_ascii in E. rewrite <- E in Hd.
  discriminate Hd.
Qed.

Lemma own_level (partial : value) :
  get_prop partial "level"
  = match lookup_key "level" (Logger.own_props partial) with
    | Some v => v
    | None => VUndef
    end.
Proof.
  destruct partial; try reflexivity.
  cbn [Logger.own_props get_prop]. now rewrite indexed_no_level.
Qed.

Lemma lookup_key_rev {A} (k : string) (l : list (string * A)) :
  List.NoDup (keys l) -> lookup_key k (rev l) = lookup_key k l.
Proof.
  intros H. symmetry. apply lookup_key_perm; auto. apply Permutation_rev.
Qed.

(** X23.  [setConfig] ignores what is not an object. Of an object it takes
    every own property over the configuration; and the level in force
    afterwards is the normalised [partial.level] whenever the object has a
    [level] property at all - so a [level] that is [null], empty or
    [undefined] resets the level in force to [info] - and is unchanged when
    it has none. *)
Theorem setConfig_level_in_force (partial : value) (config : obj) :
  (truthy partial = false \/ typeof partial <> "object" ->
   Logger.setConfig partial config = config) /\
  (truthy partial = true -> typeof partial = "object" ->
   List.NoDup (keys (Logger.own_props partial)) ->
   (forall k, k <> "level" ->
      prop (Logger.setConfig partial config) k
      = match lookup_key k (Logger.own_props partial) with
        | Some v => v
        | None => prop config k
        end) /\
   Logger.normalizeLevel (prop (Logger.setConfig partial config) "level")
   = match lookup_key "level" (Logger.own_props partial) with
     | Some v => Logger.normalizeLevel v
     | None => Logger.normalizeLevel (prop config "level")
     end).
Proof.
  split.
  - intros [H|H]; unfold Logger.setConfig.
    + now rewrite H.
    + apply String.eqb_neq in H. rewrite H. now rewrite orb_true_r.
  - intros Ht Ho Hnd. unfold Logger.setConfig.
    rewrite Ht, Ho. simpl. split.
    + intros k Hk.
      destruct (truthy (get_prop partial "level")).
      * rewrite prop_set_key.
        destruct (String.eqb_spec "level" k) as [<-|_]; [contradiction|].
        now rewrite prop_assign, lookup_key_rev.
      * now rewrite prop_assign, lookup_key_rev.
    + destruct (truthy (get_prop partial "level")) eqn:E.
      * rewrite prop_set_key. simpl. rewrite normalizeLevel_idem.
        rewrite own_level in *.
        destruct (lookup_key "level" (Logger.own_props partial));
          [reflexivity|discriminate].
      * rewrite prop_assign, lookup_key_rev by assumption.
        now destruct (lookup_key "level" (Logger.own_props partial)).
Qed.

Lemma setConfig_level_in_force_witness :
  Logger.setConfig (VStr "debug") sample_config = sample_config /\
  Logger.normalizeLevel
    (prop (Logger.setConfig (VObj [("level", VNull)]) sample_config) "level")
  = "info".
Proof.
  split.
  - refine (proj1 (setConfig_level_in_force (VStr "debug") sample_config) _).
    right. discriminate.
  - refine (proj2 (proj2 (setConfig_level_in_force (VObj [("level", VNull)])
                            sample_config) eq_refl eq_refl _)).
    repeat constructor. intros [].
Defined.

(** ** The name of the application in a path *)

Lemma filter_trim_start (p : ascii -> bool) (l : list ascii) :
  (forall c, is_js_space c = true -> p c = false) ->
  List.filter p (trim_start l) = List.filter p l.
Proof.
  intros Hp. induction l as [|c r IH]; simpl; auto.
  destruct (is_js_space c) eqn:E; [|reflexivity].
  now rewrite (Hp c E).
Qed.

Lemma filter_rev_list {A} (p : A -> bool) (l : list A) :
  List.filter p (rev l) = rev (List.filter p l).
Proof.
  induction l as [|a l IH]; simpl; auto.
  rewrite List.filter_app, IH. simpl. destruct (p a); simpl; auto.
  now rewrite app_nil_r.
Qed.

Lemma filter_drop_dots (l : list ascii) :
  List.filter AppName.is_name_char (AppName.drop_dots l)
  = List.filter AppName.is_name_char l.
Proof.
  induction l as [|c r IH]; simpl; auto.
  destruct (nat_of_ascii c =? 46) eqn:E; [|reflexivity].
  rewrite IH. apply Nat.eqb_eq in E.
  unfold AppName.is_name_char. rewrite E. reflexivity.
Qed.

Lemma filter_separators (l : list ascii) :
  List.filter AppName.is_name_char
    (List.filter (fun c => negb (AppName.is_separator c)) l)
  = List.filter AppName.is_name_char l.
Proof.
  induction l as [|c r IH]; simpl; auto.
  destruct (AppName.is_separator c) eqn:E; simpl.
  - rewrite IH. unfold AppName.is_separator in E.
    apply orb_true_iff in E. unfold AppName.is_name_char.
    destruct E as [E|E]; apply Nat.eqb_eq in E; rewrite E; reflexivity.
  - now rewrite IH.
Qed.

Lemma space_not_name_char (c : ascii) :
  is_js_space c = true -> AppName.is_name_char c = false.
Proof.
  destruct c as [[] [] [] [] [] [] [] []]; vm_compute; congruence.
Qed.

Lemma filter_idem {A} (p : A -> bool) (l : list A) :
  List.filter p (List.filter p l) = List.filter p l.
Proof.
  induction l as [|a l IH]; simpl; auto.
  destruct (p a) eqn:E; simpl; rewrite ?E, IH; reflexivity.
Qed.

Lemma sanitize_as_filter (s : string) :
  AppName.sanitizeAppName (VStr s)
  = match List.filter AppName.is_name_char (list_ascii_of_string s) with
    | [] => "app"
    | n => string_of_list_ascii n
    end.
Proof.
  unfold AppName.sanitizeAppName, AppName.fallback.
  assert (Ht : List.filter AppName.is_name_char
                 (list_ascii_of_string (trim s))
               = List.filter AppName.is_name_char (list_ascii_of_string s)).
  { unfold trim. rewrite list_ascii_of_string_of_list_ascii.
    rewrite filter_rev_list.
    rewrite (filter_trim_start _ _ space_not_name_char).
    rewrite filter_rev_list, rev_involutive.
    apply (filter_trim_start _ _ space_not_name_char). }
  destruct (String.eqb_spec (trim s) "") as [E|E].
  - rewrite E in Ht. simpl in Ht. now rewrite <- Ht.
  - rewrite filter_drop_dots, filter_separators, Ht.
    now destruct (List.filter AppName.is_name_char (list_ascii_of_string s)).
Qed.

(** X24.  [sanitizeAppName] returns a name fit for one path segment: never
    empty, made of letters, digits, [_] and [-] only (so with no separator
    and no dot), and it returns such a name as it is. It keeps the
    characters of its argument that are of this kind, in their order, and
    falls back to [app] when there is none or the argument is not a string. *)
Theorem sanitizeAppName_safe (name : value) :
  let n := AppName.sanitizeAppName name in
  n <> "" /\
  forallb AppName.is_name_char (list_ascii_of_string n) = true /\
  AppName.sanitizeAppName (VStr n) = n /\
  (forall s, name = VStr s ->
     n = match List.filter AppName.is_name_char (list_ascii_of_string s) with
         | [] => "app"
         | kept => string_of_list_ascii kept
         end) /\
  ((forall s, name <> VStr s) -> n = "app").
Proof.
  intros n.
  assert (Hshape : n = "app" \/
                   exists c r,
                     n = string_of_list_ascii (c :: r) /\
                     forallb AppName.is_name_char (c :: r) = true /\
                     forall s, name = VStr s ->
                       List.filter AppName.is_name_char
                         (list_ascii_of_string s) = c :: r).
  { unfold n. destruct name; auto. rewrite sanitize_as_filter.
    destruct (List.filter AppName.is_name_char (list_ascii_of_string s))
      as [|c r] eqn:E; auto.
    right. exists c, r. split; [reflexivity|]. split.
    - rewrite <- E. apply forallb_forall. intros x Hx.
      apply List.filter_In in Hx. tauto.
    - intros s' [= <-]. exact E. }
  assert (Hkeep : forall l, forallb AppName.is_name_char l = true ->
                            List.filter AppName.is_name_char l = l).
  { induction l as [|a l IH]; simpl; auto. intros H.
    apply andb_true_iff in H. destruct H as [-> H]. now rewrite IH. }
  split; [|split; [|split; [|split]]].
  - destruct Hshape as [->|(c & r & -> & _)]; discriminate.
  - destruct Hshape as [->|(c & r & -> & H & _)]; [reflexivity|].
    now rewrite list_ascii_of_string_of_list_ascii.
  - rewrite sanitize_as_filter.
    destruct Hshape as [->|(c & r & -> & H & _)]; [reflexivity|].
    rewrite list_ascii_of_string_of_list_ascii, Hkeep by exact H.
    reflexivity.
  - intros s ->. unfold n. apply sanitize_as_filter.
  - intros H. unfold n. destruct name; try reflexivity.
    now destruct (H s).
Qed.

Lemma sanitizeAppName_safe_witness :
  AppName.sanitizeAppName (VStr " ../my app/v.2 ") = "myappv2" /\
  AppName.sanitizeAppName (VNum 7) = "app".
Proof.
  split.
  - exact (proj1 (proj2 (proj2 (proj2
             (sanitizeAppName_safe (VStr " ../my app/v.2 ")))))
             " ../my app/v.2 " eq_refl).
  - refine (proj2 (proj2 (proj2 (proj2 (sanitizeAppName_safe (VNum 7)))))
              _).
    intros s. discriminate.
Defined.

(** ** Generated identifiers *)

Lemma hex_is_hex (v : Z) :
  (0 <= v < 16)%Z -> Uuid.is_hex (Uuid.hex v) = true.
Proof.
  intros H.
  assert (Hc : In v [0; 1; 2; 3; 4; 5; 6; 7; 8; 9; 10; 11; 12; 13; 14; 15]%Z).
  { simpl. lia. }
  simpl in Hc.
  repeat (destruct Hc as [<-|Hc]; [reflexivity|]). destruct Hc.
Qed.

Lemma variant_digit (r : Z) :
  (0 <= r < 16)%Z ->
  In (Uuid.hex (Z.lor (Z.land r 3) 8)) ["8"; "9"; "a"; "b"]%char.
Proof.
  intros H.
  assert (Hc : In r [0; 1; 2; 3; 4; 5; 6; 7; 8; 9; 10; 11; 12; 13; 14; 15]%Z).
  { simpl. lia. }
  simpl in Hc.
  repeat (destruct Hc as [<-|Hc]; [vm_compute; tauto|]). destruct Hc.
Qed.

Lemma hex_injective (a b : Z) :
  (0 <= a < 16)%Z -> (0 <= b < 16)%Z -> Uuid.hex a = Uuid.hex b -> a = b.
Proof.
  intros Ha Hb.
  assert (Hc : forall x, (0 <= x < 16)%Z ->
            In x [0; 1; 2; 3; 4; 5; 6; 7; 8; 9; 10; 11; 12; 13; 14; 15]%Z).
  { intros x Hx. simpl. lia. }
  pose proof (Hc a Ha) as Ia. pose proof (Hc b Hb) as Ib.
  simpl in Ia, Ib.
  repeat (destruct Ia as [<-|Ia]; [
    repeat (destruct Ib as [<-|Ib];
            [vm_compute; intros H; first [reflexivity | discriminate H]|]);
    destruct Ib|]).
  destruct Ia.
Qed.

Lemma fallback_slot (rand : nat -> Z) (k j : nat) :
  j < 31 ->
  nth (Uuid.slot j) (list_ascii_of_string (Uuid.fallback rand k)) " "%char
  = Uuid.digit_of j (rand (j + k)).
Proof.
  intros Hj. unfold Uuid.fallback.
  rewrite list_ascii_of_string_of_list_ascii.
  cbn [Uuid.template list_ascii_of_string Uuid.fill Ascii.eqb Bool.eqb].
  do 31 (destruct j as [|j]; [reflexivity|]).
  lia.
Qed.

(** X25.  The fallback identifier has the shape of a version-4 UUID whatever
    the random draws: 36 characters, hyphens at positions 8, 13, 18 and 23,
    the digit 4 at position 14, one of 8, 9, a, b at position 19, and
    lower-case hexadecimal digits elsewhere.  It takes 31 draws, one for
    each place in order: the place of a draw holds the hexadecimal digit of
    that draw (of its two low bits plus 8 for the sixteenth).  So two
    sources that agree on the 31 draws give the same identifier, and two
    that differ in a draw other than the sixteenth give different ones. *)
Theorem fallback_uuid_shape (rand : nat -> Z) (k : nat) :
  (forall i, (0 <= rand i < 16)%Z) ->
  let u := list_ascii_of_string (Uuid.fallback rand k) in
  length u = 36 /\
  (forall i, In i [8; 13; 18; 23] -> nth i u " "%char = "-"%char) /\
  nth 14 u " "%char = "4"%char /\
  In (nth 19 u " "%char) ["8"; "9"; "a"; "b"]%char /\
  (forall i, i < 36 -> ~ In i [8; 13; 18; 23] ->
             Uuid.is_hex (nth i u " "%char) = true) /\
  (forall j, j < 31 ->
     nth (Uuid.slot j) u " "%char = Uuid.digit_of j (rand (j + k))) /\
  (forall rand',
     (forall i, k <= i < k + 31 -> rand' i = rand i) ->
     Uuid.fallback rand' k = Uuid.fallback rand k) /\
  (forall rand' j,
     (forall i, (0 <= rand' i < 16)%Z) ->
     j < 31 -> j <> 15 -> rand' (j + k) <> rand (j + k) ->
     Uuid.fallback rand' k <> Uuid.fallback rand k).
Proof.
  intros Hr u.
  assert (Hslot : forall j, j < 31 ->
            nth (Uuid.slot j) u " "%char = Uuid.digit_of j (rand (j + k))).
  { intros j Hj. now apply fallback_slot. }
  assert (Hdiff : forall rand' j,
            (forall i, (0 <= rand' i < 16)%Z) ->
            j < 31 -> j <> 15 -> rand' (j + k) <> rand (j + k) ->
            Uuid.fallback rand' k <> Uuid.fallback rand k).
  { intros rand' j Hr' Hj H15 Hne He. apply Hne.
    pose proof (fallback_slot rand' k j Hj) as H1.
    rewrite He, (fallback_slot rand k j Hj) in H1.
    unfold Uuid.digit_of in H1.
    apply Nat.eqb_neq in H15. rewrite H15 in H1.
    symmetry. now apply hex_injective. }
  split; [|split; [|split; [|split; [|split; [|split;
    [exact Hslot|split; [|exact Hdiff]]]]]]];
    unfold u, Uuid.fallback;
    try rewrite list_ascii_of_string_of_list_ascii;
    cbn [Uuid.template list_ascii_of_string Uuid.fill Ascii.eqb Bool.eqb].
  - reflexivity.
  - intros i [<-|[<-|[<-|[<-|[]]]]]; reflexivity.
  - reflexivity.
  - apply variant_digit, Hr.
  - intros i Hi Hn.
    assert (Hv : forall r, (0 <= Z.lor (Z.land (rand r) 3) 8 < 16)%Z).
    { intros r. specialize (Hr r).
      assert (Hc : In (rand r)
                [0; 1; 2; 3; 4; 5; 6; 7; 8; 9; 10; 11; 12; 13; 14; 15]%Z).
      { simpl. lia. }
      simpl in Hc.
      repeat (destruct Hc as [<-|Hc]; [vm_compute; split; congruence|]).
      destruct Hc. }
    do 36 (destruct i as [|i];
           [try (exfalso; apply Hn; simpl; tauto);
            cbn [nth]; try apply hex_is_hex; auto; reflexivity|]).
    lia.
  - intros rand' He. rewrite !He by lia. reflexivity.
Qed.

Lemma fallback_uuid_shape_witness :
  let u := list_ascii_of_string (Uuid.fallback (fun i => Z.of_nat (i mod 16)) 0)
  in
  length u = 36 /\ nth 14 u " "%char = "4"%char /\
  In (nth 19 u " "%char) ["8"; "9"; "a"; "b"]%char /\
  nth (Uuid.slot 10) u " "%char = "a"%char.
Proof.
  assert (Hr : forall i, (0 <= Z.of_nat (i mod 16) < 16)%Z).
  { intros i. pose proof (Nat.mod_upper_bound i 16). lia. }
  pose proof (fallback_uuid_shape (fun i => Z.of_nat (i mod 16)) 0 Hr) as H.
  split; [apply H|]. split; [apply H|]. split; [apply H|].
  apply (proj1 (proj2 (proj2 (proj2 (proj2 (proj2 H))))) 10). lia.
Defined.

(** ** Rotation of the log file *)

Lemma append_cancel (s t u : string) : s +:+ t = s +:+ u -> t = u.
Proof.
  induction s as [|c s IH]; simpl; auto. intros H. injection H as H. auto.
Qed.

Lemma string_of_list_ascii_inj (l l' : list ascii) :
  string_of_list_ascii l = string_of_list_ascii l' -> l = l'.
Proof.
  intros H. apply (f_equal list_ascii_of_string) in H.
  now rewrite !list_ascii_of_string_of_list_ascii in H.
Qed.

Lemma backup_injective (p : path) (i j : nat) :
  LogFile.backup p i = LogFile.backup p j -> i = j.
Proof.
  unfold LogFile.backup, path_join. intros H. injection H as H.
  apply append_cancel, append_cancel in H.
  now apply decimal_injective, string_of_list_ascii_inj.
Qed.

Lemma backup_fresh (p : path) (i : nat) : LogFile.backup p i <> p.
Proof.
  unfold LogFile.backup, path_join, dirname, basename.
  destruct p as [d b]. simpl. intros H. injection H as H. revert H.
  apply append_nonempty_ne. discriminate.
Qed.

Lemma link_injective (p : path) (i j : nat) : link p i = link p j -> i = j.
Proof.
  destruct i, j; simpl; auto.
  - intros H. symmetry in H. now apply backup_fresh in H.
  - intros H. now apply backup_fresh in H.
  - apply backup_injective.
Qed.

Section Rotation.
Variable env : Env.
Hypothesis Hrel : reliable env.
Variables maxSizeBytes maxBackups : Z.

Lemma existsSync_run (p : path) (c : list LogFile.event) (w : World) :
  LogFile.existsSync env p (c, w)
  = (Ok match files w !! p with Some _ => true | None => false end,
     (c, next_io w)).
Proof. unfold LogFile.existsSync. run. now rewrite Hrel. Qed.

Lemma rename_run (src dst : path) (text : string)
    (c : list LogFile.event) (w : World) :
  files w !! src = Some text ->
  fs_rename env src dst (c, w)
  = (Ok tt,
     (c, set_files (<[dst := text]> (delete src (files w))) (next_io w))).
Proof. intros H. run. rewrite Hrel. simpl. now rewrite H. Qed.

(** [shift] from index [i]: every backup from 1 to [i] that exists moves
    one name up. *)
Lemma shift_run (p : path) (i : nat) (c : list LogFile.event) (w : World) :
  exists w',
    LogFile.shift env p i (c, w) = (Ok true, (c, w')) /\
    (forall j, 1 <= j <= S i ->
       files w' !! LogFile.backup p j
       = match (if j =? 1 then None else files w !! LogFile.backup p (j - 1))
         with
         | Some t => Some t
         | None => if j <=? i then None else files w !! LogFile.backup p j
         end) /\
    (forall q, (forall j, 1 <= j <= S i -> q <> LogFile.backup p j) ->
       files w' !! q = files w !! q).
Proof.
  revert w. induction i as [|i IH]; intros w.
  - exists w. split; [reflexivity|]. split; auto.
    intros j Hj. assert (j = 1) as -> by lia. reflexivity.
  - cbn [LogFile.shift]. unfold bind at 1. rewrite existsSync_run.
    destruct (files w !! LogFile.backup p (S i)) as [text|] eqn:Hsrc.
    + unfold bind at 1. unfold try_catch, bind at 1.
      rewrite (rename_run _ _ text) by exact Hsrc.
      cbn [ret].
      destruct (IH (set_files
                      (<[LogFile.backup p (S (S i)) := text]>
                         (delete (LogFile.backup p (S i))
                                 (files (next_io w)))) (next_io (next_io w))))
        as (w' & Hrun & Hchain & Hrest).
      exists w'. split; [exact Hrun|]. simpl in Hchain, Hrest. split.
      * intros j Hj.
        destruct (Nat.eq_dec j (S (S i))) as [->|Hne].
        -- rewrite Hrest.
           ++ rewrite lookup_insert_eq.
              replace (S (S i) - 1) with (S i) by lia. rewrite Hsrc.
              reflexivity.
           ++ intros k Hk E. apply backup_injective in E. lia.
        -- rewrite Hchain by lia.
           assert (Hprev : forall k, k <= i -> 1 <= k ->
                     (<[LogFile.backup p (S (S i)) := text]>
                        (delete (LogFile.backup p (S i)) (files w)))
                     !! LogFile.backup p k
                     = files w !! LogFile.backup p k).
           { intros k Hk Hk1.
             rewrite lookup_insert_ne, lookup_delete_ne; auto;
               intros E; apply backup_injective in E; lia. }
           destruct (Nat.eqb_spec j 1) as [->|Hj1].
           ++ destruct (1 <=? i) eqn:E1; simpl; auto.
              apply Nat.leb_gt in E1. assert (i = 0) as -> by lia.
              rewrite lookup_insert_ne, lookup_delete_eq; auto.
              intros E. apply backup_injective in E. lia.
           ++ rewrite Hprev by lia.
              destruct (files w !! LogFile.backup p (j - 1)); auto.
              destruct (Nat.leb_spec j i) as [Hle|Hgt].
              ** assert ((j <=? S i) = true) as -> by (apply Nat.leb_le; lia).
                 reflexivity.
              ** assert (j = S i) as -> by lia.
                 rewrite lookup_insert_ne, lookup_delete_eq.
                 --- now rewrite Nat.leb_refl.
                 --- intros E. apply backup_injective in E. lia.
      * intros q Hq. rewrite Hrest.
        -- rewrite lookup_insert_ne, lookup_delete_ne; auto;
             intros E; symmetry in E; revert E; apply Hq; lia.
        -- intros j Hj. apply Hq. lia.
    + destruct (IH (next_io w)) as (w' & Hrun & Hchain & Hrest).
      exists w'. split; [exact Hrun|]. simpl in Hchain, Hrest. split.
      * intros j Hj.
        destruct (Nat.eq_dec j (S (S i))) as [->|Hne].
        -- rewrite Hrest.
           ++ replace (S (S i) - 1) with (S i) by lia. rewrite Hsrc.
              destruct (Nat.eqb_spec (S (S i)) 1); [lia|].
              assert ((S (S i) <=? S i) = false) as ->
                by (apply Nat.leb_gt; lia). reflexivity.
           ++ intros k Hk E. apply backup_injective in E. lia.
        -- rewrite Hchain by lia.
           destruct (if j =? 1 then None
                     else files w !! LogFile.backup p (j - 1)); auto.
           destruct (Nat.leb_spec j i) as [Hle|Hgt].
           ++ assert ((j <=? S i) = true) as -> by (apply Nat.leb_le; lia).
              reflexivity.
           ++ assert (j = S i) as -> by lia.
              now rewrite Nat.leb_refl, Hsrc.
      * intros q Hq. apply Hrest. intros j Hj. apply Hq. lia.
Qed.

End Rotation.

Lemma swallow_ok {S : Type} (m : M S unit) (s : S) :
  fst (try_catch m (fun _ => ret tt) s) = Ok tt.
Proof.
  unfold try_catch. destruct (m s) as [[[]|e] s']; reflexivity.
Qed.

Lemma existsSync_files (env : Env) (p : path)
    (s : list LogFile.event * World) :
  exists b w',
    LogFile.existsSync env p s = (Ok b, (fst s, w')) /\
    files w' = files (snd s) /\
    (b = true -> files (snd s) !! p <> None).
Proof.
  destruct s as [c w]. unfold LogFile.existsSync. run.
  destruct (fault env (io w)); simpl.
  - eexists _, _. split; [reflexivity|]. split; [reflexivity|discriminate].
  - eexists _, _. split; [reflexivity|]. split; [reflexivity|].
    destruct (files w !! p); [discriminate|discriminate].
Qed.

Lemma rotate_small (env : Env) (maxSizeBytes maxBackups : Z)
    (p : path) (c : list LogFile.event) (w : World) :
  files w !! p = None \/
  (exists text, files w !! p = Some text /\
                (LogFile.byte_length text < maxSizeBytes)%Z) ->
  exists w',
    LogFile.rotateIfNeeded env maxSizeBytes maxBackups p (c, w)
    = (Ok tt, (c, w')) /\
    files w' = files w.
Proof.
  intros H. unfold LogFile.rotateIfNeeded, try_catch at 1.
  unfold bind at 1.
  destruct (existsSync_files env p (c, w)) as (b & w1 & -> & Hf1 & Hb).
  simpl in Hf1, Hb. destruct b; simpl.
  - destruct H as [H|(text & Ht & Hlt)]; [now destruct (Hb eq_refl)|].
    unfold bind at 1. unfold LogFile.statSync_size. run.
    destruct (fault env (io w1)); simpl.
    + eexists. split; [reflexivity|]. exact Hf1.
    + rewrite Hf1, Ht. simpl.
      apply Z.ltb_lt in Hlt. rewrite Hlt. simpl.
      eexists. split; [reflexivity|]. exact Hf1.
  - eexists. split; [reflexivity|]. exact Hf1.
Qed.

(** X26.  [rotateIfNeeded] never throws, and it leaves every file and the
    console as they are when the log is missing or smaller than
    [maxSizeBytes] - whatever the medium does. *)
Theorem rotation_spares_small_logs (env : Env) (maxSizeBytes maxBackups : Z)
    (p : path) (c : list LogFile.event) (w : World) :
  fst (LogFile.rotateIfNeeded env maxSizeBytes maxBackups p (c, w)) = Ok tt /\
  (files w !! p = None \/
   (exists text, files w !! p = Some text /\
                 (LogFile.byte_length text < maxSizeBytes)%Z) ->
   exists w',
     LogFile.rotateIfNeeded env maxSizeBytes maxBackups p (c, w)
     = (Ok tt, (c, w')) /\
     files w' = files w).
Proof.
  split; [apply swallow_ok|apply rotate_small].
Qed.

Lemma rotation_spares_small_logs_witness :
  exists w',
    LogFile.rotateIfNeeded full_disk_env 64 3 log_path ([], log_world)
    = (Ok tt, ([], w')) /\
    files w' = files log_world.
Proof.
  apply (proj2 (rotation_spares_small_logs full_disk_env 64 3 log_path []
                  log_world)).
  right. exists "0123456789". split; reflexivity.
Defined.

(** What a rotation on a reliable medium leaves under every name. *)
Lemma rotate_full (env : Env) (maxSizeBytes maxBackups : Z)
    (p : path) (text : string) (c : list LogFile.event) (w : World) :
  reliable env ->
  files w !! p = Some text ->
  (maxSizeBytes <= LogFile.byte_length text)%Z ->
  let n := Z.to_nat (maxBackups - 1) in
  exists w',
    LogFile.rotateIfNeeded env maxSizeBytes maxBackups p (c, w)
    = (Ok tt, (c, w')) /\
    files w' !! p = None /\
    (forall j, 1 <= j <= S n ->
       files w' !! LogFile.backup p j
       = match files w !! link p (j - 1) with
         | Some t => Some t
         | None => if j <=? n then None
                   else files w !! LogFile.backup p j
         end) /\
    (forall q, q <> p -> (forall j, 1 <= j <= S n -> q <> LogFile.backup p j) ->
               files w' !! q = files w !! q).
Proof.
  intros Hrel Hp Hsize n.
  assert (Hstat : forall w0, files w0 !! p = Some text ->
            LogFile.statSync_size env p (c, w0)
            = (Ok (LogFile.byte_length text), (c, next_io w0))).
  { intros w0 H0. unfold LogFile.statSync_size. run.
    rewrite Hrel. simpl. now rewrite H0. }
  assert (Hge : (LogFile.byte_length text <? maxSizeBytes)%Z = false)
    by (apply Z.ltb_ge; exact Hsize).
  destruct (shift_run env Hrel p n c (next_io (next_io w)))
    as (w1 & Hrun & Hchain & Hrest).
  unfold LogFile.rotateIfNeeded, try_catch at 1.
  unfold bind at 1. rewrite existsSync_run by exact Hrel. rewrite Hp.
  cbn [negb]. unfold bind at 1. rewrite Hstat by exact Hp. rewrite Hge.
  fold n. unfold bind at 1. rewrite Hrun. cbn [negb].
  assert (Hp1 : files w1 !! p = Some text).
  { rewrite Hrest; [exact Hp|]. intros j Hj E.
    symmetry in E. now apply backup_fresh in E. }
  unfold try_catch.
  rewrite (rename_run env Hrel _ _ text) by exact Hp1.
  eexists. split; [reflexivity|]. cbn [files set_files].
  simpl in Hchain, Hrest.
  split; [|split].
  - rewrite lookup_insert_ne by apply backup_fresh. apply lookup_delete_eq.
  - intros j Hj. destruct (Nat.eq_dec j 1) as [->|Hne].
    + rewrite lookup_insert_eq. simpl. now rewrite Hp.
    + rewrite lookup_insert_ne
        by (intros E; apply backup_injective in E; lia).
      rewrite lookup_delete_ne
        by (intros E; symmetry in E; now apply backup_fresh in E).
      change (files (next_io w1)) with (files w1).
      rewrite Hchain by exact Hj.
      destruct (Nat.eqb_spec j 1); [lia|].
      destruct j as [|[|j]]; try lia. reflexivity.
  - intros q Hqp Hq.
    rewrite lookup_insert_ne by (intros E; symmetry in E; revert E;
                                 apply (Hq 1); lia).
    rewrite lookup_delete_ne by (intros E; symmetry in E; contradiction).
    change (files (next_io w1)) with (files w1).
    now apply Hrest.
Qed.

(** X27.  On a medium that does not fail, a log that has reached
    [maxSizeBytes] is rotated. With [n] the number of backups shifted
    ([maxBackups - 1], at least 0): every file of the chain - the log, then
    its backups [.1] to [.n] - moves to the next name; a name of the chain
    onto which nothing moved is free afterwards, the log's own name among
    them; the last name [.(n+1)] keeps its file when nothing moved onto it;
    no other file changes and nothing is printed. *)
Theorem rotation_shifts_chain (env : Env) (maxSizeBytes maxBackups : Z)
    (p : path) (text : string) (c : list LogFile.event) (w : World) :
  reliable env ->
  files w !! p = Some text ->
  (maxSizeBytes <= LogFile.byte_length text)%Z ->
  let n := Z.to_nat (maxBackups - 1) in
  exists w',
    LogFile.rotateIfNeeded env maxSizeBytes maxBackups p (c, w)
    = (Ok tt, (c, w')) /\
    (forall j t, j <= n -> files w !! link p j = Some t ->
                 files w' !! link p (S j) = Some t) /\
    (forall j, j <= n ->
               j = 0 \/ files w !! link p (j - 1) = None ->
               files w' !! link p j = None) /\
    (files w !! link p n = None ->
     files w' !! link p (S n) = files w !! link p (S n)) /\
    (forall q, (forall j, j <= S n -> q <> link p j) ->
               files w' !! q = files w !! q).
Proof.
  intros Hrel Hp Hsize n.
  destruct (rotate_full env maxSizeBytes maxBackups p text c w Hrel Hp Hsize)
    as (w' & Hrun & Hlog & Hup & Hrest).
  fold n in Hup, Hrest.
  exists w'. split; [exact Hrun|]. split; [|split; [|split]].
  - intros j t Hj Ht. cbn [link]. rewrite Hup by lia.
    replace (S j - 1) with j by lia. now rewrite Ht.
  - intros j Hj Hprev. destruct j as [|j]; [exact Hlog|].
    cbn [link]. rewrite Hup by lia.
    destruct Hprev as [Hprev|Hprev]; [discriminate|]. rewrite Hprev.
    assert ((S j <=? n) = true) as -> by (apply Nat.leb_le; lia).
    reflexivity.
  - intros Hn. cbn [link]. rewrite Hup by lia.
    replace (S n - 1) with n by lia. rewrite Hn.
    assert ((S n <=? n) = false) as -> by (apply Nat.leb_gt; lia).
    reflexivity.
  - intros q Hq. apply Hrest.
    + apply (Hq 0). lia.
    + intros j Hj. destruct j as [|j]; [lia|]. apply (Hq (S j)). lia.
Qed.

Lemma rotation_shifts_chain_witness :
  exists w',
    LogFile.rotateIfNeeded sample_env 8 3 log_path ([], log_world)
    = (Ok tt, ([], w')) /\
    files w' !! log_path = None /\
    files w' !! LogFile.backup log_path 1 = Some "0123456789" /\
    files w' !! LogFile.backup log_path 3 = Some "oldest".
Proof.
  destruct (rotation_shifts_chain sample_env 8 3 log_path "0123456789" []
              log_world sample_env_reliable eq_refl)
    as (w' & Hrun & Hup & Hfree & _).
  { vm_compute. discriminate. }
  exists w'. split; [exact Hrun|]. split; [|split].
  - apply (Hfree 0); [simpl; lia|now left].
  - apply (Hup 0); [simpl; lia|reflexivity].
  - apply (Hup 2); [simpl; lia|reflexivity].
Defined.

(** ** Appending a line to the log *)

Lemma byte_length_app (s t : string) :
  LogFile.byte_length (s +:+ t)
  = (LogFile.byte_length s + LogFile.byte_length t)%Z.
Proof.
  unfold LogFile.byte_length. rewrite JSONFacts.list_ascii_app.
  induction (list_ascii_of_string s) as [|c l IH]; simpl; auto.
  rewrite IH. lia.
Qed.

Lemma ensureDirExists_run (env : Env) (dir : string)
    (c : list LogFile.event) (w : World) :
  LogFile.ensureDirExists env dir (c, w) = (Ok tt, (c, next_io w)).
Proof.
  unfold LogFile.ensureDirExists. run. now destruct (fault env (io w)).
Qed.

(** X28.  [writeToFile] never throws, and does nothing at all when
    [logToFile] is off. On a medium that does not fail the log then ends
    with the line and the end-of-line mark, after what it held if that was
    smaller than [maxSizeBytes], and as its only content otherwise: what the
    log held is then under [.1]. So the log outgrows the limit by less than
    one line. *)
Theorem writeToFile_appends (env : Env) (maxSizeBytes maxBackups : Z)
    (logToFile : bool) (logDir fileName EOL line : string)
    (c : list LogFile.event) (w : World) :
  let write :=
    LogFile.writeToFile env maxSizeBytes maxBackups logToFile logDir fileName
      EOL line in
  let p := path_join logDir fileName in
  fst (write (c, w)) = Ok tt /\
  (logToFile = false -> write (c, w) = (Ok tt, (c, w))) /\
  (logToFile = true -> reliable env ->
   exists w',
     write (c, w) = (Ok tt, (c, w')) /\
     match files w !! p with
     | None => files w' !! p = Some (line +:+ EOL)
     | Some old =>
         if (LogFile.byte_length old <? maxSizeBytes)%Z
         then files w' !! p = Some (old +:+ line +:+ EOL)
         else files w' !! p = Some (line +:+ EOL) /\
              files w' !! LogFile.backup p 1 = Some old
     end /\
     (exists now,
        files w' !! p = Some now /\
        (LogFile.byte_length now - LogFile.byte_length (line +:+ EOL)
         < Z.max maxSizeBytes 1)%Z)).
Proof.
  intros write p. unfold write, LogFile.writeToFile. split; [|split].
  - destruct logToFile; simpl; [apply swallow_ok|reflexivity].
  - now intros ->.
  - intros -> Hrel. cbn [negb]. unfold try_catch at 1.
    unfold bind at 1. rewrite ensureDirExists_run. unfold bind at 1.
    fold p.
    assert (Happ : forall w1,
              LogFile.appendFileSync env p (line +:+ EOL) (c, w1)
              = (Ok tt,
                 (c, set_files
                       (<[p := match files w1 !! p with
                               | Some t => t
                               | None => ""
                               end +:+ line +:+ EOL]> (files w1))
                       (next_io w1)))).
    { intros w1. unfold LogFile.appendFileSync. run. now rewrite Hrel. }
    destruct (files w !! p) as [old|] eqn:Hold.
    + destruct (LogFile.byte_length old <? maxSizeBytes)%Z eqn:Hsz.
      * destruct (rotate_small env maxSizeBytes maxBackups p c (next_io w))
          as (w1 & Hrot & Hf).
        { right. exists old. split; [exact Hold|]. now apply Z.ltb_lt. }
        rewrite Hrot, Happ. eexists. split; [reflexivity|].
        cbn [files set_files]. rewrite Hf. cbn [files next_io].
        rewrite Hold, lookup_insert_eq. split; [reflexivity|].
        eexists. split; [reflexivity|].
        rewrite byte_length_app. apply Z.ltb_lt in Hsz. lia.
      * destruct (rotate_full env maxSizeBytes maxBackups p old c
                    (next_io w) Hrel Hold)
          as (w1 & Hrot & H0 & Hup & _).
        { now apply Z.ltb_ge. }
        rewrite Hrot, Happ. eexists. split; [reflexivity|].
        cbn [files set_files].
        rewrite H0, lookup_insert_eq. split; [split; [reflexivity|]|].
        -- rewrite lookup_insert_ne
             by (intros E; symmetry in E; now apply backup_fresh in E).
           rewrite (Hup 1) by lia. cbn [link Nat.sub].
           change (files (next_io w)) with (files w). now rewrite Hold.
        -- eexists. split; [reflexivity|].
           change ("" +:+ line +:+ EOL) with (line +:+ EOL). lia.
    + destruct (rotate_small env maxSizeBytes maxBackups p c (next_io w))
        as (w1 & Hrot & Hf).
      { now left. }
      rewrite Hrot, Happ. eexists. split; [reflexivity|].
      cbn [files set_files]. rewrite Hf. cbn [files next_io].
      rewrite Hold, lookup_insert_eq. split; [reflexivity|].
      eexists. split; [reflexivity|].
           change ("" +:+ line +:+ EOL) with (line +:+ EOL). lia.
Qed.

Lemma writeToFile_appends_witness :
  let EOL := String "010"%char "" in
  exists w',
    LogFile.writeToFile sample_env 8 1 true "logs" "app.log" EOL "hello"
      ([], log_world) = (Ok tt, ([], w')) /\
    files w' !! log_path = Some ("hello" +:+ EOL) /\
    files w' !! LogFile.backup log_path 1 = Some "0123456789".
Proof.
  intros EOL.
  destruct (proj2 (proj2 (writeToFile_appends sample_env 8 1 true "logs"
                            "app.log" EOL "hello" [] log_world))
              eq_refl sample_env_reliable) as (w' & Hrun & Hm & _).
  exists w'. split; [exact Hrun|]. exact Hm.
Defined.

(** X29.  When the first move of the rotation - that of the oldest backup to
    be shifted - is rejected, the rotation is given up: the failure is
    reported on the console, no file is renamed, and the log stays where it
    is, so that no backup is overwritten. *)
Theorem rotation_gives_up (env : Env) (maxSizeBytes maxBackups : Z)
    (p : path) (text old code : string) (c : list LogFile.event)
    (w : World) :
  let n := Z.to_nat (maxBackups - 1) in
  0 < n ->
  files w !! p = Some text ->
  (maxSizeBytes <= LogFile.byte_length text)%Z ->
  files w !! LogFile.backup p n = Some old ->
  fault env (io w) = None -> fault env (S (io w)) = None ->
  fault env (S (S (io w))) = None ->
  fault env (S (S (S (io w)))) = Some code ->
  exists w',
    LogFile.rotateIfNeeded env maxSizeBytes maxBackups p (c, w)
    = (Ok tt,
       (c ++ [LogFile.RotationError (LogFile.backup p n)
                (LogFile.backup p (S n)) (SystemError code)], w')) /\
    files w' = files w.
Proof.
  intros n Hn Hp Hsize Hold F0 F1 F2 F3.
  assert (Hge : (LogFile.byte_length text <? maxSizeBytes)%Z = false)
    by (apply Z.ltb_ge; exact Hsize).
  unfold LogFile.rotateIfNeeded. fold n.
  destruct n as [|n']; [lia|].
  cbn [LogFile.shift].
  remember (LogFile.backup p (S n')) as src eqn:Hsrc.
  remember (LogFile.backup p (S (S n'))) as dst eqn:Hdst.
  unfold LogFile.existsSync, LogFile.statSync_size, LogFile.console_error.
  run. rewrite F0. simpl. rewrite Hp. simpl. rewrite F1. simpl.
  rewrite Hp. simpl. rewrite Hge. simpl. rewrite F2. simpl.
  rewrite Hold. simpl. rewrite F3. simpl. eexists. split; reflexivity.
Qed.

Lemma rotation_gives_up_witness :
  exists w',
    LogFile.rotateIfNeeded fourth_call_env 8 3 log_path ([], log_world)
    = (Ok tt,
       ([LogFile.RotationError (LogFile.backup log_path 2)
           (LogFile.backup log_path 3) (SystemError "EPERM")], w')) /\
    files w' = files log_world.
Proof.
  apply (rotation_gives_up fourth_call_env 8 3 log_path "0123456789"
           "oldest" "EPERM" [] log_world); try reflexivity.
  - simpl. lia.
  - vm_compute. discriminate.
Defined.

(** ** Records created at the same instant *)

Lemma same_key_sorted {A} (key : A -> string) (t : string) (l : list A) :
  List.Forall (fun x => key x = t) l -> StronglySorted (key_le key) l.
Proof.
  induction 1 as [|x l Hx Hl IH]; constructor; auto.
  apply List.Forall_forall. intros y Hy.
  rewrite List.Forall_forall in Hl. unfold key_le.
  rewrite Hx, (Hl y Hy). apply leb_refl.
Qed.

Lemma sort_by_ties {A} (key : A -> string) (t : string) (l : list A) :
  List.filter (fun x => String.eqb (key x) t) (sort_by key l)
  = List.filter (fun x => String.eqb (key x) t) l.
Proof.
  rewrite <- sort_by_filter. apply sort_by_sorted_id.
  apply (same_key_sorted key t). apply List.Forall_forall.
  intros x Hx. apply List.filter_In in Hx. now apply String.eqb_eq.
Qed.

(** X30.  The listing of the File Backend is stable: records that carry the
    same creation stamp come in the order in which they entered the map. *)
Theorem ties_keep_insertion_order (me : FileStorage.t) (w : World)
    (t : string) :
  well_typed (FileStorage._map me) ->
  exists full,
    fst (FileStorage.getAllTodos no_options (me, w)) = Ok full /\
    List.filter (stamped t) full
    = List.filter (stamped t) (values (FileStorage._map me)).
Proof.
  intros Ht. rewrite file_getAllTodos_run by exact Ht.
  eexists. split; [reflexivity|]. apply sort_by_ties.
Qed.

Lemma ties_keep_insertion_order_witness :
  exists full,
    fst (FileStorage.getAllTodos no_options (twin_store, empty_world))
    = Ok full /\
    List.filter (stamped "2024-05-01T10:00:00") full
    = List.filter (stamped "2024-05-01T10:00:00")
        (values (FileStorage._map twin_store)).
Proof.
  exact (ties_keep_insertion_order twin_store empty_world
           "2024-05-01T10:00:00" eq_refl).
Defined.
